(** * IR construction for interfaces, function values and defers

    A shallow embedding of the interface, function-value and defer parts of
    the compiler (compiler/interface.go, compiler/func.go, compiler/defer.go),
    together with a small model of the LLVM objects they build and an
    interpreter for the emitted instructions. *)

From Stdlib Require Import ZArith DecimalString.
From stdpp Require Import gmap strings list.

Set Warnings "-register-all".
Open Scope string_scope.
Open Scope list_scope.

(** ** Results of fallible code

    The Go code signals internal errors with [panic]; a panic aborts the
    whole compilation. *)

Inductive result (A : Type) : Type :=
| Ok (a : A)
| Panic (msg : string).
Arguments Ok {A} a.
Arguments Panic {A} msg.

Definition rbind {A B : Type} (r : result A) (k : A -> result B) : result B :=
  match r with
  | Ok a => k a
  | Panic msg => Panic msg
  end.

(** [mapM f l] runs [f] on the elements of [l] from left to right, the way a
    [for i := 0; i < n; i++ { out[i] = f(l[i]) }] loop does; the first panic
    ends the loop. *)
Fixpoint sequence {A : Type} (l : list (result A)) : result (list A) :=
  match l with
  | [] => Ok []
  | Ok a :: rest => rbind (sequence rest) (fun r => Ok (a :: r))
  | Panic msg :: _ => Panic msg
  end.

(** ** go/types: the source types the compiler consumes *)

Module types.

Inductive BasicKind : Type :=
| Invalid
| Bool | Int | Int8 | Int16 | Int32 | Int64
| Uint | Uint8 | Uint16 | Uint32 | Uint64 | Uintptr
| Float32 | Float64 | Complex64 | Complex128
| String | UnsafePointer
| UntypedBool | UntypedInt | UntypedRune | UntypedFloat | UntypedComplex
| UntypedString | UntypedNil.

(** [Basic.Name()] for the kinds the mangler does not know. *)
Definition BasicName (k : BasicKind) : string :=
  match k with
  | Invalid => "invalid type"
  | Bool => "bool" | Int => "int" | Int8 => "int8" | Int16 => "int16"
  | Int32 => "int32" | Int64 => "int64"
  | Uint => "uint" | Uint8 => "uint8" | Uint16 => "uint16"
  | Uint32 => "uint32" | Uint64 => "uint64" | Uintptr => "uintptr"
  | Float32 => "float32" | Float64 => "float64"
  | Complex64 => "complex64" | Complex128 => "complex128"
  | String => "string" | UnsafePointer => "unsafe.Pointer"
  | UntypedBool => "untyped bool" | UntypedInt => "untyped int"
  | UntypedRune => "untyped rune" | UntypedFloat => "untyped float"
  | UntypedComplex => "untyped complex" | UntypedString => "untyped string"
  | UntypedNil => "untyped nil"
  end.

(** The implementations of [types.Type].  A field or a method is a pair of
    its name and its type; a [Named] type carries the qualified name its
    [String()] method prints and its underlying type.  [Tuple] stands for
    the type constructors the mangler has no case for. *)
Inductive Type_ : Type :=
| Array (len : Z) (elem : Type_)
| Basic (kind : BasicKind)
| Chan (elem : Type_)
| Interface (methods : list (string * Type_))
| Map (key elem : Type_)
| Pointer (elem : Type_)
| Signature (recv : option Type_) (params results : list Type_)
| Slice (elem : Type_)
| Struct (fields : list (string * Type_))
| Tuple (vars : list Type_)
| Named (name : string) (underlying : Type_).

(** [t.Underlying()]: the underlying type of a named type is never a named
    type itself. *)
Fixpoint Underlying (t : Type_) : Type_ :=
  match t with
  | Named _ u => Underlying u
  | _ => t
  end.

(** [t.String()]: the source syntax of a type, as go/types prints it; a
    named type prints as its qualified name. *)
Fixpoint String_ (t : Type_) : string :=
  let tuple := fun ts => "(" +:+ String.concat ", " (map String_ ts) +:+ ")" in
  let signature := fun ps rs =>
    tuple ps +:+
    match rs with
    | [] => ""
    | [r] => " " +:+ String_ r
    | _ => " " +:+ tuple rs
    end in
  match t with
  | Array len elem => "[" +:+ NilZero.string_of_int (Z.to_int len) +:+ "]" +:+ String_ elem
  | Basic k => BasicName k
  | Chan elem => "chan " +:+ String_ elem
  | Interface ms =>
      "interface{" +:+
      String.concat "; " (map (fun m =>
        fst m +:+
        match snd m with
        | Signature _ ps rs => signature ps rs
        | _ => String_ (snd m)
        end) ms) +:+ "}"
  | Map key elem => "map[" +:+ String_ key +:+ "]" +:+ String_ elem
  | Pointer elem => "*" +:+ String_ elem
  | Signature _ ps rs => "func" +:+ signature ps rs
  | Slice elem => "[]" +:+ String_ elem
  | Struct fs =>
      "struct{" +:+
      String.concat "; " (map (fun f => fst f +:+ " " +:+ String_ (snd f)) fs) +:+ "}"
  | Tuple vs => tuple vs
  | Named name _ => name
  end.

Definition isNamed (t : Type_) : bool :=
  match t with Named _ _ => true | _ => false end.

Definition isInterface (t : Type_) : bool :=
  match t with Interface _ => true | _ => false end.

(** [*types.Signature] *)
Record Sig : Type := mkSig {
  Recv : option Type_;
  Params : list Type_;
  Results : list Type_
}.

Definition SigType (s : Sig) : Type_ := Signature (Recv s) (Params s) (Results s).

(** The type assertion of [t] to a signature. *)
Definition asSignature (t : Type_) : option Sig :=
  match t with
  | Signature r ps rs => Some (mkSig r ps rs)
  | _ => None
  end.

(** [types.Func]: a declared function or method. *)
Record Func : Type := mkFunc {
  FullName : string;
  FuncType : Type_
}.

End types.

Import types.

(** [strconv.FormatInt(n, 10)] *)
Definition FormatInt (n : Z) : string := NilZero.string_of_int (Z.to_int n).

(** [strings.Join] *)
Definition Join (l : list string) (sep : string) : string := String.concat sep l.

(** ** compiler/interface.go: type identity *)

(** The name of the reserved first field of a cgo union. *)
Definition unionFieldName : string := "C union".

Definition basicKindName (k : BasicKind) : result string :=
  match k with
  | Bool => Ok "bool"
  | Int => Ok "int"
  | Int8 => Ok "int8"
  | Int16 => Ok "int16"
  | Int32 => Ok "int32"
  | Int64 => Ok "int64"
  | Uint => Ok "uint"
  | Uint8 => Ok "uint8"
  | Uint16 => Ok "uint16"
  | Uint32 => Ok "uint32"
  | Uint64 => Ok "uint64"
  | Uintptr => Ok "uintptr"
  | Float32 => Ok "float32"
  | Float64 => Ok "float64"
  | Complex64 => Ok "complex64"
  | Complex128 => Ok "complex128"
  | String => Ok "string"
  | UnsafePointer => Ok "unsafeptr"
  | k => Panic ("unknown basic type: " +:+ BasicName k)
  end.

(** The guard of the struct case: [t.NumFields() > 2 && t.Field(0).Name() ==
    "C union"]. *)
Definition isCgoUnion (fields : list (string * Type_)) : bool :=
  bool_decide (2 < length fields)%nat &&
  match fields with
  | f :: _ => bool_decide (fst f = unionFieldName)
  | [] => false
  end.

(** [getTypeCodeName] returns a name for a type that the interface lowering
    pass uses to assign type codes. *)
Fixpoint getTypeCodeName (t : Type_) : result string :=
  let name :=
    match t with
    | Named named _ => "~" +:+ named +:+ ":"
    | _ => ""
    end in
  match Underlying t with
  | Array len elem =>
      rbind (getTypeCodeName elem) (fun e =>
      Ok ("array:" +:+ name +:+ FormatInt len +:+ ":" +:+ e))
  | Basic k =>
      rbind (basicKindName k) (fun kind =>
      Ok ("basic:" +:+ name +:+ kind))
  | Chan elem =>
      rbind (getTypeCodeName elem) (fun e =>
      Ok ("chan:" +:+ name +:+ e))
  | Interface ms =>
      rbind (sequence (map (fun m => getTypeCodeName (snd m)) ms)) (fun methods =>
      Ok ("interface:" +:+ name +:+ "{" +:+ Join methods "," +:+ "}"))
  | Map key elem =>
      rbind (getTypeCodeName key) (fun keyType =>
      rbind (getTypeCodeName elem) (fun elemType =>
      Ok ("map:" +:+ name +:+ "{" +:+ keyType +:+ "," +:+ elemType +:+ "}")))
  | Pointer elem =>
      rbind (getTypeCodeName elem) (fun e =>
      Ok ("pointer:" +:+ name +:+ e))
  | Signature _ ps rs =>
      rbind (sequence (map getTypeCodeName ps)) (fun params =>
      rbind (sequence (map getTypeCodeName rs)) (fun results =>
      Ok ("func:" +:+ name +:+ "{" +:+ Join params "," +:+ "}{" +:+
          Join results "," +:+ "}")))
  | Slice elem =>
      rbind (getTypeCodeName elem) (fun e =>
      Ok ("slice:" +:+ name +:+ e))
  | Struct fields =>
      if isCgoUnion fields then
        Panic "cgo unions are not allowed in interfaces"
      else
        rbind (sequence (map (fun f => getTypeCodeName (snd f)) fields)) (fun elems =>
        Ok ("struct:" +:+ name +:+ "{" +:+ Join elems "," +:+ "}"))
  | Tuple _ as u | Named _ _ as u => Panic ("unknown type: " +:+ String_ u)
  end.


(** ** The LLVM objects the compiler builds *)

Module llvm.

Inductive TypeKind : Type :=
| VoidTypeKind | IntegerTypeKind | FloatTypeKind | DoubleTypeKind
| PointerTypeKind | StructTypeKind | ArrayTypeKind | FunctionTypeKind.

(** A named struct type is referred to by its name (its body may mention
    the type itself, as [runtime._defer] does). *)
Inductive Type_ : Type :=
| VoidType
| IntType (bits : nat)
| FloatType
| DoubleType
| PointerType (elem : Type_) (addrSpace : nat)
| StructType (elems : list Type_)
| NamedStructType (name : string)
| ArrayType (elem : Type_) (count : nat)
| FunctionType (ret : Type_) (params : list Type_) (variadic : bool).

Definition TypeKind_ (t : Type_) : TypeKind :=
  match t with
  | VoidType => VoidTypeKind
  | IntType _ => IntegerTypeKind
  | FloatType => FloatTypeKind
  | DoubleType => DoubleTypeKind
  | PointerType _ _ => PointerTypeKind
  | StructType _ | NamedStructType _ => StructTypeKind
  | ArrayType _ _ => ArrayTypeKind
  | FunctionType _ _ _ => FunctionTypeKind
  end.

Definition isPointerTypeKind (t : Type_) : bool :=
  match t with PointerType _ _ => true | _ => false end.

Definition isVoidTypeKind (t : Type_) : bool :=
  match t with VoidType => true | _ => false end.

Definition StructName (t : Type_) : string :=
  match t with NamedStructType n => n | _ => "" end.

Definition ElementType (t : Type_) : Type_ :=
  match t with
  | PointerType e _ | ArrayType e _ => e
  | _ => VoidType
  end.

Definition ReturnType (t : Type_) : Type_ :=
  match t with FunctionType r _ _ => r | _ => VoidType end.

Definition ParamTypes (t : Type_) : list Type_ :=
  match t with FunctionType _ ps _ => ps | _ => [] end.

Inductive Linkage : Type :=
| ExternalLinkage | InternalLinkage | PrivateLinkage.

(** An [llvm.Value]: a constant, a reference to a global or a function of
    the module, a function parameter, or the result of an instruction
    (identified by the number the builder gave it).  The nil value
    [llvm.Value{}] is the [None] of [option Value]. *)
Inductive Value : Type :=
| ConstInt (t : Type_) (n : Z)
| ConstPointerNull (t : Type_)
| ConstNull (t : Type_)
| Undef (t : Type_)
| ConstNamedStruct (t : Type_) (vals : list Value)
| ConstStruct (vals : list Value)
| ConstArray (t : Type_) (vals : list Value)
| ConstPtrToInt (v : Value) (t : Type_)
| ConstGEP (v : Value) (indices : list Value)
| Global (name : string) (t : Type_)
| Function (name : string) (t : Type_)
| Param (fn : string) (i : nat) (t : Type_)
| Inst (id : nat) (t : Type_).

(** [v.Type()] *)
Fixpoint typeOf (v : Value) : Type_ :=
  match v with
  | ConstInt t _ | ConstPointerNull t | ConstNull t | Undef t => t
  | ConstNamedStruct t _ => t
  | ConstStruct vals => StructType (map typeOf vals)
  | ConstArray t vals => ArrayType t (length vals)
  | ConstPtrToInt _ t => t
  | ConstGEP v _ =>
      match typeOf v with
      | PointerType (ArrayType e _) a => PointerType e a
      | t => t
      end
  | Global _ t => PointerType t 0
  | Function _ t => PointerType t 0
  | Param _ _ t => t
  | Inst _ t => t
  end.

(** [v.Name()]: only globals and functions are named here. *)
Definition Name (v : Value) : string :=
  match v with
  | Global n _ | Function n _ => n
  | _ => ""
  end.

(** A basic block of a function of the module: the function's name and the
    index of the block among the function's blocks. *)
Definition BasicBlock : Type := string * nat.

Inductive Instr : Type :=
| PtrToInt (v : Value) (t : Type_)
| IntToPtr (v : Value) (t : Type_)
| BitCast (v : Value) (t : Type_)
| InsertValue (agg v : Value) (i : nat)
| ExtractValue (agg : Value) (i : nat)
| Load (ptr : Value)
| Store (v ptr : Value)
| Alloca (t : Type_)
| ICmpEQ (a b : Value)
| InBoundsGEP (ptr : Value) (indices : list Value)
| Call (fn : Value) (args : list Value)
| RuntimeCall (fnName : string) (args : list Value)
| PHI (t : Type_) (incoming : list (Value * BasicBlock))
| CondBr (cond : Value) (thenBlock elseBlock : BasicBlock)
| Br (target : BasicBlock)
| Switch (v : Value) (default : BasicBlock) (cases : list (Value * BasicBlock))
| Unreachable
| Ret (v : Value)
| RetVoid
| PointerPack (vals : list Value)
| PointerUnpack (ptr : Value) (ts : list Type_)
| TrackPointer (ptr : Value).

Record Block : Type := mkBlock {
  blockName : string;
  instrs : list (nat * Instr)
}.

Record FunctionDef : Type := mkFunction {
  fnType : Type_;
  fnLinkage : Linkage;
  fnUnnamedAddr : bool;
  fnBlocks : list Block
}.

Record GlobalDef : Type := mkGlobal {
  globalType : Type_;
  initializer : option Value;
  globalConstant : bool;
  globalLinkage : Linkage
}.

(** A module is a name space of globals and of functions. *)
Record Module : Type := mkModule {
  globals : gmap string GlobalDef;
  functions : gmap string FunctionDef
}.

(** [mod.NamedGlobal(name)] *)
Definition NamedGlobal (m : Module) (name : string) : option Value :=
  match globals m !! name with
  | Some g => Some (Global name (globalType g))
  | None => None
  end.

(** [mod.NamedFunction(name)] *)
Definition NamedFunction (m : Module) (name : string) : option Value :=
  match functions m !! name with
  | Some f => Some (Function name (fnType f))
  | None => None
  end.

(** [llvm.AddGlobal(mod, t, name)]: a new external global without an
    initializer.  Every call in the code modelled here comes after a
    [NamedGlobal] that found the name free. *)
Definition AddGlobal (m : Module) (t : Type_) (name : string) : Value * Module :=
  (Global name t,
   mkModule (<[name := mkGlobal t None false ExternalLinkage]> (globals m))
            (functions m)).

Definition updateGlobal (f : GlobalDef -> GlobalDef) (v : Value) (m : Module) : Module :=
  mkModule (alter f (Name v) (globals m)) (functions m).

Definition SetInitializer (v init : Value) : Module -> Module :=
  updateGlobal (fun g => mkGlobal (globalType g) (Some init) (globalConstant g) (globalLinkage g)) v.

Definition SetGlobalConstant (v : Value) (b : bool) : Module -> Module :=
  updateGlobal (fun g => mkGlobal (globalType g) (initializer g) b (globalLinkage g)) v.

Definition SetLinkage (v : Value) (l : Linkage) : Module -> Module :=
  updateGlobal (fun g => mkGlobal (globalType g) (initializer g) (globalConstant g) l) v.

(** [llvm.AddFunction(mod, name, t)]: a new function declaration. *)
Definition AddFunction (m : Module) (name : string) (t : Type_) : Value * Module :=
  (Function name t,
   mkModule (globals m)
            (<[name := mkFunction t ExternalLinkage false []]> (functions m))).

Definition updateFunction (f : FunctionDef -> FunctionDef) (name : string) (m : Module) : Module :=
  mkModule (globals m) (alter f name (functions m)).

Definition SetFunctionLinkage (v : Value) (l : Linkage) : Module -> Module :=
  updateFunction (fun d => mkFunction (fnType d) l (fnUnnamedAddr d) (fnBlocks d)) (Name v).

Definition SetUnnamedAddr (v : Value) (b : bool) : Module -> Module :=
  updateFunction (fun d => mkFunction (fnType d) (fnLinkage d) b (fnBlocks d)) (Name v).

(** The builder: its insertion point (always the end of a block here) and
    the number it gives to the next instruction. *)
Record Builder : Type := mkBuilder {
  insertBlock : option BasicBlock;
  nextInst : nat
}.

End llvm.

(** ** golang.org/x/tools/go/ssa: the SSA form the compiler consumes *)

Module ssa.

(** Functions are compared by identity in the Go code (they are keys of
    maps); here a function is identified by its name. *)
Record Function : Type := mkFunction {
  Name : string;
  Params : list (string * types.Type_);
  Signature : types.Sig
}.

Inductive Value : Type :=
| Register (name : string) (typ : types.Type_)
| Func (f : Function)
| MakeClosure (name : string) (Fn : Function) (Bindings : list Value).

Definition ValueName (v : Value) : string :=
  match v with
  | Register n _ => n
  | Func f => Name f
  | MakeClosure n _ _ => n
  end.

Definition ValueType (v : Value) : types.Type_ :=
  match v with
  | Register _ t => t
  | Func f => types.SigType (Signature f)
  | MakeClosure _ f _ => types.SigType (Signature f)
  end.

(** [CallCommon]: [Method] is set for a call of an interface method
    ("invoke" mode), and then [Value] is the interface value. *)
Record CallCommon : Type := mkCall {
  CallValue : Value;
  Method : option types.Func;
  Args : list Value
}.

Definition IsInvoke (call : CallCommon) : bool :=
  match Method call with Some _ => true | None => false end.

Record Defer : Type := mkDefer {
  Call : CallCommon;
  DeferPos : nat
}.

Record TypeAssert : Type := mkTypeAssert {
  X : Value;
  AssertedType : types.Type_;
  CommaOk : bool
}.

End ssa.

(** ** The rest of the compiler

    The lowering of source types to LLVM types, the expansion of parameters,
    the signatures, method sets and link names are computed by parts of the
    compiler and of its libraries that are not modelled; the code below is
    parametric in them. *)

Class Program : Type := {
  (** [c.getLLVMType(t)] *)
  getLLVMType : types.Type_ -> llvm.Type_;
  (** [c.expandFormalParamType(t)] *)
  expandFormalParamType : llvm.Type_ -> list llvm.Type_;
  (** [ir.MethodSignature(method)] *)
  MethodSignature : types.Func -> string;
  (** [c.ir.Program.MethodSets.MethodSet(typ)]: the methods of a type in
      order, each with the function [c.ir.Program.MethodValue] gives. *)
  MethodSet : types.Type_ -> list (types.Func * ssa.Function);
  (** [c.getFunctionInfo(f).linkName] *)
  linkName : ssa.Function -> string
}.

(** State kept between [getInterfaceInvokeWrapper] and
    [createInterfaceInvokeWrapper]. *)
Record interfaceInvokeWrapper : Type := mkWrapper {
  wrapperFn : ssa.Function;
  wrapper : llvm.Value;
  receiverType : llvm.Type_
}.

Record Compiler : Type := mkCompiler {
  GOARCH : string;
  Debug : bool;
  uintptrType : llvm.Type_;
  i8ptrType : llvm.Type_;
  funcPtrAddrSpace : nat;
  (** the answer of [c.needsStackObjects()] *)
  stackObjects : bool;
  mod_ : llvm.Module;
  builder : llvm.Builder;
  interfaceInvokeWrappers : list interfaceInvokeWrapper;
  (** the errors reported with [c.addError], each with its position *)
  diagnostics : list (nat * string)
}.

Definition setMod (m : llvm.Module) (c : Compiler) : Compiler :=
  mkCompiler (GOARCH c) (Debug c) (uintptrType c) (i8ptrType c) (funcPtrAddrSpace c)
             (stackObjects c) m (builder c) (interfaceInvokeWrappers c) (diagnostics c).

Definition setBuilder (b : llvm.Builder) (c : Compiler) : Compiler :=
  mkCompiler (GOARCH c) (Debug c) (uintptrType c) (i8ptrType c) (funcPtrAddrSpace c)
             (stackObjects c) (mod_ c) b (interfaceInvokeWrappers c) (diagnostics c).

Definition setWrappers (w : list interfaceInvokeWrapper) (c : Compiler) : Compiler :=
  mkCompiler (GOARCH c) (Debug c) (uintptrType c) (i8ptrType c) (funcPtrAddrSpace c)
             (stackObjects c) (mod_ c) (builder c) w (diagnostics c).

Definition setDiagnostics (d : list (nat * string)) (c : Compiler) : Compiler :=
  mkCompiler (GOARCH c) (Debug c) (uintptrType c) (i8ptrType c) (funcPtrAddrSpace c)
             (stackObjects c) (mod_ c) (builder c) (interfaceInvokeWrappers c) d.

(** What [frame.allDeferFuncs] holds: a [*ssa.CallCommon], a [*ssa.Function]
    or a [*ssa.MakeClosure] (its [Fn] and [Bindings]). *)
Inductive DeferCallback : Type :=
| InvokeCallback (call : ssa.CallCommon)
| FunctionCallback (f : ssa.Function)
| ClosureCallback (Fn : ssa.Function) (Bindings : list ssa.Value).

(** The per-function state. *)
Record Frame : Type := mkFrame {
  (** the name of [frame.llvmFn] *)
  llvmFn : string;
  (** the LLVM value of every SSA value compiled so far *)
  locals : gmap string llvm.Value;
  currentBlock : nat;
  blockExits : gmap nat llvm.BasicBlock;
  deferPtr : option llvm.Value;
  deferFuncs : gmap string nat;
  deferInvokeFuncs : gmap string nat;
  deferClosureFuncs : gmap string nat;
  allDeferFuncs : list DeferCallback
}.

(** ** The compiler monad: state passing over [Compiler], with panics *)

Definition M (A : Type) : Type := Compiler -> result (A * Compiler).

#[global] Instance M_ret : MRet M := fun A (a : A) c => Ok (a, c).

#[global] Instance M_bind : MBind M := fun A B (k : A -> M B) (m : M A) c =>
  match m c with
  | Ok (a, c') => k a c'
  | Panic msg => Panic msg
  end.

Definition panic {A : Type} (msg : string) : M A := fun _ => Panic msg.

Definition get : M Compiler := fun c => Ok (c, c).

Definition modify (f : Compiler -> Compiler) : M unit := fun c => Ok (tt, f c).

Definition lift {A : Type} (r : result A) : M A := fun c =>
  match r with
  | Ok a => Ok (a, c)
  | Panic msg => Panic msg
  end.

(** A loop over a list that threads the state, in order. *)
Fixpoint forM {A B : Type} (l : list A) (f : A -> M B) : M (list B) :=
  match l with
  | [] => mret []
  | a :: rest => b ← f a; bs ← forM rest f; mret (b :: bs)
  end.

Fixpoint foldM {A B : Type} (f : B -> A -> M B) (l : list A) (b : B) : M B :=
  match l with
  | [] => mret b
  | a :: rest => b' ← f b a; foldM f rest b'
  end.

(** [for i, x := range l] *)
Definition indexed {A : Type} (l : list A) : list (nat * A) :=
  zip (seq 0 (length l)) l.

(** *** The module and the builder *)

Definition NamedGlobal (name : string) : M (option llvm.Value) :=
  c ← get; mret (llvm.NamedGlobal (mod_ c) name).

Definition NamedFunction (name : string) : M (option llvm.Value) :=
  c ← get; mret (llvm.NamedFunction (mod_ c) name).

Definition AddGlobal (t : llvm.Type_) (name : string) : M llvm.Value :=
  fun c => let '(g, m) := llvm.AddGlobal (mod_ c) t name in Ok (g, setMod m c).

Definition AddFunction (name : string) (t : llvm.Type_) : M llvm.Value :=
  fun c => let '(f, m) := llvm.AddFunction (mod_ c) name t in Ok (f, setMod m c).

Definition modifyMod (f : llvm.Module -> llvm.Module) : M unit :=
  modify (fun c => setMod (f (mod_ c)) c).

(** Appends an instruction to a block of a function. *)
Definition appendInstr (bb : llvm.BasicBlock) (i : nat * llvm.Instr) : llvm.Module -> llvm.Module :=
  llvm.updateFunction (fun d =>
    llvm.mkFunction (llvm.fnType d) (llvm.fnLinkage d) (llvm.fnUnnamedAddr d)
      (alter (fun b => llvm.mkBlock (llvm.blockName b) (llvm.instrs b ++ [i])) (snd bb)
             (llvm.fnBlocks d))) (fst bb).

(** The block of a function of the module, its instructions, and the number
    of blocks of a function. *)
Definition blockAt (m : llvm.Module) (bb : llvm.BasicBlock) : option llvm.Block :=
  d ← llvm.functions m !! fst bb; llvm.fnBlocks d !! snd bb.

Definition blockInstrs (m : llvm.Module) (bb : llvm.BasicBlock) : list (nat * llvm.Instr) :=
  from_option llvm.instrs [] (blockAt m bb).

Definition numBlocks (m : llvm.Module) (fn : string) : nat :=
  from_option (fun d => length (llvm.fnBlocks d)) 0%nat (llvm.functions m !! fn).

(** Every [builder.Create...]: the instruction gets the next number and goes
    to the end of the block the builder points to. *)
Definition emit (i : llvm.Instr) (t : llvm.Type_) : M llvm.Value := fun c =>
  match llvm.insertBlock (builder c) with
  | None => Panic "builder: no insertion point"
  | Some bb =>
      match blockAt (mod_ c) bb with
      | None => Panic "builder: no such block"
      | Some _ =>
          let id := llvm.nextInst (builder c) in
          Ok (llvm.Inst id t,
              setBuilder (llvm.mkBuilder (Some bb) (S id))
                (setMod (appendInstr bb (id, i) (mod_ c)) c))
      end
  end.

(** [llvm.AddBasicBlock(fn, name)] and [ctx.AddBasicBlock(fn, name)]: the new
    block comes after the blocks the function has. *)
Definition AddBasicBlock (fn : string) (name : string) : M llvm.BasicBlock := fun c =>
  match llvm.functions (mod_ c) !! fn with
  | None => Panic "AddBasicBlock: no such function"
  | Some d =>
      Ok ((fn, length (llvm.fnBlocks d)),
          setMod (llvm.updateFunction (fun d =>
                    llvm.mkFunction (llvm.fnType d) (llvm.fnLinkage d) (llvm.fnUnnamedAddr d)
                      (llvm.fnBlocks d ++ [llvm.mkBlock name []])) fn (mod_ c)) c)
  end.

Definition GetInsertBlock : M llvm.BasicBlock := fun c =>
  match llvm.insertBlock (builder c) with
  | None => Panic "builder: no insertion point"
  | Some bb => Ok (bb, c)
  end.

Definition SetInsertPointAtEnd (bb : llvm.BasicBlock) : M unit :=
  modify (fun c => setBuilder (llvm.mkBuilder (Some bb) (llvm.nextInst (builder c))) c).

(** [sw.AddCase(v, block)] on the switch instruction numbered [id]. *)
Definition addCaseTo (id : nat) (v : llvm.Value) (bb : llvm.BasicBlock)
    (i : nat * llvm.Instr) : nat * llvm.Instr :=
  match i with
  | (id', llvm.Switch x d cases) =>
      if decide (id' = id) then (id', llvm.Switch x d (cases ++ [(v, bb)])) else i
  | _ => i
  end.

Definition AddCase (sw : llvm.Value) (v : llvm.Value) (bb : llvm.BasicBlock) : M unit :=
  match sw with
  | llvm.Inst id _ =>
      modifyMod (fun m =>
        llvm.mkModule (llvm.globals m)
          (fmap (fun d =>
             llvm.mkFunction (llvm.fnType d) (llvm.fnLinkage d) (llvm.fnUnnamedAddr d)
               (map (fun b => llvm.mkBlock (llvm.blockName b)
                                (map (addCaseTo id v bb) (llvm.instrs b)))
                    (llvm.fnBlocks d)))
             (llvm.functions m)))
  | _ => panic "AddCase: not a switch"
  end.

Section compiler.
Context `{Program}.

(** *** Helpers of the compiler that the code below calls

    These are defined in other files of the compiler; each is modelled by
    the one thing it does for its callers here. *)

(** [c.getLLVMRuntimeType(name)]: the LLVM type of the type [name] of the
    runtime package, a named struct. *)
Definition getLLVMRuntimeType (name : string) : llvm.Type_ :=
  llvm.NamedStructType ("runtime." +:+ name).

(** The fields of the struct types: [_interface] is [{typecode, value}],
    [_defer] is [{callback, next}], [funcValue] is [{context, id}]. *)
Definition structElementTypes (c : Compiler) (t : llvm.Type_) : list llvm.Type_ :=
  match t with
  | llvm.StructType es => es
  | llvm.NamedStructType n =>
      if decide (n = "runtime._interface") then [uintptrType c; i8ptrType c]
      else if decide (n = "runtime._defer") then
        [uintptrType c; llvm.PointerType (llvm.NamedStructType "runtime._defer") 0]
      else if decide (n = "runtime.funcValue") then [i8ptrType c; uintptrType c]
      else []
  | _ => []
  end.

Definition fieldType (c : Compiler) (t : llvm.Type_) (i : nat) : llvm.Type_ :=
  default llvm.VoidType (structElementTypes c t !! i).

(** [c.getZeroValue(t)] *)
Definition getZeroValue (t : llvm.Type_) : llvm.Value := llvm.ConstNull t.

Definition CreatePtrToInt (v : llvm.Value) (t : llvm.Type_) : M llvm.Value :=
  emit (llvm.PtrToInt v t) t.
Definition CreateIntToPtr (v : llvm.Value) (t : llvm.Type_) : M llvm.Value :=
  emit (llvm.IntToPtr v t) t.
Definition CreateBitCast (v : llvm.Value) (t : llvm.Type_) : M llvm.Value :=
  emit (llvm.BitCast v t) t.
Definition CreateInsertValue (agg v : llvm.Value) (i : nat) : M llvm.Value :=
  emit (llvm.InsertValue agg v i) (llvm.typeOf agg).
Definition CreateExtractValue (agg : llvm.Value) (i : nat) : M llvm.Value :=
  c ← get; emit (llvm.ExtractValue agg i) (fieldType c (llvm.typeOf agg) i).
Definition CreateLoad (ptr : llvm.Value) : M llvm.Value :=
  emit (llvm.Load ptr) (llvm.ElementType (llvm.typeOf ptr)).
Definition CreateStore (v ptr : llvm.Value) : M llvm.Value :=
  emit (llvm.Store v ptr) llvm.VoidType.
Definition CreateAlloca (t : llvm.Type_) : M llvm.Value :=
  emit (llvm.Alloca t) (llvm.PointerType t 0).
Definition CreateICmpEQ (a b : llvm.Value) : M llvm.Value :=
  emit (llvm.ICmpEQ a b) (llvm.IntType 1).
Definition CreateInBoundsGEP (ptr : llvm.Value) (indices : list llvm.Value) : M llvm.Value :=
  c ← get;
  emit (llvm.InBoundsGEP ptr indices)
    (match last indices with
     | Some (llvm.ConstInt _ i) =>
         llvm.PointerType (fieldType c (llvm.ElementType (llvm.typeOf ptr)) (Z.to_nat i)) 0
     | _ => llvm.typeOf ptr
     end).
Definition CreateCondBr (cond : llvm.Value) (thenBlock elseBlock : llvm.BasicBlock) : M llvm.Value :=
  emit (llvm.CondBr cond thenBlock elseBlock) llvm.VoidType.
Definition CreateBr (bb : llvm.BasicBlock) : M llvm.Value :=
  emit (llvm.Br bb) llvm.VoidType.
Definition CreateSwitch (v : llvm.Value) (default : llvm.BasicBlock) : M llvm.Value :=
  emit (llvm.Switch v default []) llvm.VoidType.
Definition CreateUnreachable : M llvm.Value :=
  emit llvm.Unreachable llvm.VoidType.
(** [builder.CreatePHI] followed by [phi.AddIncoming] *)
Definition CreatePHI (t : llvm.Type_) (incoming : list (llvm.Value * llvm.BasicBlock)) : M llvm.Value :=
  emit (llvm.PHI t incoming) t.
Definition CreateCall (fn : llvm.Value) (args : list llvm.Value) : M llvm.Value :=
  emit (llvm.Call fn args) (llvm.ReturnType (llvm.ElementType (llvm.typeOf fn))).
Definition CreateRet (v : llvm.Value) : M llvm.Value := emit (llvm.Ret v) llvm.VoidType.
Definition CreateRetVoid : M llvm.Value := emit llvm.RetVoid llvm.VoidType.

(** [c.createCall(fn, args, name)]: a call with the arguments as they are
    (the expansion of aggregate arguments is not modelled). *)
Definition createCall (fn : llvm.Value) (args : list llvm.Value) : M llvm.Value :=
  CreateCall fn args.

(** [c.createRuntimeCall(fnName, args, name)]: a call of the function
    [fnName] of the runtime package. *)
Definition createRuntimeCall (fnName : string) (args : list llvm.Value) : M llvm.Value :=
  c ← get;
  emit (llvm.RuntimeCall fnName args)
    (if decide (fnName = "typeAssert") then llvm.IntType 1
     else if decide (fnName = "interfaceImplements") then llvm.IntType 1
     else if decide (fnName = "interfaceTypeAssert") then llvm.VoidType
     else uintptrType c).

(** [c.emitPointerPack(values)]: packs the values in one pointer-sized
    slot, directly when they fit and in a heap allocation otherwise. *)
Definition emitPointerPack (values : list llvm.Value) : M llvm.Value :=
  c ← get; emit (llvm.PointerPack values) (i8ptrType c).

(** [c.emitPointerUnpack(ptr, valueTypes)]: the inverse of
    [emitPointerPack], one value for every type. *)
Definition emitPointerUnpack (ptr : llvm.Value) (valueTypes : list llvm.Type_) : M (list llvm.Value) :=
  packed ← emit (llvm.PointerUnpack ptr valueTypes) (llvm.StructType valueTypes);
  forM (indexed valueTypes) (fun it => emit (llvm.ExtractValue packed (fst it)) (snd it)).

(** [c.trackPointer(ptr)] *)
Definition trackPointer (ptr : llvm.Value) : M llvm.Value :=
  emit (llvm.TrackPointer ptr) llvm.VoidType.

(** [c.getFunction(f)]: the function of the module with the link name of
    [f], nil when there is none. *)
Definition getFunction (f : ssa.Function) : M (option llvm.Value) :=
  NamedFunction (linkName f).

(** [c.getValue(frame, v)]: the LLVM value the frame holds for an SSA
    value. *)
Definition getValue (frame : Frame) (v : ssa.Value) : M llvm.Value :=
  match locals frame !! ssa.ValueName v with
  | Some x => mret x
  | None => panic ("getValue: no value for " +:+ ssa.ValueName v)
  end.

(** [c.addError(pos, msg)] *)
Definition addError (pos : nat) (msg : string) : M unit :=
  modify (fun c => setDiagnostics (diagnostics c ++ [(pos, msg)]) c).

Definition zero32 : llvm.Value := llvm.ConstInt (llvm.IntType 32) 0.

(** *** compiler/interface.go *)

(** [getTypeCode] returns a reference to a type code: an external global
    that the interface lowering pass replaces. *)
Definition getTypeCode (typ : types.Type_) : M llvm.Value :=
  typeCodeName ← lift (getTypeCodeName typ);
  let globalName := "type:" +:+ typeCodeName in
  global ← NamedGlobal globalName;
  match global with
  | Some g => mret g
  | None =>
      g ← AddGlobal (getLLVMRuntimeType "typecodeID") globalName;
      modifyMod (llvm.SetGlobalConstant g true);;
      mret g
  end.

(** [getMethodSignature] returns the global that stands for the signature
    of a method. *)
Definition getMethodSignature (method : types.Func) : M llvm.Value :=
  let signature := MethodSignature method in
  signatureGlobal ← NamedGlobal ("func " +:+ signature);
  match signatureGlobal with
  | Some g => mret g
  | None =>
      g ← AddGlobal (llvm.IntType 8) ("func " +:+ signature);
      modifyMod (llvm.SetGlobalConstant g true);;
      mret g
  end.

(** Wraps an interface method function pointer; the wrapper is only needed
    when the receiver does not fit in a pointer. *)
Definition getInterfaceInvokeWrapper (f : ssa.Function) : M llvm.Value :=
  let wrapperName := linkName f +:+ "$invoke" in
  existing ← NamedFunction wrapperName;
  match existing with
  | Some w => mret w
  | None =>
      match ssa.Params f with
      | [] => panic "index out of range"
      | recv :: _ =>
          let receiverType := getLLVMType (snd recv) in
          let expandedReceiverType := expandFormalParamType receiverType in
          llvmFn ← getFunction f;
          match llvmFn with
          | None => panic "getFunction: nil function"
          | Some fn =>
              if bool_decide (length expandedReceiverType = 1)
                 && llvm.isPointerTypeKind receiverType
              then mret fn
              else
                c ← get;
                let fnType := llvm.ElementType (llvm.typeOf fn) in
                let paramTypes :=
                  i8ptrType c :: drop (length expandedReceiverType) (llvm.ParamTypes fnType) in
                let wrapFnType := llvm.FunctionType (llvm.ReturnType fnType) paramTypes false in
                w ← AddFunction wrapperName wrapFnType;
                modify (fun c => setWrappers
                  (interfaceInvokeWrappers c ++ [mkWrapper f w receiverType]) c);;
                mret w
          end
      end
  end.

(** The body of the loop of [getTypeMethodSet]: the entry of the method set
    for one method of the type. *)
Definition methodInfo (method : types.Func * ssa.Function) : M llvm.Value :=
  signatureGlobal ← getMethodSignature (fst method);
  let f := snd method in
  llvmFn ← getFunction f;
  match llvmFn with
  | None => panic ("cannot find function: " +:+ linkName f)
  | Some _ =>
      fn ← getInterfaceInvokeWrapper f;
      c ← get;
      mret (llvm.ConstNamedStruct (getLLVMRuntimeType "interfaceMethodInfo")
              [signatureGlobal; llvm.ConstPtrToInt fn (uintptrType c)])
  end.

(** [getTypeMethodSet] returns a reference to the method set of a type. *)
Definition getTypeMethodSet (typ : types.Type_) : M llvm.Value :=
  global ← NamedGlobal (types.String_ typ +:+ "$methodset");
  match global with
  | Some g => mret (llvm.ConstGEP g [zero32; zero32])
  | None =>
      let ms := MethodSet typ in
      let interfaceMethodInfoType := getLLVMRuntimeType "interfaceMethodInfo" in
      if bool_decide (length ms = 0) then
        mret (llvm.ConstPointerNull (llvm.PointerType interfaceMethodInfoType 0))
      else
        methods ← forM ms methodInfo;
        let arrayType := llvm.ArrayType interfaceMethodInfoType (length methods) in
        let value := llvm.ConstArray interfaceMethodInfoType methods in
        g ← AddGlobal arrayType (types.String_ typ +:+ "$methodset");
        modifyMod (llvm.SetInitializer g value);;
        modifyMod (llvm.SetGlobalConstant g true);;
        modifyMod (llvm.SetLinkage g llvm.PrivateLinkage);;
        mret (llvm.ConstGEP g [zero32; zero32])
  end.

(** The method [name] of the interface type [typ], as a [types.Func]. *)
Definition interfaceMethod (typ : types.Type_) (m : string * types.Type_) : types.Func :=
  types.mkFunc ("(" +:+ types.String_ typ +:+ ")." +:+ fst m) (snd m).

(** [getInterfaceMethodSet] returns a global with the method set of a
    named interface type. *)
Definition getInterfaceMethodSet (typ : types.Type_) : M llvm.Value :=
  global ← NamedGlobal (types.String_ typ +:+ "$interface");
  match global with
  | Some g => mret (llvm.ConstGEP g [zero32; zero32])
  | None =>
      match types.Underlying typ with
      | types.Interface ms =>
          methods ← forM ms (fun m => getMethodSignature (interfaceMethod typ m));
          match methods with
          | [] => panic "index out of range"
          | m0 :: _ =>
              let value := llvm.ConstArray (llvm.typeOf m0) methods in
              g ← AddGlobal (llvm.typeOf value) (types.String_ typ +:+ "$interface");
              modifyMod (llvm.SetInitializer g value);;
              modifyMod (llvm.SetGlobalConstant g true);;
              modifyMod (llvm.SetLinkage g llvm.PrivateLinkage);;
              mret (llvm.ConstGEP g [zero32; zero32])
          end
      | _ => panic "interface conversion: types.Type is not *types.Interface"
      end
  end.

(** [parseMakeInterface] emits the IR for [*ssa.MakeInterface]: an
    interface value is a [{typecode, value}] pair. *)
Definition parseMakeInterface (val : llvm.Value) (typ : types.Type_) (pos : nat) : M llvm.Value :=
  itfValue ← emitPointerPack [val];
  itfTypeCodeGlobal ← getTypeCode typ;
  itfMethodSetGlobal ← getTypeMethodSet typ;
  found ← NamedGlobal ("typeInInterface:" +:+ llvm.Name itfTypeCodeGlobal);
  itfConcreteTypeGlobal ←
    match found with
    | Some g => mret g
    | None =>
        let typeInInterface := getLLVMRuntimeType "typeInInterface" in
        g ← AddGlobal typeInInterface ("typeInInterface:" +:+ llvm.Name itfTypeCodeGlobal);
        modifyMod (llvm.SetInitializer g
          (llvm.ConstNamedStruct typeInInterface [itfTypeCodeGlobal; itfMethodSetGlobal]));;
        modifyMod (llvm.SetGlobalConstant g true);;
        modifyMod (llvm.SetLinkage g llvm.PrivateLinkage);;
        mret g
    end;
  c ← get;
  itfTypeCode ← CreatePtrToInt itfConcreteTypeGlobal (uintptrType c);
  let itf := llvm.Undef (getLLVMRuntimeType "_interface") in
  itf ← CreateInsertValue itf itfTypeCode 0;
  itf ← CreateInsertValue itf itfValue 1;
  mret itf.

(** *** compiler/func.go *)

Inductive funcValueImplementation : Type :=
| funcValueNone
| funcValueDoubleword
| funcValueSwitch.

(** [funcImplementation] picks a func value implementation for the
    target. *)
Definition funcImplementation (c : Compiler) : funcValueImplementation :=
  if bool_decide (GOARCH c = "wasm") || true then funcValueSwitch
  else funcValueDoubleword.

(** [getRawFuncType] returns the LLVM function pointer type of a
    signature. *)
Definition getRawFuncType (c : Compiler) (typ : types.Sig) : llvm.Type_ :=
  let returnType :=
    match types.Results typ with
    | [] => llvm.VoidType
    | [r] => getLLVMType r
    | rs => llvm.StructType (map getLLVMType rs)
    end in
  let paramTypes : list llvm.Type_ := [] in
  let paramTypes :=
    match types.Recv typ with
    | Some r =>
        let recv := getLLVMType r in
        let recv :=
          if decide (llvm.StructName recv = "runtime._interface") then i8ptrType c
          else recv in
        paramTypes ++ expandFormalParamType recv
    | None => paramTypes
    end in
  let paramTypes :=
    fold_left (fun acc p => acc ++ expandFormalParamType (getLLVMType p))
              (types.Params typ) paramTypes in
  let paramTypes := paramTypes ++ [i8ptrType c] in
  let paramTypes := paramTypes ++ [i8ptrType c] in
  llvm.PointerType (llvm.FunctionType returnType paramTypes false) (funcPtrAddrSpace c).

(** [getFuncType] returns the type of a func value. *)
Definition getFuncType (c : Compiler) (typ : types.Sig) : result llvm.Type_ :=
  match funcImplementation c with
  | funcValueDoubleword =>
      Ok (llvm.StructType [i8ptrType c; getRawFuncType c typ])
  | funcValueSwitch => Ok (getLLVMRuntimeType "funcValue")
  | funcValueNone => Panic "unimplemented func value variant"
  end.

(** [getFuncSignature] returns the global that identifies a function
    signature. *)
Definition getFuncSignature (sig : types.Sig) : M llvm.Value :=
  typeCodeName ← lift (getTypeCodeName (types.SigType sig));
  let sigGlobalName := "reflect/types.type:" +:+ typeCodeName in
  sigGlobal ← NamedGlobal sigGlobalName;
  match sigGlobal with
  | Some g => mret g
  | None =>
      g ← AddGlobal (llvm.IntType 8) sigGlobalName;
      modifyMod (llvm.SetInitializer g (llvm.Undef (llvm.IntType 8)));;
      modifyMod (llvm.SetGlobalConstant g true);;
      modifyMod (llvm.SetLinkage g llvm.InternalLinkage);;
      mret g
  end.

(** [createFuncValue] creates a function value from a raw function pointer
    and a context. *)
Definition createFuncValue (funcPtr context : llvm.Value) (sig : types.Sig) : M llvm.Value :=
  c ← get;
  funcValueScalar ←
    match funcImplementation c with
    | funcValueDoubleword => mret funcPtr
    | funcValueSwitch =>
        sigGlobal ← getFuncSignature sig;
        let funcValueWithSignatureGlobalName := llvm.Name funcPtr +:+ "$withSignature" in
        found ← NamedGlobal funcValueWithSignatureGlobalName;
        g ←
          match found with
          | Some g => mret g
          | None =>
              let funcValueWithSignatureType := getLLVMRuntimeType "funcValueWithSignature" in
              let funcValueWithSignature :=
                llvm.ConstNamedStruct funcValueWithSignatureType
                  [llvm.ConstPtrToInt funcPtr (uintptrType c); sigGlobal] in
              g ← AddGlobal funcValueWithSignatureType funcValueWithSignatureGlobalName;
              modifyMod (llvm.SetInitializer g funcValueWithSignature);;
              modifyMod (llvm.SetGlobalConstant g true);;
              modifyMod (llvm.SetLinkage g llvm.InternalLinkage);;
              mret g
          end;
        mret (llvm.ConstPtrToInt g (uintptrType c))
    | funcValueNone => panic "unimplemented func value variant"
    end;
  funcValueType ← lift (getFuncType c sig);
  let funcValue := llvm.Undef funcValueType in
  funcValue ← CreateInsertValue funcValue context 0;
  funcValue ← CreateInsertValue funcValue funcValueScalar 1;
  mret funcValue.

(** [extractFuncScalar] and [extractFuncContext] *)
Definition extractFuncScalar (funcValue : llvm.Value) : M llvm.Value :=
  CreateExtractValue funcValue 1.
Definition extractFuncContext (funcValue : llvm.Value) : M llvm.Value :=
  CreateExtractValue funcValue 0.

(** [decodeFuncValue] extracts the context and the function pointer from a
    func value; it returns [(funcPtr, context)]. *)
Definition decodeFuncValue (funcValue : llvm.Value) (sig : types.Sig) : M (llvm.Value * llvm.Value) :=
  context ← CreateExtractValue funcValue 0;
  c ← get;
  funcPtr ←
    match funcImplementation c with
    | funcValueDoubleword => CreateExtractValue funcValue 1
    | funcValueSwitch =>
        let llvmSig := getRawFuncType c sig in
        sigGlobal ← getFuncSignature sig;
        funcPtr ← createRuntimeCall "getFuncPtr" [funcValue; sigGlobal];
        CreateIntToPtr funcPtr llvmSig
    | funcValueNone => panic "unimplemented func value variant"
    end;
  mret (funcPtr, context).

(** [parseMakeClosure] makes a function value (with context) from a
    closure expression [MakeClosure Fn Bindings].  The error the Go
    function returns next to the value is always nil. *)
Definition parseMakeClosure (frame : Frame) (Fn : ssa.Function) (Bindings : list ssa.Value) : M llvm.Value :=
  if bool_decide (length Bindings = 0) then
    panic "unexpected: MakeClosure without bound variables"
  else
    LLVMFn ← getFunction Fn;
    match LLVMFn with
    | None => panic "nil function"
    | Some fn =>
        boundVars ← forM Bindings (fun binding => getValue frame binding);
        context ← emitPointerPack boundVars;
        createFuncValue fn context (ssa.Signature Fn)
    end.

(** *** compiler/interface.go, continued *)

Definition setBlockExit (bb : llvm.BasicBlock) (frame : Frame) : Frame :=
  mkFrame (llvmFn frame) (locals frame) (currentBlock frame)
          (<[currentBlock frame := bb]> (blockExits frame)) (deferPtr frame)
          (deferFuncs frame) (deferInvokeFuncs frame) (deferClosureFuncs frame)
          (allDeferFuncs frame).

(** [parseTypeAssert] emits the code for a type assert. *)
Definition parseTypeAssert (frame : Frame) (expr : ssa.TypeAssert) : M (llvm.Value * Frame) :=
  itf ← getValue frame (ssa.X expr);
  let assertedType := getLLVMType (ssa.AssertedType expr) in
  actualTypeNum ← CreateExtractValue itf 0;
  commaOk ←
    (if types.isInterface (types.Underlying (ssa.AssertedType expr)) then
       (* Type assert on interface type. *)
       if types.isNamed (ssa.AssertedType expr) then
         methodSet ← getInterfaceMethodSet (ssa.AssertedType expr);
         createRuntimeCall "interfaceImplements" [actualTypeNum; methodSet]
       else panic "interface conversion: types.Type is not *types.Named"
     else
       (* Type assert on concrete type. *)
       assertedTypeCodeGlobal ← getTypeCode (ssa.AssertedType expr);
       createRuntimeCall "typeAssert" [actualTypeNum; assertedTypeCodeGlobal]);
  (* Two new basic blocks: one for the 'ok' case and one for all
     instructions following this type assert. *)
  prevBlock ← GetInsertBlock;
  okBlock ← AddBasicBlock (llvmFn frame) "typeassert.ok";
  nextBlock ← AddBasicBlock (llvmFn frame) "typeassert.next";
  let frame := setBlockExit nextBlock frame in
  CreateCondBr commaOk okBlock nextBlock;;
  (* Retrieve the value from the interface if the type assert was
     successful. *)
  SetInsertPointAtEnd okBlock;;
  valueOk ←
    (if types.isInterface (types.Underlying (ssa.AssertedType expr)) then
       mret itf
     else
       valuePtr ← CreateExtractValue itf 1;
       unpacked ← emitPointerUnpack valuePtr [assertedType];
       match unpacked with
       | v :: _ => mret v
       | [] => panic "index out of range"
       end);
  CreateBr nextBlock;;
  (* Continue after the if statement. *)
  SetInsertPointAtEnd nextBlock;;
  phi ← CreatePHI assertedType [(getZeroValue assertedType, prevBlock); (valueOk, okBlock)];
  if ssa.CommaOk expr then
    let tuple := llvm.ConstStruct [llvm.Undef assertedType; llvm.Undef (llvm.IntType 1)] in
    tuple ← CreateInsertValue tuple phi 0;
    tuple ← CreateInsertValue tuple commaOk 1;
    mret (tuple, frame)
  else
    createRuntimeCall "interfaceTypeAssert" [commaOk];;
    mret (phi, frame).

(** [getInvokeCall] creates the function pointer and the parameters of an
    interface call; it is used in a call or defer instruction. *)
Definition getInvokeCall (frame : Frame) (instr : ssa.CallCommon) : M (llvm.Value * list llvm.Value) :=
  itf ← getValue frame (ssa.CallValue instr);
  match ssa.Method instr with
  | None => panic "nil pointer dereference"
  | Some method =>
      match types.asSignature (types.FuncType method) with
      | None => panic "interface conversion: types.Type is not *types.Signature"
      | Some sig =>
          c ← get;
          let llvmFnType := getRawFuncType c sig in
          typecode ← CreateExtractValue itf 0;
          if types.isNamed (ssa.ValueType (ssa.CallValue instr)) then
            methodSet ← getInterfaceMethodSet (ssa.ValueType (ssa.CallValue instr));
            signature ← getMethodSignature method;
            fn ← createRuntimeCall "interfaceMethod" [typecode; methodSet; signature];
            fnCast ← CreateIntToPtr fn llvmFnType;
            receiverValue ← CreateExtractValue itf 1;
            args ← forM (ssa.Args instr) (fun arg => getValue frame arg);
            (* the context parameter and the parent goroutine handle *)
            mret (fnCast, [receiverValue] ++ args ++ [llvm.Undef (i8ptrType c)]
                            ++ [llvm.Undef (i8ptrType c)])
          else panic "interface conversion: types.Type is not *types.Named"
      end
  end.

(** [c.expandFormalParam(v)]: the leaves of a value that is passed as
    several parameters. *)
Definition expandFormalParam (v : llvm.Value) : M (list llvm.Value) :=
  match expandFormalParamType (llvm.typeOf v) with
  | [_] => mret [v]
  | leaves => forM (indexed leaves) (fun it => emit (llvm.ExtractValue v (fst it)) (snd it))
  end.

(** [wrapper.Params()] *)
Definition ParamsOf (fn : llvm.Value) : list llvm.Value :=
  map (fun it => llvm.Param (llvm.Name fn) (fst it) (snd it))
      (indexed (llvm.ParamTypes (llvm.ElementType (llvm.typeOf fn)))).

(** [createInterfaceInvokeWrapper] finishes the work of
    [getInterfaceInvokeWrapper] (the debug information is not modelled). *)
Definition createInterfaceInvokeWrapper (state : interfaceInvokeWrapper) : M unit :=
  let wrapper := wrapper state in
  let fn := wrapperFn state in
  let receiverType := receiverType state in
  modifyMod (llvm.SetFunctionLinkage wrapper llvm.InternalLinkage);;
  modifyMod (llvm.SetUnnamedAddr wrapper true);;
  block ← AddBasicBlock (llvm.Name wrapper) "entry";
  SetInsertPointAtEnd block;;
  match ParamsOf wrapper with
  | [] => panic "index out of range"
  | param0 :: rest =>
      unpacked ← emitPointerUnpack param0 [receiverType];
      match unpacked with
      | [] => panic "index out of range"
      | receiverValue :: _ =>
          expanded ← expandFormalParam receiverValue;
          let params := expanded ++ rest in
          llvmFn ← getFunction fn;
          match llvmFn with
          | None => panic "nil function"
          | Some f =>
              if llvm.isVoidTypeKind (llvm.ReturnType (llvm.ElementType (llvm.typeOf f))) then
                CreateCall f params;;
                CreateRetVoid;;
                mret tt
              else
                ret ← CreateCall f params;
                CreateRet ret;;
                mret tt
          end
      end
  end.

(** *** compiler/defer.go *)

Definition deferType : llvm.Type_ := llvm.PointerType (getLLVMRuntimeType "_defer") 0.

(** [deferInitFunc] sets up the function for deferred calls: fresh maps
    and, in the entry block, the pointer to the list of defer frames,
    initially null. *)
Definition deferInitFunc (frame : Frame) : M Frame :=
  ptr ← CreateAlloca deferType;
  CreateStore (llvm.ConstPointerNull deferType) ptr;;
  mret (mkFrame (llvmFn frame) (locals frame) (currentBlock frame) (blockExits frame)
                (Some ptr) ∅ ∅ ∅ (allDeferFuncs frame)).

Definition setDeferInvoke (key : string) (call : ssa.CallCommon) (frame : Frame) : Frame :=
  mkFrame (llvmFn frame) (locals frame) (currentBlock frame) (blockExits frame)
          (deferPtr frame) (deferFuncs frame)
          (<[key := length (allDeferFuncs frame)]> (deferInvokeFuncs frame))
          (deferClosureFuncs frame)
          (allDeferFuncs frame ++ [InvokeCallback call]).

Definition setDeferFunc (callee : ssa.Function) (frame : Frame) : Frame :=
  mkFrame (llvmFn frame) (locals frame) (currentBlock frame) (blockExits frame)
          (deferPtr frame)
          (<[ssa.Name callee := length (allDeferFuncs frame)]> (deferFuncs frame))
          (deferInvokeFuncs frame) (deferClosureFuncs frame)
          (allDeferFuncs frame ++ [FunctionCallback callee]).

Definition setDeferClosure (fn : ssa.Function) (bindings : list ssa.Value) (frame : Frame) : Frame :=
  mkFrame (llvmFn frame) (locals frame) (currentBlock frame) (blockExits frame)
          (deferPtr frame) (deferFuncs frame) (deferInvokeFuncs frame)
          (<[ssa.Name fn := length (allDeferFuncs frame)]> (deferClosureFuncs frame))
          (allDeferFuncs frame ++ [ClosureCallback fn bindings]).

(** The index a Go map gives for a key ([0] when the key is missing). *)
Definition index (m : gmap string nat) (key : string) : Z :=
  Z.of_nat (default 0%nat (m !! key)).

(** [emitDefer] emits a single defer instruction, to be run when the
    function returns. *)
Definition emitDefer (frame : Frame) (instr : ssa.Defer) : M Frame :=
  match deferPtr frame with
  | None => panic "nil deferPtr"
  | Some deferPtr =>
      (* The pointer to the previous defer struct. *)
      next ← CreateLoad deferPtr;
      c ← get;
      let valueTypes := [uintptrType c; llvm.typeOf next] in
      let call := ssa.Call instr in
      collected ←
        match ssa.Method call with
        | Some method =>
            (* Method call on an interface. *)
            let methodName := types.FullName method in
            let frame :=
              match deferInvokeFuncs frame !! methodName with
              | Some _ => frame
              | None => setDeferInvoke methodName call frame
              end in
            let callback :=
              llvm.ConstInt (uintptrType c) (index (deferInvokeFuncs frame) methodName) in
            itf ← getValue frame (ssa.CallValue call);
            receiverValue ← CreateExtractValue itf 1;
            args ← forM (ssa.Args call) (fun arg => getValue frame arg);
            mret (Some (frame, [callback; next; receiverValue] ++ args,
                        valueTypes ++ [i8ptrType c] ++ map llvm.typeOf args))
        | None =>
            match ssa.CallValue call with
            | ssa.Func callee =>
                (* Regular function call. *)
                let frame :=
                  match deferFuncs frame !! ssa.Name callee with
                  | Some _ => frame
                  | None => setDeferFunc callee frame
                  end in
                let callback :=
                  llvm.ConstInt (uintptrType c) (index (deferFuncs frame) (ssa.Name callee)) in
                params ← forM (ssa.Args call) (fun param => getValue frame param);
                mret (Some (frame, [callback; next] ++ params,
                            valueTypes ++ map llvm.typeOf params))
            | ssa.MakeClosure _ fn bindings =>
                (* Immediately applied function literal with free
                   variables: only the context of the closure is kept. *)
                closure ← getValue frame (ssa.CallValue call);
                context ← CreateExtractValue closure 0;
                let frame :=
                  match deferClosureFuncs frame !! ssa.Name fn with
                  | Some _ => frame
                  | None => setDeferClosure fn bindings frame
                  end in
                let callback :=
                  llvm.ConstInt (uintptrType c) (index (deferClosureFuncs frame) (ssa.Name fn)) in
                params ← forM (ssa.Args call) (fun param => getValue frame param);
                mret (Some (frame, [callback; next] ++ params ++ [context],
                            valueTypes ++ map llvm.typeOf params ++ [llvm.typeOf context]))
            | _ =>
                addError (ssa.DeferPos instr) "todo: defer on uncommon function call type";;
                mret None
            end
        end;
      match collected with
      | None => mret frame
      | Some (frame, values, valueTypes) =>
          (* Make a struct out of the collected values to put in the defer
             frame. *)
          let deferFrameType := llvm.StructType valueTypes in
          deferFrame ← foldM (fun deferFrame iv => CreateInsertValue deferFrame (snd iv) (fst iv))
                             (indexed values) (getZeroValue deferFrameType);
          (* Put this struct in an alloca. *)
          alloca ← CreateAlloca deferFrameType;
          CreateStore deferFrame alloca;;
          (if stackObjects c then trackPointer alloca;; mret tt else mret tt);;
          (* Push it on top of the linked list by replacing deferPtr. *)
          allocaCast ← CreateBitCast alloca (llvm.typeOf next);
          CreateStore allocaCast deferPtr;;
          mret frame
      end
  end.

Definition const32 (n : nat) : llvm.Value := llvm.ConstInt (llvm.IntType 32) (Z.of_nat n).

(** The fields [from .. from + count - 1] of a defer frame are loaded in
    order. *)
Definition loadFields (deferFramePtr : llvm.Value) (from count : nat) : M (list llvm.Value) :=
  forM (seq from count) (fun i =>
    gep ← CreateInBoundsGEP deferFramePtr [zero32; const32 i];
    CreateLoad gep).

(** One case of the switch of [emitRunDefers]. *)
Definition emitRunDefersCase (frame : Frame) (deferData : llvm.Value) (callback : DeferCallback) : M unit :=
  c ← get;
  match callback with
  | InvokeCallback callback =>
      (* Call on an interface value. *)
      if negb (ssa.IsInvoke callback) then
        panic "expected an invoke call, not a direct call"
      else
        (* Get the real defer struct type and cast to it. *)
        let valueTypes :=
          [uintptrType c; deferType; i8ptrType c]
          ++ map (fun arg => getLLVMType (ssa.ValueType arg)) (ssa.Args callback) in
        let deferFrameType := llvm.StructType valueTypes in
        deferFramePtr ← CreateBitCast deferData (llvm.PointerType deferFrameType 0);
        (* Extract the params from the struct (including receiver). *)
        forwardParams ← loadFields deferFramePtr 2 (length valueTypes - 2);
        (* The context parameter and the parent coroutine handle. *)
        let forwardParams := forwardParams ++ [llvm.Undef (i8ptrType c)] in
        let forwardParams := forwardParams ++ [llvm.Undef (i8ptrType c)] in
        invoke ← getInvokeCall frame callback;
        createCall (fst invoke) forwardParams;;
        mret tt
  | FunctionCallback callback =>
      (* Direct call. *)
      let valueTypes :=
        [uintptrType c; deferType]
        ++ map (fun param => getLLVMType (snd param)) (ssa.Params callback) in
      let deferFrameType := llvm.StructType valueTypes in
      deferFramePtr ← CreateBitCast deferData (llvm.PointerType deferFrameType 0);
      (* Extract the params from the struct. *)
      forwardParams ← loadFields deferFramePtr 2 (length (ssa.Params callback));
      (* The context parameter and the parent coroutine handle. *)
      let forwardParams := forwardParams ++ [llvm.Undef (i8ptrType c)] in
      let forwardParams := forwardParams ++ [llvm.Undef (i8ptrType c)] in
      (* Call real function. *)
      llvmFn ← getFunction callback;
      match llvmFn with
      | None => panic "nil function"
      | Some fn => createCall fn forwardParams;; mret tt
      end
  | ClosureCallback fn _ =>
      let params := types.Params (ssa.Signature fn) in
      let valueTypes :=
        [uintptrType c; deferType] ++ map getLLVMType params ++ [i8ptrType c] in
      let deferFrameType := llvm.StructType valueTypes in
      deferFramePtr ← CreateBitCast deferData (llvm.PointerType deferFrameType 0);
      (* Extract the params from the struct. *)
      forwardParams ← loadFields deferFramePtr 2 (length valueTypes - 2);
      (* Parent coroutine handle. *)
      let forwardParams := forwardParams ++ [llvm.Undef (i8ptrType c)] in
      (* Call deferred function. *)
      llvmFn ← getFunction fn;
      match llvmFn with
      | None => panic "nil function"
      | Some f => createCall f forwardParams;; mret tt
      end
  end.

(** [emitRunDefers] emits code to run all deferred functions. *)
Definition emitRunDefers (frame : Frame) : M unit :=
  match deferPtr frame with
  | None => panic "nil deferPtr"
  | Some deferPtr =>
      c ← get;
      (* Create loop. *)
      loophead ← AddBasicBlock (llvmFn frame) "rundefers.loophead";
      loop ← AddBasicBlock (llvmFn frame) "rundefers.loop";
      unreachable ← AddBasicBlock (llvmFn frame) "rundefers.default";
      end_ ← AddBasicBlock (llvmFn frame) "rundefers.end";
      CreateBr loophead;;
      (* Create loop head: for stack != nil *)
      SetInsertPointAtEnd loophead;;
      deferData ← CreateLoad deferPtr;
      stackIsNil ← CreateICmpEQ deferData (llvm.ConstPointerNull (llvm.typeOf deferData));
      CreateCondBr stackIsNil end_ loop;;
      (* Create loop body: stack = stack.next; switch stack.callback *)
      SetInsertPointAtEnd loop;;
      nextStackGEP ← CreateInBoundsGEP deferData [zero32; const32 1];
      nextStack ← CreateLoad nextStackGEP;
      CreateStore nextStack deferPtr;;
      gep ← CreateInBoundsGEP deferData [zero32; const32 0];
      callback ← CreateLoad gep;
      sw ← CreateSwitch callback unreachable;
      forM (indexed (allDeferFuncs frame)) (fun ic =>
        (* Create switch case. *)
        block ← AddBasicBlock (llvmFn frame) "rundefers.callback";
        AddCase sw (llvm.ConstInt (uintptrType c) (Z.of_nat (fst ic))) block;;
        SetInsertPointAtEnd block;;
        emitRunDefersCase frame deferData (snd ic);;
        (* Branch back to the start of the loop. *)
        CreateBr loophead);;
      (* Create default unreachable block. *)
      SetInsertPointAtEnd unreachable;;
      CreateUnreachable;;
      (* End of loop. *)
      SetInsertPointAtEnd end_
  end.

End compiler.

(** ** Running the emitted instructions

    A small interpreter for the instructions above.  Memory is a list of
    cells, one for every executed [alloca]; a pointer is a cell and a path of
    field indices into the value the cell holds.  The calls of runtime
    functions that the lowering pass replaces are answered by a function
    [rt] that the interpreter takes as a parameter. *)

Module exec.

Inductive RValue : Type :=
| RInt (n : Z)
| RNull
| RUndef
| RZero (t : llvm.Type_)
| RGlobal (name : string)
| RFunction (name : string)
| RPtr (cell : nat) (path : list nat)
| RStruct (fields : list RValue)
| RPacked (vals : list RValue)
| RRuntime (fnName : string) (args : list RValue)
| RPoison.

(** The zero value of a type. *)
Fixpoint zero (t : llvm.Type_) : RValue :=
  match t with
  | llvm.IntType _ => RInt 0
  | llvm.PointerType _ _ => RNull
  | llvm.StructType es => RStruct (map zero es)
  | t => RZero t
  end.

Record State : Type := mkState {
  env : gmap nat RValue;
  mem : list RValue;
  block : llvm.BasicBlock;
  pc : nat;
  prev : llvm.BasicBlock;
  (** the calls made so far, oldest first: the callee and the arguments *)
  calls : list (RValue * list RValue);
  (** the instructions executed so far, oldest first *)
  executed : list llvm.Instr
}.

Section interpreter.
Variable rt : string -> list RValue -> RValue.
Variable params : list RValue.

Fixpoint eval (env : gmap nat RValue) (v : llvm.Value) : RValue :=
  match v with
  | llvm.ConstInt _ n => RInt n
  | llvm.ConstPointerNull _ => RNull
  | llvm.ConstNull t => zero t
  | llvm.Undef _ => RUndef
  | llvm.ConstNamedStruct _ vals | llvm.ConstStruct vals | llvm.ConstArray _ vals =>
      RStruct (map (eval env) vals)
  | llvm.ConstPtrToInt v _ => eval env v
  | llvm.ConstGEP v _ => eval env v
  | llvm.Global n _ => RGlobal n
  | llvm.Function n _ => RFunction n
  | llvm.Param _ i _ => default RPoison (params !! i)
  | llvm.Inst id _ => default RPoison (env !! id)
  end.

(** [insertvalue]: an undefined aggregate has as many undefined fields
    as needed. *)
Definition insertField (agg : RValue) (i : nat) (v : RValue) : RValue :=
  match agg with
  | RStruct fs => RStruct (<[i := v]> (fs ++ replicate (S i - length fs) RUndef))
  | _ => RStruct (<[i := v]> (replicate (S i) RUndef))
  end.

Definition extractField (agg : RValue) (i : nat) : RValue :=
  match agg with
  | RStruct fs => default RPoison (fs !! i)
  | _ => RPoison
  end.

Fixpoint readPath (v : RValue) (path : list nat) : RValue :=
  match path with
  | [] => v
  | i :: rest => readPath (extractField v i) rest
  end.

Fixpoint writePath (old : RValue) (path : list nat) (v : RValue) : RValue :=
  match path with
  | [] => v
  | i :: rest => insertField old i (writePath (extractField old i) rest v)
  end.

(** The field path of a [getelementptr] with constant indices, after the
    leading index [0]. *)
Definition gepPath (indices : list llvm.Value) : option (list nat) :=
  match indices with
  | llvm.ConstInt _ 0 :: rest =>
      mapM (fun i => match i with
                     | llvm.ConstInt _ n => Some (Z.to_nat n)
                     | _ => None
                     end) rest
  | _ => None
  end.

Definition icmpEQ (a b : RValue) : option bool :=
  match a, b with
  | RInt n, RInt m => Some (bool_decide (n = m))
  | RNull, RNull => Some true
  | RNull, RPtr _ _ | RPtr _ _, RNull => Some false
  | RPtr c p, RPtr c' p' => Some (bool_decide (c = c' ∧ p = p'))
  | _, _ => None
  end.

Inductive Outcome : Type :=
| Next (s : State)
| Returned (v : option RValue) (s : State)
| Fault (msg : string) (s : State).

Definition setReg (id : nat) (v : RValue) (i : llvm.Instr) (s : State) : State :=
  mkState (<[id := v]> (env s)) (mem s) (block s) (S (pc s)) (prev s)
          (calls s) (executed s ++ [i]).

Definition setMem (id : nat) (v : RValue) (m : list RValue) (i : llvm.Instr) (s : State) : State :=
  mkState (<[id := v]> (env s)) m (block s) (S (pc s)) (prev s)
          (calls s) (executed s ++ [i]).

Definition jump (target : llvm.BasicBlock) (i : llvm.Instr) (s : State) : State :=
  mkState (env s) (mem s) target 0 (block s) (calls s) (executed s ++ [i]).

Definition logged (i : llvm.Instr) (s : State) : State :=
  mkState (env s) (mem s) (block s) (pc s) (prev s) (calls s) (executed s ++ [i]).

(** One instruction, numbered [id]. *)
Definition execInstr (id : nat) (i : llvm.Instr) (s : State) : Outcome :=
  let ev := eval (env s) in
  match i with
  | llvm.PtrToInt v _ | llvm.IntToPtr v _ | llvm.BitCast v _ =>
      Next (setReg id (ev v) i s)
  | llvm.InsertValue agg v k => Next (setReg id (insertField (ev agg) k (ev v)) i s)
  | llvm.ExtractValue agg k => Next (setReg id (extractField (ev agg) k) i s)
  | llvm.Load ptr =>
      match ev ptr with
      | RPtr cell path =>
          match mem s !! cell with
          | Some v => Next (setReg id (readPath v path) i s)
          | None => Fault "load: no such cell" s
          end
      | _ => Fault "load: not a pointer" s
      end
  | llvm.Store v ptr =>
      match ev ptr with
      | RPtr cell path =>
          match mem s !! cell with
          | Some old => Next (setMem id RUndef (<[cell := writePath old path (ev v)]> (mem s)) i s)
          | None => Fault "store: no such cell" s
          end
      | _ => Fault "store: not a pointer" s
      end
  | llvm.Alloca _ =>
      Next (setMem id (RPtr (length (mem s)) []) (mem s ++ [RUndef]) i s)
  | llvm.ICmpEQ a b =>
      match icmpEQ (ev a) (ev b) with
      | Some r => Next (setReg id (RInt (if r then 1 else 0)) i s)
      | None => Fault "icmp: operands cannot be compared" s
      end
  | llvm.InBoundsGEP ptr indices =>
      match ev ptr, gepPath indices with
      | RPtr cell path, Some fields => Next (setReg id (RPtr cell (path ++ fields)) i s)
      | _, _ => Fault "getelementptr" s
      end
  | llvm.Call fn args =>
      Next (mkState (<[id := RUndef]> (env s)) (mem s) (block s) (S (pc s)) (prev s)
                    (calls s ++ [(ev fn, map ev args)]) (executed s ++ [i]))
  | llvm.RuntimeCall fnName args =>
      Next (setReg id (rt fnName (map ev args)) i s)
  | llvm.PHI _ incoming =>
      match list_find (fun vb => snd vb = prev s) incoming with
      | Some (_, (v, _)) => Next (setReg id (ev v) i s)
      | None => Fault "phi: no value for the predecessor" s
      end
  | llvm.CondBr cond thenBlock elseBlock =>
      match ev cond with
      | RInt 1 => Next (jump thenBlock i s)
      | RInt 0 => Next (jump elseBlock i s)
      | _ => Fault "br: condition is not a boolean" s
      end
  | llvm.Br target => Next (jump target i s)
  | llvm.Switch v default cases =>
      match list_find (fun vb => bool_decide (icmpEQ (ev (fst vb)) (ev v) = Some true)) cases with
      | Some (_, (_, target)) => Next (jump target i s)
      | None => Next (jump default i s)
      end
  | llvm.Unreachable => Fault "unreachable" (logged i s)
  | llvm.Ret v => Returned (Some (ev v)) (logged i s)
  | llvm.RetVoid => Returned None (logged i s)
  | llvm.PointerPack vals => Next (setReg id (RPacked (map ev vals)) i s)
  | llvm.PointerUnpack ptr _ =>
      match ev ptr with
      | RPacked vals => Next (setReg id (RStruct vals) i s)
      | _ => Fault "unpack: not a packed value" s
      end
  | llvm.TrackPointer _ => Next (setReg id RUndef i s)
  end.

(** The instruction at the program counter of the state. *)
Definition fetch (m : llvm.Module) (s : State) : option (nat * llvm.Instr) :=
  blockInstrs m (block s) !! pc s.

Inductive Result : Type :=
| Finished (s : State)
| Exited (v : option RValue) (s : State)
| Faulted (msg : string) (s : State)
| OutOfFuel (s : State).

(** Runs until there is no instruction at the program counter: the point
    where the builder stands, the end of the code emitted so far. *)
Fixpoint run (fuel : nat) (m : llvm.Module) (s : State) : Result :=
  match fuel with
  | O => OutOfFuel s
  | S fuel =>
      match fetch m s with
      | None => Finished s
      | Some (id, i) =>
          match execInstr id i s with
          | Next s' => run fuel m s'
          | Returned v s' => Exited v s'
          | Fault msg s' => Faulted msg s'
          end
      end
  end.

End interpreter.

(** Modelled from the spec: the lowering pass, which is not part of the
    files modelled here.  It replaces [typeAssert(typecode, placeholder)] by
    the comparison of the type code of the value with the one of the asserted
    type, so that type code equality implements type identity: the type code
    of a boxed value is the address of the descriptor
    [typeInInterface:<placeholder name>] of its type.  The other runtime
    calls are left uninterpreted. *)
Definition lowered (fnName : string) (args : list RValue) : RValue :=
  if decide (fnName = "typeAssert") then
    match args with
    | [RGlobal descriptor; RGlobal placeholder] =>
        RInt (if decide (descriptor = "typeInInterface:" +:+ placeholder) then 1 else 0)
    | _ => RRuntime fnName args
    end
  else RRuntime fnName args.

End exec.

(** * Properties *)

(** ** Strings and results *)

Lemma append_assoc (a b c : string) : (a +:+ b) +:+ c = a +:+ (b +:+ c).
Proof.
  induction a as [|x a IH]; [reflexivity|].
  change (String.String x ((a +:+ b) +:+ c) = String.String x (a +:+ b +:+ c)).
  by rewrite IH.
Qed.

Lemma length_append (a b : string) :
  String.length (a +:+ b) = (String.length a + String.length b)%nat.
Proof.
  induction a as [|x a IH]; [reflexivity|].
  change (S (String.length (a +:+ b)) = S (String.length a + String.length b)).
  by rewrite IH.
Qed.

Lemma rbind_Ok {A B : Type} (r : result A) (k : A -> result B) (b : B) :
  rbind r k = Ok b -> exists a, r = Ok a /\ k a = Ok b.
Proof. destruct r as [a|msg]; simpl; [eauto | discriminate]. Qed.

Lemma sequence_Ok {A B : Type} (f : A -> result B) (l : list A) :
  Forall (fun a => exists b, f a = Ok b) l ->
  exists bs, sequence (map f l) = Ok bs /\ length bs = length l.
Proof.
  induction 1 as [|a l [b Hb] _ [bs [IH Hlen]]]; simpl.
  - by exists [].
  - rewrite Hb, IH. simpl. exists (b :: bs). by rewrite <- Hlen.
Qed.

(** ** The type-identity mangler *)

Lemma Underlying_not_Named (t : Type_) : isNamed (Underlying t) = false.
Proof. induction t; simpl; auto. Qed.

Lemma Underlying_idem (t : Type_) : Underlying (Underlying t) = Underlying t.
Proof. induction t; simpl; auto. Qed.

(** The tag the mangler writes first for a type constructor. *)
Definition constructorTag (t : Type_) : string :=
  match t with
  | Array _ _ => "array:"
  | Basic _ => "basic:"
  | Chan _ => "chan:"
  | Interface _ => "interface:"
  | Map _ _ => "map:"
  | Pointer _ => "pointer:"
  | Signature _ _ _ => "func:"
  | Slice _ => "slice:"
  | Struct _ => "struct:"
  | Tuple _ | Named _ _ => ""
  end.

(** The mangler on a type that is not named, and on a named type, in terms
    of the type after the name has been taken off. *)
Definition mangleWith (name : string) (u : Type_) : result string :=
  match u with
  | Array len elem =>
      rbind (getTypeCodeName elem) (fun e =>
      Ok ("array:" +:+ name +:+ FormatInt len +:+ ":" +:+ e))
  | Basic k =>
      rbind (basicKindName k) (fun kind => Ok ("basic:" +:+ name +:+ kind))
  | Chan elem =>
      rbind (getTypeCodeName elem) (fun e => Ok ("chan:" +:+ name +:+ e))
  | Interface ms =>
      rbind (sequence (map (fun m => getTypeCodeName (snd m)) ms)) (fun methods =>
      Ok ("interface:" +:+ name +:+ "{" +:+ Join methods "," +:+ "}"))
  | Map key elem =>
      rbind (getTypeCodeName key) (fun keyType =>
      rbind (getTypeCodeName elem) (fun elemType =>
      Ok ("map:" +:+ name +:+ "{" +:+ keyType +:+ "," +:+ elemType +:+ "}")))
  | Pointer elem =>
      rbind (getTypeCodeName elem) (fun e => Ok ("pointer:" +:+ name +:+ e))
  | Signature _ ps rs =>
      rbind (sequence (map getTypeCodeName ps)) (fun params =>
      rbind (sequence (map getTypeCodeName rs)) (fun results =>
      Ok ("func:" +:+ name +:+ "{" +:+ Join params "," +:+ "}{" +:+
          Join results "," +:+ "}")))
  | Slice elem =>
      rbind (getTypeCodeName elem) (fun e => Ok ("slice:" +:+ name +:+ e))
  | Struct fields =>
      if isCgoUnion fields then
        Panic "cgo unions are not allowed in interfaces"
      else
        rbind (sequence (map (fun f => getTypeCodeName (snd f)) fields)) (fun elems =>
        Ok ("struct:" +:+ name +:+ "{" +:+ Join elems "," +:+ "}"))
  | Tuple _ as u | Named _ _ as u => Panic ("unknown type: " +:+ String_ u)
  end.

Lemma getTypeCodeName_unfold (t : Type_) :
  getTypeCodeName t =
  mangleWith (match t with Named named _ => "~" +:+ named +:+ ":" | _ => "" end)
             (Underlying t).
Proof.
  destruct t; try reflexivity.
  unfold mangleWith. set (n := "~" +:+ name +:+ ":").
  cbn [getTypeCodeName]. fold n. cbn [Underlying].
  destruct (Underlying t); reflexivity.
Qed.

Lemma mangleWith_tag (name : string) (u : Type_) (s : string) :
  mangleWith "" u = Ok s ->
  exists rest,
    s = constructorTag u +:+ rest /\
    mangleWith name u = Ok (constructorTag u +:+ name +:+ rest).
Proof.
  destruct u; simpl; intros Hs;
    repeat match goal with
    | H : (if ?b then _ else _) = Ok _ |- _ => destruct b; [discriminate H|]
    | H : rbind ?r _ = Ok _ |- _ =>
        let a := fresh "a" in let Ha := fresh "Ha" in
        apply rbind_Ok in H as [a [Ha H]]; rewrite ?Ha; simpl
    end;
    try discriminate; injection Hs as <-; eexists; split; reflexivity.
Qed.

Lemma isCgoUnion_spec (fields : list (string * Type_)) :
  isCgoUnion fields = true <->
  (2 < length fields)%nat /\ exists f rest, fields = f :: rest /\ fst f = unionFieldName.
Proof.
  unfold isCgoUnion. rewrite andb_true_iff, bool_decide_eq_true. split.
  - intros [Hlen Hname]. split; [exact Hlen|].
    destruct fields as [|f rest]; [discriminate|].
    apply bool_decide_eq_true in Hname. by exists f, rest.
  - intros [Hlen [f [rest [-> Hname]]]]. split; [exact Hlen|].
    by apply bool_decide_eq_true.
Qed.

Lemma getTypeCodeName_Struct (fields : list (string * Type_)) :
  getTypeCodeName (Struct fields) =
    if isCgoUnion fields then Panic "cgo unions are not allowed in interfaces"
    else rbind (sequence (map (fun f => getTypeCodeName (snd f)) fields)) (fun elems =>
         Ok ("struct:" +:+ "" +:+ "{" +:+ Join elems "," +:+ "}")).
Proof. reflexivity. Qed.

Definition pointStruct : Type_ := Struct [("X", Basic Int32); ("Y", Basic Int32)].
Definition point : Type_ := Named "pkg.Point" pointStruct.

(** C1, as amended: for every named type the mangler puts the segment
    [~<qualified name>:] right after the leading constructor tag of the
    identity of the underlying type (and not in front of it), and the
    identifier of the named type differs from the one of its underlying
    type. *)
Theorem named_type_identity (name : string) (u : Type_) (s : string) :
  getTypeCodeName (Underlying u) = Ok s ->
  exists rest,
    s = constructorTag (Underlying u) +:+ rest /\
    getTypeCodeName (Named name u) =
      Ok (constructorTag (Underlying u) +:+ "~" +:+ name +:+ ":" +:+ rest) /\
    getTypeCodeName (Named name u) <> Ok s.
Proof.
  intros Hs. rewrite getTypeCodeName_unfold, Underlying_idem in Hs.
  assert (Hname : match Underlying u with
                  | Named named _ => "~" +:+ named +:+ ":"
                  | _ => ""
                  end = "").
  { pose proof (Underlying_not_Named u) as Hn. by destruct (Underlying u). }
  rewrite Hname in Hs.
  destruct (mangleWith_tag ("~" +:+ name +:+ ":") _ _ Hs) as [rest [-> Hnamed]].
  assert (Heq : getTypeCodeName (Named name u) =
                Ok (constructorTag (Underlying u) +:+ "~" +:+ name +:+ ":" +:+ rest)).
  { rewrite getTypeCodeName_unfold. cbn [Underlying]. rewrite Hnamed.
    by rewrite !append_assoc. }
  exists rest. split; [reflexivity|]. split; [exact Heq|].
  rewrite Heq. intros [= Hrest%(inj (String.append _))].
  apply (f_equal String.length) in Hrest.
  rewrite !length_append in Hrest. simpl in Hrest. lia.
Qed.

(** The type [Point] of the specification: the name comes after [struct:]. *)
Lemma named_type_identity_witness :
  getTypeCodeName (Underlying pointStruct) = Ok "struct:{basic:int32,basic:int32}" /\
  exists rest,
    "struct:{basic:int32,basic:int32}" = constructorTag (Underlying pointStruct) +:+ rest /\
    getTypeCodeName point =
      Ok (constructorTag (Underlying pointStruct) +:+ "~" +:+ "pkg.Point" +:+ ":" +:+ rest) /\
    getTypeCodeName point <> Ok "struct:{basic:int32,basic:int32}".
Proof.
  split; [reflexivity|].
  apply (named_type_identity "pkg.Point" pointStruct). reflexivity.
Defined.

(** C1 as stated fails: the identifier of [Point] is not the identity of its
    underlying type with [~pkg.Point:] in front. *)
Lemma named_prefix_counterexample :
  getTypeCodeName pointStruct = Ok "struct:{basic:int32,basic:int32}" /\
  getTypeCodeName point = Ok "struct:~pkg.Point:{basic:int32,basic:int32}" /\
  getTypeCodeName point <> Ok ("~pkg.Point:" +:+ "struct:{basic:int32,basic:int32}").
Proof. split; [reflexivity|]. split; [reflexivity|]. discriminate. Qed.

(** C2: a struct with more than two fields whose first field has the
    reserved name of a cgo union makes the mangler panic, which aborts the
    compilation; no error is recorded for the user. *)
Theorem cgo_union_panics (t1 : Type_) (f2 f3 : string * Type_) (rest : list (string * Type_)) :
  getTypeCodeName (Struct ((unionFieldName, t1) :: f2 :: f3 :: rest)) =
    Panic "cgo unions are not allowed in interfaces".
Proof.
  rewrite getTypeCodeName_Struct.
  replace (isCgoUnion _) with true; [reflexivity|].
  symmetry. apply isCgoUnion_spec. split; [simpl; lia|]. by eexists _, _.
Qed.

(** The same for a named type whose underlying type is such a struct. *)
Lemma cgo_union_named_panics (name : string) (t1 : Type_) (f2 f3 : string * Type_)
    (rest : list (string * Type_)) :
  getTypeCodeName (Named name (Struct ((unionFieldName, t1) :: f2 :: f3 :: rest))) =
    Panic "cgo unions are not allowed in interfaces".
Proof.
  rewrite getTypeCodeName_unfold. cbn [Underlying mangleWith].
  replace (isCgoUnion _) with true; [reflexivity|].
  symmetry. apply isCgoUnion_spec. split; [simpl; lia|]. by eexists _, _.
Qed.

(** C9, as amended: for a struct whose field types the mangler accepts, the
    refusal of cgo unions is decided by the guard "more than two fields and
    the first field has the reserved name": the panic about cgo unions
    happens exactly under that guard, and every such struct with two fields
    or fewer gets an identifier, whatever the name of its first field. *)
Theorem union_guard (fields : list (string * Type_)) :
  Forall (fun f => exists s, getTypeCodeName (snd f) = Ok s) fields ->
  (getTypeCodeName (Struct fields) = Panic "cgo unions are not allowed in interfaces"
   <-> (2 < length fields)%nat /\
       exists f rest, fields = f :: rest /\ fst f = unionFieldName) /\
  ((length fields <= 2)%nat -> exists s, getTypeCodeName (Struct fields) = Ok s).
Proof.
  intros Hfields.
  destruct (sequence_Ok (fun f => getTypeCodeName (snd f)) fields Hfields) as [elems [Hseq _]].
  rewrite getTypeCodeName_Struct, Hseq. simpl rbind.
  pose proof (isCgoUnion_spec fields) as Hguard.
  destruct (isCgoUnion fields); split.
  - split; [intros _; by apply Hguard | reflexivity].
  - intros Hle. destruct Hguard as [[Hlt _] _]; [reflexivity | lia].
  - split; [discriminate|]. intros Hu. apply Hguard in Hu. discriminate.
  - intros _. by eexists.
Qed.

Definition unionOfTwo : list (string * Type_) :=
  [(unionFieldName, Basic Int32); ("Y", Basic Int32)].

Lemma union_guard_witness :
  Forall (fun f => exists s, getTypeCodeName (snd f) = Ok s) unionOfTwo /\
  (length unionOfTwo <= 2)%nat /\
  exists s, getTypeCodeName (Struct unionOfTwo) = Ok s.
Proof.
  assert (Hfields : Forall (fun f => exists s, getTypeCodeName (snd f) = Ok s) unionOfTwo).
  { repeat constructor; by eexists. }
  split; [exact Hfields|]. split; [simpl; lia|].
  apply (union_guard unionOfTwo Hfields). simpl; lia.
Defined.

(** A cgo union, and a struct of two fields that holds one. *)
Definition unionOfThree : Type_ :=
  Struct [(unionFieldName, Basic Int32); ("x", Basic Int32); ("y", Basic Int32)].
Definition holdsUnion : list (string * Type_) :=
  [("a", unionOfThree); ("b", Basic Int32)].

(** C9 as stated fails: a struct of two fields whose first field has another
    name is refused with the panic about cgo unions when the type of one of
    its fields is a cgo union; the panic comes from the loop over the
    fields. *)
Lemma nested_union_counterexample :
  length holdsUnion = 2%nat /\
  (forall f rest, holdsUnion = f :: rest -> fst f <> unionFieldName) /\
  getTypeCodeName (Struct holdsUnion) = Panic "cgo unions are not allowed in interfaces" /\
  ~ ((getTypeCodeName (Struct holdsUnion) = Panic "cgo unions are not allowed in interfaces"
      -> (2 < length holdsUnion)%nat /\
         exists f rest, holdsUnion = f :: rest /\ fst f = unionFieldName) /\
     ((length holdsUnion <= 2)%nat -> exists s, getTypeCodeName (Struct holdsUnion) = Ok s)).
Proof.
  split; [reflexivity|]. split; [by intros f rest [= <- <-]|]. split; [reflexivity|].
  intros [Honly _]. destruct Honly as [Hlen _]; [reflexivity|]. simpl in Hlen. lia.
Qed.

(** ** A small program for concrete runs

    A lowering of types, link names and a module with the function [main.f]
    under construction, used where the properties below are instantiated. *)

Definition i8ptr : llvm.Type_ := llvm.PointerType (llvm.IntType 8) 0.

(** The types [main.T] (methods on the pointer) and [main.S] (a struct of
    two words with a method on the value). *)
Definition typeT : Type_ := Named "main.T" (Struct [("x", Basic Int32)]).
Definition typeS : Type_ := Named "main.S" (Struct [("a", Basic Int32); ("b", Basic Int32)]).

Definition methodOfT : types.Func * ssa.Function :=
  (mkFunc "(*main.T).M" (Signature (Some (Pointer typeT)) [] []),
   ssa.mkFunction "(*main.T).M" [("t", Pointer typeT)] (mkSig (Some (Pointer typeT)) [] [])).

Definition methodOfS : types.Func * ssa.Function :=
  (mkFunc "(main.S).M" (Signature (Some typeS) [] []),
   ssa.mkFunction "(main.S).M" [("s", typeS)] (mkSig (Some typeS) [] [])).

Definition exampleProgram : Program := {|
  getLLVMType t :=
    match Underlying t with
    | Basic Int8 => llvm.IntType 8
    | Basic Int32 | Basic Int => llvm.IntType 32
    | Interface _ => llvm.NamedStructType "runtime._interface"
    | Pointer _ => i8ptr
    | Signature _ _ _ => llvm.NamedStructType "runtime.funcValue"
    | Struct fs => llvm.StructType (map (fun _ => llvm.IntType 32) fs)
    | _ => llvm.VoidType
    end;
  expandFormalParamType t :=
    match t with
    | llvm.StructType es => es
    | _ => [t]
    end;
  MethodSignature f := FullName f;
  MethodSet t :=
    match t with
    | Pointer (Named "main.T" _) => [methodOfT]
    | Named "main.S" _ => [methodOfS]
    | _ => []
    end;
  linkName f := ssa.Name f
|}.

Definition exampleFnType : llvm.Type_ := llvm.FunctionType llvm.VoidType [i8ptr; i8ptr] false.

Definition declared : llvm.FunctionDef :=
  llvm.mkFunction exampleFnType llvm.ExternalLinkage false [].

Definition exampleModule : llvm.Module :=
  llvm.mkModule ∅
    (<["main.f" := llvm.mkFunction exampleFnType llvm.ExternalLinkage false
                     [llvm.mkBlock "entry" []]]>
     (<["main.A" := declared]>
      (<["main.B" := declared]>
       (<["main.f$1" := declared]>
        (<["(*main.T).M" :=
             llvm.mkFunction (llvm.FunctionType llvm.VoidType [i8ptr; i8ptr; i8ptr] false)
               llvm.ExternalLinkage false []]>
         (<["(main.S).M" :=
              llvm.mkFunction
                (llvm.FunctionType llvm.VoidType
                   [llvm.IntType 32; llvm.IntType 32; i8ptr; i8ptr] false)
                llvm.ExternalLinkage false []]> ∅)))))).

Definition exampleCompiler : Compiler :=
  mkCompiler "arm" false (llvm.IntType 32) i8ptr 0 false exampleModule
             (llvm.mkBuilder (Some ("main.f", 0%nat)) 0) [] [].

Definition itfType : llvm.Type_ := llvm.NamedStructType "runtime._interface".

(** The frame of [main.f]: [a] and [b] are interface values, [n] is the
    constant 7, [clo] is a closure and [x] a captured variable. *)
Definition exampleFrame : Frame :=
  mkFrame "main.f"
    (<["a" := llvm.Param "main.f" 0 itfType]>
     (<["b" := llvm.Param "main.f" 1 itfType]>
      (<["n" := llvm.ConstInt (llvm.IntType 32) 7]>
       (<["clo" := llvm.Param "main.f" 2 (llvm.NamedStructType "runtime.funcValue")]>
        (<["x" := llvm.Param "main.f" 3 (llvm.IntType 32)]> ∅)))))
    0 ∅ None ∅ ∅ ∅ [].

Definition fnA : ssa.Function := ssa.mkFunction "main.A" [] (mkSig None [] []).
Definition fnB : ssa.Function :=
  ssa.mkFunction "main.B" [("x", Basic Int)] (mkSig None [Basic Int] []).
Definition fnLit : ssa.Function := ssa.mkFunction "main.f$1" [] (mkSig None [] []).

(** ** compiler/func.go *)

Section func_properties.
Context `{Program}.




(** C10: [parseMakeClosure] panics on a closure expression without bound
    variables, so that whenever it returns a function value the closure
    has at least one bound variable. *)
Theorem parseMakeClosure_requires_bindings (frame : Frame) (Fn : ssa.Function) (c : Compiler) :
  parseMakeClosure frame Fn [] c = Panic "unexpected: MakeClosure without bound variables" /\
  forall Bindings v c',
    parseMakeClosure frame Fn Bindings c = Ok (v, c') -> Bindings <> [].
Proof.
  split; [reflexivity|].
  intros Bindings v c' Hok ->. discriminate Hok.
Qed.

End func_properties.

Lemma parseMakeClosure_requires_bindings_witness :
  exists v c',
    parseMakeClosure (H := exampleProgram) exampleFrame fnLit
      [ssa.Register "x" (Basic Int)] exampleCompiler = Ok (v, c') /\
    [ssa.Register "x" (Basic Int)] <> [].
Proof.
  eexists _, _. split; [vm_compute; reflexivity|].
  eapply (proj2 (parseMakeClosure_requires_bindings (H := exampleProgram)
                   exampleFrame fnLit exampleCompiler)).
  vm_compute; reflexivity.
Defined.

(** ** Reasoning about the compiler monad *)

Lemma bind_Ok {A B : Type} (m : M A) (k : A -> M B) (c : Compiler) (r : B * Compiler) :
  (m ≫= k) c = Ok r <-> exists a c1, m c = Ok (a, c1) /\ k a c1 = Ok r.
Proof.
  unfold mbind, M_bind. split.
  - destruct (m c) as [[a c1]|msg]; [eauto | discriminate].
  - intros [a [c1 [-> Hk]]]. exact Hk.
Qed.

Lemma bind_eq {A B : Type} (m : M A) (k : A -> M B) (c c1 : Compiler) (a : A) :
  m c = Ok (a, c1) -> (m ≫= k) c = k a c1.
Proof. unfold mbind, M_bind. by intros ->. Qed.

Lemma get_Ok (c a c' : Compiler) : get c = Ok (a, c') <-> a = c /\ c' = c.
Proof. unfold get. split; [by intros [= <- <-] | by intros [-> ->]]. Qed.

Lemma mret_Ok {A : Type} (a b : A) (c c' : Compiler) :
  (mret a : M A) c = Ok (b, c') <-> b = a /\ c' = c.
Proof. unfold mret, M_ret. split; [by intros [= <- <-] | by intros [-> ->]]. Qed.

Record extends (c c' : Compiler) : Prop := mkExtends {
  ext_builder : builder c' = builder c;
  ext_uintptr : uintptrType c' = uintptrType c;
  ext_i8ptr : i8ptrType c' = i8ptrType c;
  ext_globals : forall k, is_Some (llvm.globals (mod_ c) !! k) ->
                          is_Some (llvm.globals (mod_ c') !! k);
  ext_functions : forall fn d, llvm.functions (mod_ c) !! fn = Some d ->
                               llvm.functions (mod_ c') !! fn = Some d
}.

Lemma extends_refl c : extends c c.
Proof. by constructor. Qed.

Lemma extends_trans c1 c2 c3 : extends c1 c2 -> extends c2 c3 -> extends c1 c3.
Proof.
  intros [] []. constructor; try congruence; eauto.
Qed.

Lemma is_Some_alter {A : Type} (f : A -> A) (m : gmap string A) (k k' : string) :
  is_Some (alter f k m !! k') <-> is_Some (m !! k').
Proof.
  rewrite lookup_alter. case_decide; [subst|done].
  by rewrite fmap_is_Some.
Qed.

Lemma is_Some_insert {A : Type} (x : A) (m : gmap string A) (k k' : string) :
  is_Some (m !! k') -> is_Some (<[k := x]> m !! k').
Proof. rewrite lookup_insert_is_Some'. auto. Qed.

Ltac unfold_M :=
  unfold NamedGlobal, NamedFunction, AddGlobal, AddFunction, modifyMod, modify, lift, get,
    panic, mbind, M_bind, mret, M_ret in *.

Ltac unfold_llvm :=
  unfold llvm.NamedGlobal, llvm.NamedFunction, llvm.AddGlobal, llvm.AddFunction,
    llvm.SetInitializer, llvm.SetGlobalConstant, llvm.SetLinkage, llvm.updateGlobal,
    llvm.SetFunctionLinkage, llvm.SetUnnamedAddr, llvm.updateFunction in *.

Ltac solve_extends :=
  first
  [ apply extends_refl
  | constructor; simpl;
    [ reflexivity | reflexivity | reflexivity
    | intros ? ?; rewrite ?is_Some_alter; repeat apply is_Some_insert; assumption
    | intros ? ? ?; try assumption;
      try (rewrite lookup_insert_ne; [assumption | congruence]) ] ].

Section interface_properties.
Context `{Program}.

Lemma getTypeCode_extends typ c g c' :
  getTypeCode typ c = Ok (g, c') -> extends c c'.
Proof.
  unfold getTypeCode. unfold_M. unfold_llvm. intros Hc.
  repeat case_match; simplify_eq; solve_extends.
Qed.

Lemma getMethodSignature_extends method c g c' :
  getMethodSignature method c = Ok (g, c') -> extends c c'.
Proof.
  unfold getMethodSignature. unfold_M. unfold_llvm. intros Hc.
  repeat case_match; simplify_eq; solve_extends.
Qed.

Lemma getInterfaceInvokeWrapper_extends f c w c' :
  getInterfaceInvokeWrapper f c = Ok (w, c') -> extends c c'.
Proof.
  unfold getInterfaceInvokeWrapper, getFunction. unfold_M. unfold_llvm. intros Hc.
  repeat case_match; simplify_eq; solve_extends.
Qed.

Lemma forM_extends {A B : Type} (f : A -> M B) (l : list A) :
  (forall a c b c', f a c = Ok (b, c') -> extends c c') ->
  forall c bs c', forM l f c = Ok (bs, c') -> extends c c'.
Proof.
  intros Hf. induction l as [|a l IH]; intros c bs c' Hc; simpl in Hc.
  - injection Hc as <- <-. apply extends_refl.
  - apply bind_Ok in Hc as [b [c1 [Hb Hc]]].
    apply bind_Ok in Hc as [bs' [c2 [Hbs Hc]]].
    injection Hc as <- <-. eauto using extends_trans.
Qed.

Lemma forM_length {A B : Type} (f : A -> M B) (l : list A) c bs c' :
  forM l f c = Ok (bs, c') -> length bs = length l.
Proof.
  revert c bs. induction l as [|a l IH]; intros c bs Hc; simpl in Hc.
  - by injection Hc as <- <-.
  - apply bind_Ok in Hc as [b [c1 [Hb Hc]]].
    apply bind_Ok in Hc as [bs' [c2 [Hbs Hc]]].
    injection Hc as <- <-. simpl. f_equal. eauto.
Qed.

Lemma methodInfo_extends method c v c' :
  methodInfo method c = Ok (v, c') -> extends c c'.
Proof.
  unfold methodInfo. intros Hc.
  apply bind_Ok in Hc as [sg [c1 [Hsg Hc]]].
  apply bind_Ok in Hc as [fn [c2 [Hfn Hc]]].
  assert (c2 = c1) as -> by (unfold getFunction in Hfn; unfold_M; by simplify_eq).
  destruct fn as [fn|]; [|discriminate].
  apply bind_Ok in Hc as [w [c3 [Hw Hc]]].
  unfold_M. simplify_eq.
  eauto using extends_trans, getMethodSignature_extends, getInterfaceInvokeWrapper_extends.
Qed.

(** Nothing is left to emit for the method set of a type: its global
    exists, or the type has no methods. *)
Definition methodSetSettled (typ : Type_) (c : Compiler) : Prop :=
  is_Some (llvm.globals (mod_ c) !! (String_ typ +:+ "$methodset")) \/ MethodSet typ = [].

Lemma methodSetSettled_extends typ c c' :
  extends c c' -> methodSetSettled typ c -> methodSetSettled typ c'.
Proof. intros [] [Hg|Hm]; [left; auto | by right]. Qed.

Lemma getTypeMethodSet_settled typ c :
  methodSetSettled typ c -> exists v, getTypeMethodSet typ c = Ok (v, c).
Proof.
  intros Hs. unfold getTypeMethodSet. unfold_M. unfold_llvm.
  destruct (llvm.globals (mod_ c) !! (String_ typ +:+ "$methodset")) as [g|] eqn:Hg.
  - by eexists.
  - destruct Hs as [[g Hg']|Hm]; [congruence|]. rewrite Hm. by eexists.
Qed.

Lemma getTypeMethodSet_spec typ c v c' :
  getTypeMethodSet typ c = Ok (v, c') ->
  extends c c' /\ methodSetSettled typ c' /\ getTypeMethodSet typ c' = Ok (v, c').
Proof.
  intros Hc. pose proof Hc as Hc0. revert Hc.
  unfold getTypeMethodSet at 1.
  intros Hc. apply bind_Ok in Hc as [g [c1 [Hg Hc]]].
  assert (c1 = c) as -> by (unfold_M; by simplify_eq).
  destruct g as [g|].
  { unfold_M. simplify_eq. split; [apply extends_refl|].
    split; [|exact Hc0]. left. unfold llvm.NamedGlobal in Hg.
    destruct (llvm.globals (mod_ c') !! _); [by eexists | discriminate]. }
  case_bool_decide as Hlen.
  { unfold_M. simplify_eq. split; [apply extends_refl|].
    split; [|exact Hc0]. right. by apply nil_length_inv. }
  apply bind_Ok in Hc as [methods [c2 [Hms Hc]]].
  apply forM_extends in Hms as Hext; [|apply methodInfo_extends].
  unfold_M. unfold_llvm. simplify_eq. simpl.
  split; [|split].
  - eapply extends_trans; [exact Hext|]. solve_extends.
  - left. simpl. rewrite !is_Some_alter, lookup_insert_eq. by eexists.
  - unfold getTypeMethodSet. unfold_M. unfold_llvm. simpl.
    rewrite !lookup_alter_eq, lookup_insert_eq. reflexivity.
Qed.

Lemma getInterfaceMethodSet_spec typ c v c' :
  getInterfaceMethodSet typ c = Ok (v, c') ->
  extends c c' /\ getInterfaceMethodSet typ c' = Ok (v, c').
Proof.
  intros Hc. pose proof Hc as Hc0. revert Hc.
  unfold getInterfaceMethodSet at 1.
  intros Hc. apply bind_Ok in Hc as [g [c1 [Hg Hc]]].
  assert (c1 = c) as -> by (unfold_M; by simplify_eq).
  destruct g as [g|].
  { unfold_M. simplify_eq. split; [apply extends_refl | exact Hc0]. }
  destruct (Underlying typ) eqn:Hu; try discriminate.
  apply bind_Ok in Hc as [ms [c2 [Hms Hc]]].
  apply forM_extends in Hms as Hext;
    [|intros ????; apply getMethodSignature_extends].
  destruct ms as [|m0 ms]; [discriminate|].
  unfold_M. unfold_llvm. simplify_eq. simpl.
  split.
  - eapply extends_trans; [exact Hext|]. solve_extends.
  - unfold getInterfaceMethodSet. unfold_M. unfold_llvm. simpl.
    rewrite !lookup_alter_eq, lookup_insert_eq. reflexivity.
Qed.

Lemma getTypeMethodSet_returns typ c v c' :
  getTypeMethodSet typ c = Ok (v, c') ->
  (exists g, llvm.NamedGlobal (mod_ c') (String_ typ +:+ "$methodset") = Some g /\
             v = llvm.ConstGEP g [zero32; zero32]) \/
  (MethodSet typ = [] /\ c' = c /\
   v = llvm.ConstPointerNull (llvm.PointerType (getLLVMRuntimeType "interfaceMethodInfo") 0)).
Proof.
  unfold getTypeMethodSet.
  intros Hc. apply bind_Ok in Hc as [g [c1 [Hg Hc]]].
  assert (c1 = c /\ g = llvm.NamedGlobal (mod_ c) (String_ typ +:+ "$methodset")) as [-> ->].
  { unfold_M. by simplify_eq. }
  destruct (llvm.NamedGlobal (mod_ c) (String_ typ +:+ "$methodset")) as [g|] eqn:Hg'.
  { apply mret_Ok in Hc as [-> ->]. left. by exists g. }
  case_bool_decide as Hlen.
  { apply mret_Ok in Hc as [-> ->]. right. split; [by apply nil_length_inv | done]. }
  apply bind_Ok in Hc as [methods [c2 [Hms Hc]]].
  unfold_M. unfold_llvm. simplify_eq. simpl. left.
  rewrite !lookup_alter_eq, lookup_insert_eq. simpl. by eexists.
Qed.

Lemma getInterfaceMethodSet_returns typ c v c' :
  getInterfaceMethodSet typ c = Ok (v, c') ->
  exists g, llvm.NamedGlobal (mod_ c') (String_ typ +:+ "$interface") = Some g /\
            v = llvm.ConstGEP g [zero32; zero32].
Proof.
  unfold getInterfaceMethodSet.
  intros Hc. apply bind_Ok in Hc as [g [c1 [Hg Hc]]].
  assert (c1 = c /\ g = llvm.NamedGlobal (mod_ c) (String_ typ +:+ "$interface")) as [-> ->].
  { unfold_M. by simplify_eq. }
  destruct (llvm.NamedGlobal (mod_ c) (String_ typ +:+ "$interface")) as [g|] eqn:Hg'.
  { apply mret_Ok in Hc as [-> ->]. by exists g. }
  destruct (Underlying typ) eqn:Hu; try discriminate.
  apply bind_Ok in Hc as [ms [c2 [Hms Hc]]].
  destruct ms as [|m0 ms]; [discriminate|].
  unfold_M. unfold_llvm. simplify_eq. simpl.
  rewrite !lookup_alter_eq, lookup_insert_eq. simpl. by eexists.
Qed.

(** *** The builder *)

Definition emitAt (bb : llvm.BasicBlock) (i : llvm.Instr) (c : Compiler) : Compiler :=
  setBuilder (llvm.mkBuilder (Some bb) (S (llvm.nextInst (builder c))))
    (setMod (appendInstr bb (llvm.nextInst (builder c), i) (mod_ c)) c).

Lemma emit_Ok i t c v c' :
  emit i t c = Ok (v, c') <->
  exists bb, llvm.insertBlock (builder c) = Some bb /\
             is_Some (blockAt (mod_ c) bb) /\
             v = llvm.Inst (llvm.nextInst (builder c)) t /\
             c' = emitAt bb i c.
Proof.
  unfold emit, emitAt. split.
  - intros Hc. repeat case_match; simplify_eq. eexists. eauto.
  - intros [bb [-> [[b ->] [-> ->]]]]. reflexivity.
Qed.

Lemma blockAt_emitAt_eq bb i c b :
  blockAt (mod_ c) bb = Some b ->
  blockAt (mod_ (emitAt bb i c)) bb =
    Some (llvm.mkBlock (llvm.blockName b) (llvm.instrs b ++ [(llvm.nextInst (builder c), i)])).
Proof.
  unfold blockAt, emitAt, appendInstr, llvm.updateFunction. simpl.
  rewrite lookup_alter_eq.
  destruct (llvm.functions (mod_ c) !! bb.1) as [d|]; simpl; [|discriminate].
  rewrite list_lookup_alter_eq. by intros ->.
Qed.

Lemma blockAt_emitAt_ne bb bb' i c :
  bb' <> bb -> blockAt (mod_ (emitAt bb i c)) bb' = blockAt (mod_ c) bb'.
Proof.
  unfold blockAt, emitAt, appendInstr, llvm.updateFunction. simpl. intros Hne.
  destruct (decide (bb'.1 = bb.1)) as [Heq|Hfn].
  - rewrite Heq, lookup_alter_eq.
    destruct (llvm.functions (mod_ c) !! bb.1) as [d|]; simpl; [|done].
    rewrite list_lookup_alter_ne; [done|].
    intros Hsnd. apply Hne. destruct bb, bb'; simpl in *; congruence.
  - rewrite lookup_alter_ne; [done | congruence].
Qed.

Lemma blockInstrs_emitAt_eq bb i c :
  is_Some (blockAt (mod_ c) bb) ->
  blockInstrs (mod_ (emitAt bb i c)) bb =
    blockInstrs (mod_ c) bb ++ [(llvm.nextInst (builder c), i)].
Proof.
  intros [b Hb]. unfold blockInstrs. by rewrite (blockAt_emitAt_eq _ _ _ _ Hb), Hb.
Qed.

Lemma blockInstrs_emitAt_ne bb bb' i c :
  bb' <> bb -> blockInstrs (mod_ (emitAt bb i c)) bb' = blockInstrs (mod_ c) bb'.
Proof. intros Hne. unfold blockInstrs. by rewrite blockAt_emitAt_ne. Qed.

Lemma is_Some_blockAt_emitAt bb bb' i c :
  is_Some (blockAt (mod_ c) bb') -> is_Some (blockAt (mod_ (emitAt bb i c)) bb').
Proof.
  intros [b Hb]. destruct (decide (bb' = bb)) as [->|Hne].
  - rewrite (blockAt_emitAt_eq _ _ _ _ Hb). by eexists.
  - rewrite blockAt_emitAt_ne by done. by eexists.
Qed.

Lemma blockAt_extends c c' bb b :
  extends c c' -> blockAt (mod_ c) bb = Some b -> blockAt (mod_ c') bb = Some b.
Proof.
  intros Hext. unfold blockAt.
  destruct (llvm.functions (mod_ c) !! bb.1) as [d|] eqn:Hd; simpl; [|discriminate].
  by rewrite (ext_functions _ _ Hext _ _ Hd).
Qed.

Lemma getTypeCode_spec typ c g c' :
  getTypeCode typ c = Ok (g, c') ->
  exists name t,
    getTypeCodeName typ = Ok name /\
    g = llvm.Global ("type:" +:+ name) t /\
    extends c c' /\
    is_Some (llvm.globals (mod_ c') !! ("type:" +:+ name)).
Proof.
  intros Hc. pose proof (getTypeCode_extends _ _ _ _ Hc) as Hext. revert Hc.
  unfold getTypeCode. unfold_M. unfold_llvm. intros Hc.
  repeat case_match; simplify_eq; eexists _, _; (split; [reflexivity|]);
    (split; [reflexivity|]); (split; [exact Hext|]); simpl.
  - by eexists.
  - rewrite is_Some_alter, lookup_insert_eq. by eexists.
Qed.

Lemma getTypeCode_found typ c name :
  getTypeCodeName typ = Ok name ->
  is_Some (llvm.globals (mod_ c) !! ("type:" +:+ name)) ->
  exists t, getTypeCode typ c = Ok (llvm.Global ("type:" +:+ name) t, c).
Proof.
  intros Hn [g Hg]. unfold getTypeCode. unfold_M. unfold_llvm.
  rewrite Hn, Hg. by eexists.
Qed.

Definition itfT : llvm.Type_ := getLLVMRuntimeType "_interface".

(** The instructions of a boxing, the first of which has number [n]. *)
Definition boxing (c : Compiler) (n : nat) (val descriptor : llvm.Value) : list (nat * llvm.Instr) :=
  [(n, llvm.PointerPack [val]);
   (S n, llvm.PtrToInt descriptor (uintptrType c));
   (S (S n), llvm.InsertValue (llvm.Undef itfT) (llvm.Inst (S n) (uintptrType c)) 0);
   (S (S (S n)), llvm.InsertValue (llvm.Inst (S (S n)) itfT) (llvm.Inst n (i8ptrType c)) 1)].

(** The state after a boxing of [typ]: the descriptor of [typ] exists, and
    so does everything a further boxing of [typ] asks for. *)
Record boxed (typ : Type_) (name : string) (descriptor : llvm.Value) (c : Compiler) : Prop := mkBoxed {
  boxed_name : getTypeCodeName typ = Ok name;
  boxed_typecode : is_Some (llvm.globals (mod_ c) !! ("type:" +:+ name));
  boxed_methods : methodSetSettled typ c;
  boxed_descriptor :
    llvm.NamedGlobal (mod_ c) ("typeInInterface:type:" +:+ name) = Some descriptor;
  boxed_builder : exists bb, llvm.insertBlock (builder c) = Some bb /\
                             is_Some (blockAt (mod_ c) bb)
}.

(** What a boxing does to the code and to the module. *)
Record boxes (typ : Type_) (val : llvm.Value) (descriptor : llvm.Value)
    (c : Compiler) (itf : llvm.Value) (c' : Compiler) : Prop := mkBoxes {
  boxes_code : exists bb, llvm.insertBlock (builder c) = Some bb /\
    blockInstrs (mod_ c') bb =
      blockInstrs (mod_ c) bb ++ boxing c (llvm.nextInst (builder c)) val descriptor;
  boxes_value : itf = llvm.Inst (S (S (S (llvm.nextInst (builder c))))) itfT;
  boxes_builder : llvm.nextInst (builder c') = S (S (S (S (llvm.nextInst (builder c)))))
                  /\ llvm.insertBlock (builder c') = llvm.insertBlock (builder c);
  boxes_config : uintptrType c' = uintptrType c /\ i8ptrType c' = i8ptrType c
}.

Lemma NamedGlobal_emitAt bb i c name :
  llvm.NamedGlobal (mod_ (emitAt bb i c)) name = llvm.NamedGlobal (mod_ c) name.
Proof. reflexivity. Qed.

Lemma parseMakeInterface_boxes val typ pos c itf c' :
  parseMakeInterface val typ pos c = Ok (itf, c') ->
  exists name descriptor,
    boxes typ val descriptor c itf c' /\ boxed typ name descriptor c'.
Proof.
  unfold parseMakeInterface, emitPointerPack, CreatePtrToInt, CreateInsertValue. intros Hc.
  apply bind_Ok in Hc as [itfValue [ca [Hpack Hc]]].
  apply bind_Ok in Hpack as [c0 [c0' [Hget Hpack]]].
  apply get_Ok in Hget as [-> ->].
  apply emit_Ok in Hpack as [bb [Hbb [[b Hb] [-> ->]]]].
  apply bind_Ok in Hc as [g [cb [Hg Hc]]].
  apply getTypeCode_spec in Hg as [name [t [Hname [-> [Hext1 Hg]]]]].
  apply bind_Ok in Hc as [ms [cc [Hms Hc]]].
  apply getTypeMethodSet_spec in Hms as [Hext2 [Hsettled _]].
  pose proof (extends_trans _ _ _ Hext1 Hext2) as Hext.
  apply bind_Ok in Hc as [found [cc' [Hfound Hc]]].
  assert (cc' = cc) as -> by (unfold_M; by simplify_eq).
  apply bind_Ok in Hc as [descriptor [cd [Hd Hc]]].
  apply bind_Ok in Hc as [c1 [c1' [Hget Hc]]].
  apply get_Ok in Hget as [-> ->].
  apply bind_Ok in Hc as [tc [ce [Htc Hc]]].
  apply bind_Ok in Hc as [itf1 [cf [Hitf1 Hc]]].
  apply bind_Ok in Hc as [itf2 [cg [Hitf2 Hc]]].
  unfold_M. simplify_eq.
  (* the state after the descriptor has been found or created *)
  assert (Hcd : builder cd = builder cc /\ uintptrType cd = uintptrType cc /\
                i8ptrType cd = i8ptrType cc /\
                llvm.functions (mod_ cd) = llvm.functions (mod_ cc) /\
                (forall k, is_Some (llvm.globals (mod_ cc) !! k) ->
                           is_Some (llvm.globals (mod_ cd) !! k)) /\
                llvm.NamedGlobal (mod_ cd) ("typeInInterface:type:" +:+ name) = Some descriptor).
  { simpl in Hd. destruct (llvm.NamedGlobal (mod_ cc) _) as [g'|] eqn:Hfound.
    - simplify_eq. by repeat split.
    - unfold_llvm. simplify_eq. simpl. repeat split; auto.
      + intros k Hk. rewrite !is_Some_alter. by apply is_Some_insert.
      + by rewrite !lookup_alter_eq, lookup_insert_eq. }
  destruct Hcd as (Hbuilder & Hup & Hi8 & Hfuncs & Hglobals & Hdesc). clear Hd.
  assert (Hb' : blockAt (mod_ cd) bb =
                Some (llvm.mkBlock (llvm.blockName b)
                        (llvm.instrs b ++ [(llvm.nextInst (builder c), llvm.PointerPack [val])]))).
  { unfold blockAt. rewrite Hfuncs.
    apply (blockAt_extends _ _ _ _ Hext).
    by apply blockAt_emitAt_eq. }
  assert (Hins : llvm.insertBlock (builder cd) = Some bb /\
                 llvm.nextInst (builder cd) = S (llvm.nextInst (builder c))).
  { rewrite Hbuilder, (ext_builder _ _ Hext). by split. }
  destruct Hins as [Hins Hnext].
  apply emit_Ok in Htc as [bb1 [Hbb1 [_ [-> ->]]]].
  assert (bb1 = bb) as -> by congruence.
  apply emit_Ok in Hitf1 as [bb2 [Hbb2 [_ [-> ->]]]].
  assert (bb2 = bb) as -> by (simpl in Hbb2; congruence).
  apply emit_Ok in Hitf2 as [bb3 [Hbb3 [_ [-> ->]]]].
  assert (bb3 = bb) as -> by (simpl in Hbb3; congruence).
  exists name, descriptor. split.
  - constructor.
    + exists bb. split; [exact Hbb|].
      rewrite !blockInstrs_emitAt_eq
        by (repeat apply is_Some_blockAt_emitAt; by eexists).
      unfold blockInstrs at 1 2. rewrite Hb', Hb. simpl.
      rewrite Hnext, Hup, (ext_uintptr _ _ Hext). simpl.
      by rewrite <- !app_assoc.
    + simpl. by rewrite Hnext.
    + simpl. rewrite Hnext. split; [reflexivity|]. by rewrite Hbb.
    + simpl. rewrite Hup, Hi8, (ext_uintptr _ _ Hext), (ext_i8ptr _ _ Hext). by split.
  - constructor.
    + exact Hname.
    + apply Hglobals. by apply (ext_globals _ _ Hext2).
    + destruct Hsettled as [Hs|Hs]; [left; by apply Hglobals | by right].
    + exact Hdesc.
    + exists bb. split; [reflexivity|].
      repeat apply is_Some_blockAt_emitAt. by eexists.
Qed.

Lemma emit_eq i t c bb :
  llvm.insertBlock (builder c) = Some bb ->
  is_Some (blockAt (mod_ c) bb) ->
  emit i t c = Ok (llvm.Inst (llvm.nextInst (builder c)) t, emitAt bb i c).
Proof. intros Hbb Hb. apply emit_Ok. by exists bb. Qed.

Lemma parseMakeInterface_boxed val typ pos name descriptor c :
  boxed typ name descriptor c ->
  exists itf c',
    parseMakeInterface val typ pos c = Ok (itf, c') /\
    boxes typ val descriptor c itf c' /\
    llvm.globals (mod_ c') = llvm.globals (mod_ c) /\
    boxed typ name descriptor c'.
Proof.
  intros [Hname Htc Hms Hdesc [bb [Hbb Hb]]].
  set (ca := emitAt bb (llvm.PointerPack [val]) c).
  destruct (getTypeCode_found typ ca name Hname Htc) as [t Hg].
  destruct (getTypeMethodSet_settled typ ca Hms) as [ms Hmsv].
  assert (Hb1 : is_Some (blockAt (mod_ ca) bb)) by by apply is_Some_blockAt_emitAt.
  set (i1 := llvm.PtrToInt descriptor (uintptrType c)).
  set (cb := emitAt bb i1 ca).
  assert (Hb2 : is_Some (blockAt (mod_ cb) bb)) by by apply is_Some_blockAt_emitAt.
  set (i2 := llvm.InsertValue (llvm.Undef itfT)
               (llvm.Inst (S (llvm.nextInst (builder c))) (uintptrType c)) 0).
  set (cc := emitAt bb i2 cb).
  assert (Hb3 : is_Some (blockAt (mod_ cc) bb)) by by apply is_Some_blockAt_emitAt.
  set (i3 := llvm.InsertValue (llvm.Inst (S (S (llvm.nextInst (builder c)))) itfT)
               (llvm.Inst (llvm.nextInst (builder c)) (i8ptrType c)) 1).
  exists (llvm.Inst (S (S (S (llvm.nextInst (builder c))))) itfT), (emitAt bb i3 cc).
  split; [|split; [|split]].
  - unfold parseMakeInterface, emitPointerPack, CreatePtrToInt, CreateInsertValue.
    rewrite (bind_eq _ _ c ca (llvm.Inst (llvm.nextInst (builder c)) (i8ptrType c))).
    2:{ rewrite (bind_eq _ _ c c c) by reflexivity. by apply emit_eq. }
    rewrite (bind_eq _ _ _ _ _ Hg), (bind_eq _ _ _ _ _ Hmsv).
    rewrite (bind_eq _ _ ca ca (Some descriptor)).
    2:{ unfold NamedGlobal. rewrite (bind_eq _ _ ca ca ca) by reflexivity.
        unfold mret, M_ret.
        replace (llvm.NamedGlobal _ _) with (Some descriptor)
          by (symmetry; exact Hdesc).
        reflexivity. }
    rewrite (bind_eq _ _ ca ca descriptor) by reflexivity.
    rewrite (bind_eq _ _ ca ca ca) by reflexivity.
    rewrite (bind_eq _ _ ca cb (llvm.Inst (S (llvm.nextInst (builder c))) (uintptrType c))).
    2:{ by apply (emit_eq _ _ ca bb). }
    rewrite (bind_eq _ _ cb cc (llvm.Inst (S (S (llvm.nextInst (builder c)))) itfT)).
    2:{ by apply (emit_eq _ _ cb bb). }
    rewrite (bind_eq _ _ cc (emitAt bb i3 cc)
               (llvm.Inst (S (S (S (llvm.nextInst (builder c))))) itfT)).
    2:{ by apply (emit_eq _ _ cc bb). }
    reflexivity.
  - constructor; [|reflexivity|by split|by split].
    exists bb. split; [exact Hbb|].
    unfold cc, cb, ca in *.
    rewrite !blockInstrs_emitAt_eq by assumption.
    by rewrite <- !app_assoc.
  - reflexivity.
  - constructor; try assumption.
    exists bb. split; [reflexivity|]. by apply is_Some_blockAt_emitAt.
Qed.

Lemma forM_boxed (vals : list llvm.Value) typ pos name descriptor c :
  boxed typ name descriptor c ->
  exists itfs c',
    forM vals (fun val => parseMakeInterface val typ pos) c = Ok (itfs, c') /\
    length itfs = length vals /\
    llvm.globals (mod_ c') = llvm.globals (mod_ c) /\
    boxed typ name descriptor c'.
Proof.
  revert c. induction vals as [|val vals IH]; intros c Hboxed; simpl.
  - by exists [], c.
  - destruct (parseMakeInterface_boxed val typ pos _ _ _ Hboxed)
      as (itf & c1 & Hitf & _ & Hglobals & Hboxed1).
    destruct (IH c1 Hboxed1) as (itfs & c2 & Hitfs & Hlen & Hglobals2 & Hboxed2).
    exists (itf :: itfs), c2.
    rewrite (bind_eq _ _ _ _ _ Hitf), (bind_eq _ _ _ _ _ Hitfs).
    split; [reflexivity|]. split; [simpl; by rewrite Hlen|].
    split; [congruence | exact Hboxed2].
Qed.

(** C5: after a type has been boxed into an interface once, boxing it again,
    any number of times, refers to the same [typeInInterface:] global, found
    by its name, and adds no global to the module; and a second request for
    the method set of a type or for the shape of an interface type returns
    what the first returned and leaves the module as it is.  What a request
    returns is the address of the global of that name in the module (for a
    type without methods, which gets no global, a null pointer). *)
Theorem interning_idempotent :
  (forall val typ pos c itf c',
     parseMakeInterface val typ pos c = Ok (itf, c') ->
     exists name descriptor,
       getTypeCodeName typ = Ok name /\
       llvm.NamedGlobal (mod_ c') ("typeInInterface:type:" +:+ name) = Some descriptor /\
       boxes typ val descriptor c itf c' /\
       (forall val' pos', exists itf' c'',
          parseMakeInterface val' typ pos' c' = Ok (itf', c'') /\
          boxes typ val' descriptor c' itf' c'' /\
          llvm.globals (mod_ c'') = llvm.globals (mod_ c')) /\
       (forall vals pos', exists itfs c'',
          forM vals (fun val' => parseMakeInterface val' typ pos') c' = Ok (itfs, c'') /\
          llvm.globals (mod_ c'') = llvm.globals (mod_ c') /\
          llvm.NamedGlobal (mod_ c'') ("typeInInterface:type:" +:+ name) = Some descriptor)) /\
  (forall typ c v c',
     getTypeMethodSet typ c = Ok (v, c') ->
     getTypeMethodSet typ c' = Ok (v, c') /\
     ((exists g, llvm.NamedGlobal (mod_ c') (String_ typ +:+ "$methodset") = Some g /\
                 v = llvm.ConstGEP g [zero32; zero32]) \/
      (MethodSet typ = [] /\ c' = c /\
       v = llvm.ConstPointerNull
             (llvm.PointerType (getLLVMRuntimeType "interfaceMethodInfo") 0)))) /\
  (forall typ c v c',
     getInterfaceMethodSet typ c = Ok (v, c') ->
     getInterfaceMethodSet typ c' = Ok (v, c') /\
     exists g, llvm.NamedGlobal (mod_ c') (String_ typ +:+ "$interface") = Some g /\
               v = llvm.ConstGEP g [zero32; zero32]).
Proof.
  split; [|split].
  - intros val typ pos c itf c' Hc.
    destruct (parseMakeInterface_boxes _ _ _ _ _ _ Hc) as (name & descriptor & Hboxes & Hboxed).
    exists name, descriptor.
    split; [apply Hboxed|]. split; [apply Hboxed|]. split; [exact Hboxes|]. split.
    + intros val' pos'.
      destruct (parseMakeInterface_boxed val' typ pos' _ _ _ Hboxed)
        as (itf' & c'' & Hitf' & Hboxes' & Hglobals & _).
      by exists itf', c''.
    + intros vals pos'.
      destruct (forM_boxed vals typ pos' _ _ _ Hboxed)
        as (itfs & c'' & Hitfs & _ & Hglobals & Hboxed').
      exists itfs, c''. split; [exact Hitfs|]. split; [exact Hglobals|]. apply Hboxed'.
  - intros typ c v c' Hc. split; [|exact (getTypeMethodSet_returns _ _ _ _ Hc)].
    by apply getTypeMethodSet_spec in Hc as (_ & _ & ?).
  - intros typ c v c' Hc. split; [|exact (getInterfaceMethodSet_returns _ _ _ _ Hc)].
    by apply getInterfaceMethodSet_spec in Hc as (_ & ?).
Qed.

(** *** Wrappers *)

Definition singlePointerReceiver (f : ssa.Function) : bool :=
  match ssa.Params f with
  | recv :: _ =>
      bool_decide (length (expandFormalParamType (getLLVMType (snd recv))) = 1)
      && llvm.isPointerTypeKind (getLLVMType (snd recv))
  | [] => false
  end.

Lemma getInterfaceInvokeWrapper_elided f c w c' :
  getInterfaceInvokeWrapper f c = Ok (w, c') ->
  llvm.NamedFunction (mod_ c) (linkName f +:+ "$invoke") = None ->
  singlePointerReceiver f = true ->
  llvm.NamedFunction (mod_ c) (linkName f) = Some w /\ c' = c.
Proof.
  unfold getInterfaceInvokeWrapper, getFunction, singlePointerReceiver.
  unfold_M. intros Hc Hnone Hsingle. rewrite Hnone in Hc.
  destruct (ssa.Params f) as [|recv rest]; [discriminate|].
  rewrite Hsingle in Hc.
  destruct (llvm.NamedFunction (mod_ c) (linkName f)); by simplify_eq.
Qed.

Lemma getInterfaceInvokeWrapper_generated f c w c' :
  getInterfaceInvokeWrapper f c = Ok (w, c') ->
  (llvm.functions (mod_ c') <> llvm.functions (mod_ c) \/
   interfaceInvokeWrappers c' <> interfaceInvokeWrappers c) ->
  singlePointerReceiver f = false /\
  llvm.Name w = linkName f +:+ "$invoke" /\
  llvm.functions (mod_ c) !! llvm.Name w = None /\
  is_Some (llvm.functions (mod_ c') !! llvm.Name w) /\
  exists recv,
    interfaceInvokeWrappers c' = interfaceInvokeWrappers c ++ [mkWrapper f w recv].
Proof.
  unfold getInterfaceInvokeWrapper, getFunction, singlePointerReceiver.
  unfold_M. unfold_llvm. intros Hc Hchanged.
  repeat case_match; simplify_eq; try (by destruct Hchanged).
  clear Hchanged. simpl. rewrite lookup_insert_eq.
  split; [done|]. split; [done|]. split; [done|]. split; by eexists.
Qed.

Lemma getInterfaceInvokeWrapper_wide f c fn :
  ssa.Params f <> [] ->
  singlePointerReceiver f = false ->
  llvm.NamedFunction (mod_ c) (linkName f +:+ "$invoke") = None ->
  llvm.NamedFunction (mod_ c) (linkName f) = Some fn ->
  exists w c' recv,
    getInterfaceInvokeWrapper f c = Ok (w, c') /\
    llvm.Name w = linkName f +:+ "$invoke" /\
    llvm.NamedFunction (mod_ c') (linkName f +:+ "$invoke") = Some w /\
    interfaceInvokeWrappers c' = interfaceInvokeWrappers c ++ [mkWrapper f w recv].
Proof.
  unfold getInterfaceInvokeWrapper, getFunction, singlePointerReceiver.
  intros Hparams Hsingle Hnone Hfn.
  destruct (ssa.Params f) as [|recv rest]; [done|].
  unfold_M. rewrite Hnone, Hfn, Hsingle. unfold_llvm. simpl.
  eexists _, _, _. split; [reflexivity|]. simpl.
  rewrite lookup_insert_eq. done.
Qed.

(** The linkage and the [unnamed_addr] flag of a function of the module. *)
Definition fnAttrs (c : Compiler) (name : string) : option (llvm.Linkage * bool) :=
  (fun d => (llvm.fnLinkage d, llvm.fnUnnamedAddr d)) <$> llvm.functions (mod_ c) !! name.

Definition sameAttrs (c c' : Compiler) : Prop :=
  forall name, fnAttrs c' name = fnAttrs c name.

Lemma sameAttrs_refl c : sameAttrs c c.
Proof. by intros name. Qed.

Lemma sameAttrs_trans c1 c2 c3 : sameAttrs c1 c2 -> sameAttrs c2 c3 -> sameAttrs c1 c3.
Proof. intros H12 H23 name. by rewrite H23. Qed.

Lemma fnAttrs_alter (f : llvm.FunctionDef -> llvm.FunctionDef) (fn name : string) (c : Compiler) m :
  (forall d, llvm.fnLinkage (f d) = llvm.fnLinkage d /\
             llvm.fnUnnamedAddr (f d) = llvm.fnUnnamedAddr d) ->
  llvm.functions m = alter f fn (llvm.functions (mod_ c)) ->
  (fun d => (llvm.fnLinkage d, llvm.fnUnnamedAddr d)) <$> llvm.functions m !! name
  = fnAttrs c name.
Proof.
  intros Hf ->. unfold fnAttrs. rewrite lookup_alter. case_decide; [subst|done].
  destruct (llvm.functions (mod_ c) !! name) as [d|]; simpl; [|done].
  by destruct (Hf d) as [-> ->].
Qed.

Lemma emit_sameAttrs i t c v c' : emit i t c = Ok (v, c') -> sameAttrs c c'.
Proof.
  intros [bb (_ & _ & _ & ->)]%emit_Ok name.
  unfold fnAttrs at 1. eapply fnAttrs_alter; [|reflexivity]. by intros d.
Qed.

Lemma AddBasicBlock_sameAttrs fn name c bb c' :
  AddBasicBlock fn name c = Ok (bb, c') -> sameAttrs c c'.
Proof.
  unfold AddBasicBlock. intros Hc. case_match; simplify_eq. intros n.
  unfold fnAttrs at 1. eapply fnAttrs_alter; [|reflexivity]. by intros d'.
Qed.

Lemma forM_sameAttrs {A B : Type} (f : A -> M B) (l : list A) :
  (forall a c b c', f a c = Ok (b, c') -> sameAttrs c c') ->
  forall c bs c', forM l f c = Ok (bs, c') -> sameAttrs c c'.
Proof.
  intros Hf. induction l as [|a l IH]; intros c bs c' Hc; simpl in Hc.
  - apply mret_Ok in Hc as [-> ->]. apply sameAttrs_refl.
  - apply bind_Ok in Hc as [b [c1 [Hb Hc]]].
    apply bind_Ok in Hc as [bs' [c2 [Hbs Hc]]].
    apply mret_Ok in Hc as [-> ->]. eauto using sameAttrs_trans.
Qed.

Lemma emitPointerUnpack_sameAttrs ptr ts c vs c' :
  emitPointerUnpack ptr ts c = Ok (vs, c') -> sameAttrs c c'.
Proof.
  unfold emitPointerUnpack. intros Hc.
  apply bind_Ok in Hc as [p [c1 [Hp Hc]]].
  apply emit_sameAttrs in Hp.
  apply forM_sameAttrs in Hc; [by eapply sameAttrs_trans|].
  intros a c0 b c0'. apply emit_sameAttrs.
Qed.

Lemma expandFormalParam_sameAttrs v c vs c' :
  expandFormalParam v c = Ok (vs, c') -> sameAttrs c c'.
Proof.
  unfold expandFormalParam. intros Hc.
  assert (Hloop : forall leaves,
    forM (indexed leaves) (fun it => emit (llvm.ExtractValue v it.1) it.2) c = Ok (vs, c') ->
    sameAttrs c c').
  { intros leaves. apply forM_sameAttrs. intros a c0 b c0'. apply emit_sameAttrs. }
  destruct (expandFormalParamType (llvm.typeOf v)) as [|t [|t' ts]]; eauto.
  apply mret_Ok in Hc as [-> ->]. apply sameAttrs_refl.
Qed.

Lemma createInterfaceInvokeWrapper_attrs state c u c' :
  createInterfaceInvokeWrapper state c = Ok (u, c') ->
  fnAttrs c' (llvm.Name (wrapper state)) = Some (llvm.InternalLinkage, true).
Proof.
  unfold createInterfaceInvokeWrapper. intros Hc.
  apply bind_Ok in Hc as [u1 [c1 [H1 Hc]]].
  apply bind_Ok in Hc as [u2 [c2 [H2 Hc]]].
  apply bind_Ok in Hc as [block [c3 [Hblock Hc]]].
  assert (Hattrs : fnAttrs c3 (llvm.Name (wrapper state)) = Some (llvm.InternalLinkage, true)).
  { rewrite (AddBasicBlock_sameAttrs _ _ _ _ _ Hblock).
    unfold AddBasicBlock in Hblock.
    destruct (llvm.functions (mod_ c2) !! llvm.Name (wrapper state)) as [d|] eqn:Hd;
      [|discriminate].
    revert Hd. unfold_M. unfold_llvm. simplify_eq. unfold fnAttrs. simpl.
    rewrite !lookup_alter_eq.
    destruct (llvm.functions (mod_ c) !! llvm.Name (wrapper state)); [done|discriminate]. }
  clear H1 H2 Hblock.
  enough (sameAttrs c3 c') as Hsame by by rewrite Hsame.
  apply bind_Ok in Hc as [u3 [c4 [H3 Hc]]].
  assert (sameAttrs c3 c4) as H34.
  { unfold SetInsertPointAtEnd, modify in H3. simplify_eq. by intros name. }
  eapply sameAttrs_trans; [exact H34|]. clear H34 H3 Hattrs.
  destruct (ParamsOf (wrapper state)) as [|param0 rest]; [discriminate|].
  apply bind_Ok in Hc as [unpacked [c5 [Hunpack Hc]]].
  apply emitPointerUnpack_sameAttrs in Hunpack.
  eapply sameAttrs_trans; [exact Hunpack|].
  destruct unpacked as [|receiverValue ?]; [discriminate|].
  apply bind_Ok in Hc as [expanded [c6 [Hexp Hc]]].
  apply expandFormalParam_sameAttrs in Hexp.
  eapply sameAttrs_trans; [exact Hexp|].
  apply bind_Ok in Hc as [fn [c7 [Hfn Hc]]].
  assert (c7 = c6) as -> by (unfold getFunction in Hfn; unfold_M; by simplify_eq).
  destruct fn as [fn|]; [|discriminate].
  unfold CreateCall, CreateRetVoid, CreateRet in Hc.
  destruct (llvm.isVoidTypeKind _).
  - apply bind_Ok in Hc as [r1 [c8 [Hr1 Hc]]].
    apply bind_Ok in Hc as [r2 [c9 [Hr2 Hc]]].
    apply mret_Ok in Hc as [_ ->].
    eauto using sameAttrs_trans, emit_sameAttrs.
  - apply bind_Ok in Hc as [r1 [c8 [Hr1 Hc]]].
    apply bind_Ok in Hc as [r2 [c9 [Hr2 Hc]]].
    apply mret_Ok in Hc as [_ ->].
    eauto using sameAttrs_trans, emit_sameAttrs.
Qed.

Lemma getMethodSignature_functions method c g c' :
  getMethodSignature method c = Ok (g, c') ->
  llvm.functions (mod_ c') = llvm.functions (mod_ c) /\
  interfaceInvokeWrappers c' = interfaceInvokeWrappers c /\
  uintptrType c' = uintptrType c.
Proof.
  unfold getMethodSignature. unfold_M. unfold_llvm. intros Hc.
  repeat case_match; by simplify_eq.
Qed.

Lemma methodInfo_elided method c v c' :
  methodInfo method c = Ok (v, c') ->
  llvm.NamedFunction (mod_ c) (linkName (snd method) +:+ "$invoke") = None ->
  singlePointerReceiver (snd method) = true ->
  exists signature fn,
    llvm.NamedFunction (mod_ c) (linkName (snd method)) = Some fn /\
    v = llvm.ConstNamedStruct (getLLVMRuntimeType "interfaceMethodInfo")
          [signature; llvm.ConstPtrToInt fn (uintptrType c)] /\
    llvm.functions (mod_ c') = llvm.functions (mod_ c) /\
    interfaceInvokeWrappers c' = interfaceInvokeWrappers c.
Proof.
  unfold methodInfo. intros Hc Hnone Hsingle.
  apply bind_Ok in Hc as [sg [c1 [Hsg Hc]]].
  apply getMethodSignature_functions in Hsg as (Hfuncs & Hwrappers & Hup).
  apply bind_Ok in Hc as [fn [c2 [Hfn Hc]]].
  assert (c2 = c1) as -> by (unfold getFunction in Hfn; unfold_M; by simplify_eq).
  destruct fn as [fn|]; [|discriminate].
  apply bind_Ok in Hc as [w [c3 [Hw Hc]]].
  apply getInterfaceInvokeWrapper_elided in Hw as [Hraw ->]; [|
    unfold llvm.NamedFunction in *; by rewrite Hfuncs | exact Hsingle].
  apply bind_Ok in Hc as [c4 [c5 [Hget Hc]]].
  apply get_Ok in Hget as [-> ->]. apply mret_Ok in Hc as [-> ->].
  exists sg, w. rewrite Hup. split; [|done].
  unfold llvm.NamedFunction in *. by rewrite <- Hfuncs.
Qed.

(** *** The method set that [getTypeMethodSet] emits *)

Lemma append_inj_suffix (a b s : string) : a +:+ s = b +:+ s -> a = b.
Proof.
  revert b. induction a as [|x a IH]; intros [|y b] Heq.
  - reflexivity.
  - apply (f_equal String.length) in Heq.
    rewrite !length_append in Heq. simpl in Heq. lia.
  - apply (f_equal String.length) in Heq.
    rewrite !length_append in Heq. simpl in Heq. lia.
  - change (String.String x (a +:+ s) = String.String y (b +:+ s)) in Heq.
    injection Heq as -> Heq. f_equal. by apply IH.
Qed.

Lemma forM_lookup {A B : Type} (f : A -> M B) (l : list A) c bs c' (i : nat) (a : A) :
  forM l f c = Ok (bs, c') -> l !! i = Some a ->
  exists ci b ci' pre post,
    forM (take i l) f c = Ok (pre, ci) /\ f a ci = Ok (b, ci') /\
    forM (drop (S i) l) f ci' = Ok (post, c') /\ bs !! i = Some b.
Proof.
  revert c bs i. induction l as [|x l IH]; intros c bs i Hc Hi; [done|].
  simpl in Hc.
  apply bind_Ok in Hc as [b [c1 [Hb Hc]]].
  apply bind_Ok in Hc as [bs' [c2 [Hbs Hc]]].
  apply mret_Ok in Hc as [-> ->].
  destruct i as [|i]; simpl in Hi.
  - injection Hi as ->. by exists c, b, c1, [], bs'.
  - destruct (IH _ _ _ Hbs Hi) as (ci & b' & ci' & pre & post & Hpre & Hf & Hpost & Hlook).
    exists ci, b', ci', (b :: pre), post. simpl.
    rewrite (bind_eq _ _ _ _ _ Hb), (bind_eq _ _ _ _ _ Hpre). done.
Qed.

Lemma forM_preserves {A B : Type} (P : Compiler -> Prop) (Q : A -> Prop) (f : A -> M B)
    (l : list A) :
  (forall a c b c', Q a -> P c -> f a c = Ok (b, c') -> P c') ->
  Forall Q l ->
  forall c bs c', P c -> forM l f c = Ok (bs, c') -> P c'.
Proof.
  intros Hf Hall. induction Hall as [|a l Ha _ IH]; intros c bs c' HP Hc; simpl in Hc.
  - by apply mret_Ok in Hc as [-> ->].
  - apply bind_Ok in Hc as [b [c1 [Hb Hc]]].
    apply bind_Ok in Hc as [bs' [c2 [Hbs Hc]]].
    apply mret_Ok in Hc as [-> ->]. eauto.
Qed.

Definition methodInfoType : llvm.Type_ := getLLVMRuntimeType "interfaceMethodInfo".

(** The name of the wrapper of a function. *)
Definition wrapperName (f : ssa.Function) : string := linkName f +:+ "$invoke".

Lemma getMethodSignature_name method c g c' :
  getMethodSignature method c = Ok (g, c') ->
  llvm.Name g = "func " +:+ MethodSignature method.
Proof.
  unfold getMethodSignature. unfold_M. unfold_llvm. intros Hc.
  repeat case_match; by simplify_eq.
Qed.

(** What [getInterfaceInvokeWrapper] does to the functions of the module and
    to the scheduled wrappers: nothing, or it adds the wrapper of a function
    whose receiver is not a single pointer. *)
Lemma getInterfaceInvokeWrapper_functions f c w c' :
  getInterfaceInvokeWrapper f c = Ok (w, c') ->
  uintptrType c' = uintptrType c /\
  ((llvm.functions (mod_ c') = llvm.functions (mod_ c) /\
    interfaceInvokeWrappers c' = interfaceInvokeWrappers c) \/
   (singlePointerReceiver f = false /\
    exists d recv,
      llvm.functions (mod_ c') = <[wrapperName f := d]> (llvm.functions (mod_ c)) /\
      interfaceInvokeWrappers c' = interfaceInvokeWrappers c ++ [mkWrapper f w recv])).
Proof.
  unfold getInterfaceInvokeWrapper, getFunction, singlePointerReceiver, wrapperName.
  unfold_M. unfold_llvm. intros Hc.
  repeat case_match; simplify_eq; simpl; (split; [done|]); try (by left).
  right. split; [done|]. by eexists _, _.
Qed.

Lemma methodInfo_functions method c v c' :
  methodInfo method c = Ok (v, c') ->
  uintptrType c' = uintptrType c /\
  ((llvm.functions (mod_ c') = llvm.functions (mod_ c) /\
    interfaceInvokeWrappers c' = interfaceInvokeWrappers c) \/
   (singlePointerReceiver (snd method) = false /\
    exists d w recv,
      llvm.functions (mod_ c') = <[wrapperName (snd method) := d]> (llvm.functions (mod_ c)) /\
      interfaceInvokeWrappers c' =
        interfaceInvokeWrappers c ++ [mkWrapper (snd method) w recv])).
Proof.
  unfold methodInfo. intros Hc.
  apply bind_Ok in Hc as [sg [c1 [Hsg Hc]]].
  apply getMethodSignature_functions in Hsg as (Hfuncs & Hwrappers & Hup).
  apply bind_Ok in Hc as [fn [c2 [Hfn Hc]]].
  assert (c2 = c1) as -> by (unfold getFunction in Hfn; unfold_M; by simplify_eq).
  destruct fn as [fn|]; [|discriminate].
  apply bind_Ok in Hc as [w [c3 [Hw Hc]]].
  apply getInterfaceInvokeWrapper_functions in Hw as [Hup' Hw].
  apply bind_Ok in Hc as [c4 [c5 [Hget Hc]]].
  apply get_Ok in Hget as [-> ->]. apply mret_Ok in Hc as [-> ->].
  rewrite <- Hfuncs, <- Hwrappers. split; [congruence|].
  destruct Hw as [Hw | (Hsingle & d & recv & Hw)]; [by left | right].
  split; [done|]. by exists d, w, recv.
Qed.

Lemma methodInfo_signature method c v c' :
  methodInfo method c = Ok (v, c') ->
  exists signature fn,
    v = llvm.ConstNamedStruct methodInfoType [signature; llvm.ConstPtrToInt fn (uintptrType c)] /\
    llvm.Name signature = "func " +:+ MethodSignature (fst method).
Proof.
  unfold methodInfo. intros Hc.
  apply bind_Ok in Hc as [sg [c1 [Hsg Hc]]].
  pose proof (getMethodSignature_name _ _ _ _ Hsg) as Hname.
  apply getMethodSignature_functions in Hsg as (Hfuncs & Hwrappers & Hup).
  apply bind_Ok in Hc as [fn [c2 [Hfn Hc]]].
  assert (c2 = c1) as -> by (unfold getFunction in Hfn; unfold_M; by simplify_eq).
  destruct fn as [fn|]; [|discriminate].
  apply bind_Ok in Hc as [w [c3 [Hw Hc]]].
  apply getInterfaceInvokeWrapper_functions in Hw as [Hup' _].
  apply bind_Ok in Hc as [c4 [c5 [Hget Hc]]].
  apply get_Ok in Hget as [-> ->]. apply mret_Ok in Hc as [-> ->].
  exists sg, w. split; [|done]. unfold methodInfoType. congruence.
Qed.

(** No function of the module has the name of the wrapper of [f]. *)
Definition wrapperFree (f : ssa.Function) (c : Compiler) : Prop :=
  llvm.NamedFunction (mod_ c) (wrapperName f) = None.

Lemma NamedFunction_None m name :
  llvm.NamedFunction m name = None <-> llvm.functions m !! name = None.
Proof. unfold llvm.NamedFunction. by destruct (llvm.functions m !! name). Qed.

Lemma methodInfo_wrapperFree f method c v c' :
  (linkName (snd method) = linkName f -> singlePointerReceiver (snd method) = true) ->
  wrapperFree f c ->
  methodInfo method c = Ok (v, c') ->
  wrapperFree f c'.
Proof.
  unfold wrapperFree. rewrite !NamedFunction_None. intros Hlink Hfree Hc.
  apply methodInfo_functions in Hc as [_ [[-> _] | (Hsingle & d & w & recv & -> & _)]];
    [done|].
  rewrite lookup_insert_ne; [done|].
  intros Heq%append_inj_suffix. rewrite (Hlink Heq) in Hsingle. discriminate.
Qed.

Lemma methodInfo_wrappers c0 method c v c' :
  (forall w, w ∈ interfaceInvokeWrappers c ->
     w ∈ interfaceInvokeWrappers c0 \/ singlePointerReceiver (wrapperFn w) = false) ->
  methodInfo method c = Ok (v, c') ->
  forall w, w ∈ interfaceInvokeWrappers c' ->
    w ∈ interfaceInvokeWrappers c0 \/ singlePointerReceiver (wrapperFn w) = false.
Proof.
  intros Hinv Hc w Hw.
  apply methodInfo_functions in Hc as [_ [[_ Heq] | (Hsingle & d & w' & recv & _ & Heq)]];
    rewrite Heq in Hw; [by apply Hinv|].
  apply elem_of_app in Hw as [Hw | ->%list_elem_of_singleton]; [by apply Hinv | by right].
Qed.

Lemma getTypeMethodSet_entry typ c v c' (i : nat) method f :
  getTypeMethodSet typ c = Ok (v, c') ->
  llvm.NamedGlobal (mod_ c) (String_ typ +:+ "$methodset") = None ->
  MethodSet typ !! i = Some (method, f) ->
  singlePointerReceiver f = true ->
  wrapperFree f c ->
  Forall (fun m => linkName (snd m) = linkName f -> singlePointerReceiver (snd m) = true)
         (MethodSet typ) ->
  exists entries signature fn,
    llvm.globals (mod_ c') !! (String_ typ +:+ "$methodset") =
      Some (llvm.mkGlobal (llvm.ArrayType methodInfoType (length (MethodSet typ)))
              (Some (llvm.ConstArray methodInfoType entries)) true llvm.PrivateLinkage) /\
    length entries = length (MethodSet typ) /\
    entries !! i = Some (llvm.ConstNamedStruct methodInfoType
                           [signature; llvm.ConstPtrToInt fn (uintptrType c)]) /\
    llvm.Name signature = "func " +:+ MethodSignature method /\
    llvm.NamedFunction (mod_ c') (linkName f) = Some fn /\
    wrapperFree f c' /\
    (forall w, w ∈ interfaceInvokeWrappers c' -> wrapperFn w = f ->
               w ∈ interfaceInvokeWrappers c).
Proof.
  intros Hc Hnone Hi Hsingle Hfree Hlink.
  unfold getTypeMethodSet in Hc.
  apply bind_Ok in Hc as [g [c1 [Hg Hc]]].
  assert (c1 = c /\ g = None) as [-> ->].
  { unfold_M. simplify_eq. by rewrite Hnone. }
  case_bool_decide as Hlen.
  { apply nil_length_inv in Hlen. by rewrite Hlen in Hi. }
  apply bind_Ok in Hc as [methods [c2 [Hms Hc]]].
  pose proof (forM_length _ _ _ _ _ Hms) as Hlength.
  destruct (forM_lookup _ _ _ _ _ _ _ Hms Hi)
    as (ci & b & ci' & pre & post & Hpre & Hb & Hpost & Hlook).
  (* the state in which the entry is computed *)
  assert (Hfree_i : wrapperFree f ci).
  { eapply (forM_preserves (wrapperFree f) _ methodInfo (take i (MethodSet typ)));
      [| apply Forall_take, Hlink | exact Hfree | exact Hpre].
    intros a c0 b0 c0' Ha HP Hrun. exact (methodInfo_wrapperFree f a c0 b0 c0' Ha HP Hrun). }
  assert (Hup_i : uintptrType ci = uintptrType c).
  { eapply (forM_preserves (fun c0 => uintptrType c0 = uintptrType c) (fun _ => True)
              methodInfo (take i (MethodSet typ))); [| by apply Forall_true | done | exact Hpre].
    intros a c0 b0 c0' _ HP Hrun. apply methodInfo_functions in Hrun as [-> _]. exact HP. }
  destruct (methodInfo_signature _ _ _ _ Hb) as (signature & fn & Hv & Hname).
  destruct (methodInfo_elided _ _ _ _ Hb Hfree_i Hsingle)
    as (signature' & fn' & Hraw & Hv' & Hfuncs & _).
  rewrite Hv in Hv'. injection Hv' as <- <-.
  (* the state after the loop *)
  assert (Hfree_2 : wrapperFree f c2).
  { eapply (forM_preserves (wrapperFree f) _ methodInfo (MethodSet typ));
      [| exact Hlink | exact Hfree | exact Hms].
    intros a c0 b0 c0' Ha HP Hrun. exact (methodInfo_wrapperFree f a c0 b0 c0' Ha HP Hrun). }
  assert (Hraw_2 : llvm.NamedFunction (mod_ c2) (linkName f) = Some fn).
  { assert (Hext : extends ci c2).
    { eapply extends_trans; [eapply methodInfo_extends, Hb|].
      eapply forM_extends; [apply @methodInfo_extends | exact Hpost]. }
    unfold llvm.NamedFunction in *. simpl in Hraw.
    destruct (llvm.functions (mod_ ci) !! linkName f) as [d|] eqn:Hd; [|discriminate].
    by rewrite (ext_functions _ _ Hext _ _ Hd). }
  assert (Hwrappers_2 : forall w, w ∈ interfaceInvokeWrappers c2 ->
            w ∈ interfaceInvokeWrappers c \/ singlePointerReceiver (wrapperFn w) = false).
  { eapply (forM_preserves
              (fun c0 => forall w, w ∈ interfaceInvokeWrappers c0 ->
                 w ∈ interfaceInvokeWrappers c \/ singlePointerReceiver (wrapperFn w) = false)
              (fun _ => True) methodInfo (MethodSet typ));
      [| by apply Forall_true | by left | exact Hms].
    intros a c0 b0 c0' _ HP Hrun. by eapply methodInfo_wrappers. }
  unfold_M. unfold_llvm. simplify_eq. simpl.
  exists methods, signature, fn.
  rewrite !lookup_alter_eq, lookup_insert_eq. simpl. rewrite Hlength. rewrite Hup_i in Hlook.
  split; [done|]. split; [done|]. split; [done|]. split; [done|].
  split; [exact Hraw_2|]. split; [exact Hfree_2|].
  intros w Hw Hf. destruct (Hwrappers_2 w Hw) as [?|Hno]; [done|].
  rewrite Hf, Hsingle in Hno. discriminate.
Qed.

(** C7: in the method set that [getTypeMethodSet] emits for a type (the
    initializer of its [$methodset] global, one entry for every method of
    the type), the entry of a method whose receiver is a single pointer is
    [{signature, ptrtoint of the function itself}], and no wrapper is
    generated for it: after the call the module still has no function under
    the name of its [$invoke] wrapper and no wrapper is scheduled for it.
    When [getInterfaceInvokeWrapper] does add a function, the receiver is
    not a single pointer and the function is the [$invoke] wrapper that is
    scheduled, and for a declared method whose receiver is not a single
    pointer it does add and schedule the wrapper; finishing a scheduled
    wrapper gives it internal linkage and marks its address unnamed.  The methods of the type are taken to have
    link names that differ from one another. *)
Theorem wrapper_elision :
  (forall typ c v c' (i : nat) method f,
     getTypeMethodSet typ c = Ok (v, c') ->
     llvm.NamedGlobal (mod_ c) (String_ typ +:+ "$methodset") = None ->
     MethodSet typ !! i = Some (method, f) ->
     singlePointerReceiver f = true ->
     llvm.NamedFunction (mod_ c) (linkName f +:+ "$invoke") = None ->
     NoDup ((fun m => linkName (snd m)) <$> MethodSet typ) ->
     exists entries signature fn,
       llvm.globals (mod_ c') !! (String_ typ +:+ "$methodset") =
         Some (llvm.mkGlobal
                 (llvm.ArrayType (getLLVMRuntimeType "interfaceMethodInfo")
                    (length (MethodSet typ)))
                 (Some (llvm.ConstArray (getLLVMRuntimeType "interfaceMethodInfo") entries))
                 true llvm.PrivateLinkage) /\
       length entries = length (MethodSet typ) /\
       entries !! i =
         Some (llvm.ConstNamedStruct (getLLVMRuntimeType "interfaceMethodInfo")
                 [signature; llvm.ConstPtrToInt fn (uintptrType c)]) /\
       llvm.Name signature = "func " +:+ MethodSignature method /\
       llvm.NamedFunction (mod_ c') (linkName f) = Some fn /\
       llvm.NamedFunction (mod_ c') (linkName f +:+ "$invoke") = None /\
       (forall w, w ∈ interfaceInvokeWrappers c' -> wrapperFn w = f ->
                  w ∈ interfaceInvokeWrappers c)) /\
  (forall f c w c',
     getInterfaceInvokeWrapper f c = Ok (w, c') ->
     llvm.functions (mod_ c') <> llvm.functions (mod_ c) \/
     interfaceInvokeWrappers c' <> interfaceInvokeWrappers c ->
     singlePointerReceiver f = false /\
     llvm.Name w = linkName f +:+ "$invoke" /\
     llvm.functions (mod_ c) !! llvm.Name w = None /\
     is_Some (llvm.functions (mod_ c') !! llvm.Name w) /\
     exists recv,
       interfaceInvokeWrappers c' = interfaceInvokeWrappers c ++ [mkWrapper f w recv]) /\
  (forall f c fn,
     ssa.Params f <> [] ->
     singlePointerReceiver f = false ->
     llvm.NamedFunction (mod_ c) (linkName f +:+ "$invoke") = None ->
     llvm.NamedFunction (mod_ c) (linkName f) = Some fn ->
     exists w c' recv,
       getInterfaceInvokeWrapper f c = Ok (w, c') /\
       llvm.Name w = linkName f +:+ "$invoke" /\
       llvm.NamedFunction (mod_ c') (linkName f +:+ "$invoke") = Some w /\
       interfaceInvokeWrappers c' = interfaceInvokeWrappers c ++ [mkWrapper f w recv]) /\
  (forall state c u c',
     createInterfaceInvokeWrapper state c = Ok (u, c') ->
     fnAttrs c' (llvm.Name (wrapper state)) = Some (llvm.InternalLinkage, true)).
Proof.
  split; [|split; [|split]].
  - intros typ c v c' i method f Hc Hnone Hi Hsingle Hfree Hnames.
    apply (getTypeMethodSet_entry typ c v c' i method f Hc Hnone Hi Hsingle Hfree).
    apply Forall_lookup. intros j m Hj Hlink.
    assert (j = i) as ->.
    { eapply (NoDup_lookup _ j i (linkName f) Hnames); rewrite list_lookup_fmap.
      - rewrite Hj. simpl. by rewrite Hlink.
      - by rewrite Hi. }
    rewrite Hi in Hj. by injection Hj as <-.
  - apply getInterfaceInvokeWrapper_generated.
  - apply getInterfaceInvokeWrapper_wide.
  - apply createInterfaceInvokeWrapper_attrs.
Qed.

End interface_properties.

Definition boxedInt8 : llvm.Value := llvm.Param "main.f" 3 (llvm.IntType 8).

Definition shapeI : Type_ := Named "main.I" (Interface [("M", Signature None [] [])]).

Lemma interning_idempotent_witness :
  (exists itf c',
     parseMakeInterface (H := exampleProgram) boxedInt8 (Basic Int8) 0 exampleCompiler
       = Ok (itf, c') /\
     exists name descriptor,
       getTypeCodeName (Basic Int8) = Ok name /\
       llvm.NamedGlobal (mod_ c') ("typeInInterface:type:" +:+ name) = Some descriptor /\
       boxes (Basic Int8) boxedInt8 descriptor exampleCompiler itf c' /\
       (forall val' pos', exists itf' c'',
          parseMakeInterface (H := exampleProgram) val' (Basic Int8) pos' c' = Ok (itf', c'') /\
          boxes (Basic Int8) val' descriptor c' itf' c'' /\
          llvm.globals (mod_ c'') = llvm.globals (mod_ c')) /\
       (forall vals pos', exists itfs c'',
          forM vals (fun val' => parseMakeInterface (H := exampleProgram) val' (Basic Int8) pos') c'
            = Ok (itfs, c'') /\
          llvm.globals (mod_ c'') = llvm.globals (mod_ c') /\
          llvm.NamedGlobal (mod_ c'') ("typeInInterface:type:" +:+ name) = Some descriptor)) /\
  (exists v c',
     getTypeMethodSet (H := exampleProgram) (Pointer typeT) exampleCompiler = Ok (v, c') /\
     getTypeMethodSet (H := exampleProgram) (Pointer typeT) c' = Ok (v, c')) /\
  (exists v c',
     getInterfaceMethodSet (H := exampleProgram) shapeI exampleCompiler = Ok (v, c') /\
     getInterfaceMethodSet (H := exampleProgram) shapeI c' = Ok (v, c')).
Proof.
  pose proof (interning_idempotent (H := exampleProgram)) as (Hbox & Hset & Hshape).
  split; [|split].
  - eexists _, _. split; [vm_compute; reflexivity|].
    apply (Hbox boxedInt8 (Basic Int8) 0%nat exampleCompiler).
    vm_compute; reflexivity.
  - eexists _, _. split; [vm_compute; reflexivity|].
    eapply proj1, (Hset (Pointer typeT) exampleCompiler). vm_compute; reflexivity.
  - eexists _, _. split; [vm_compute; reflexivity|].
    eapply proj1, (Hshape shapeI exampleCompiler). vm_compute; reflexivity.
Defined.

Lemma wrapper_elision_witness :
  (exists v c',
     getTypeMethodSet (H := exampleProgram) (Pointer typeT) exampleCompiler = Ok (v, c') /\
     llvm.NamedGlobal (mod_ exampleCompiler) (String_ (Pointer typeT) +:+ "$methodset") = None /\
     MethodSet (Program := exampleProgram) (Pointer typeT) !! 0%nat = Some methodOfT /\
     singlePointerReceiver (H := exampleProgram) (snd methodOfT) = true /\
     llvm.NamedFunction (mod_ exampleCompiler)
       (linkName (Program := exampleProgram) (snd methodOfT) +:+ "$invoke") = None /\
     exists entries signature fn,
       llvm.globals (mod_ c') !! (String_ (Pointer typeT) +:+ "$methodset") =
         Some (llvm.mkGlobal
                 (llvm.ArrayType (getLLVMRuntimeType "interfaceMethodInfo")
                    (length (MethodSet (Program := exampleProgram) (Pointer typeT))))
                 (Some (llvm.ConstArray (getLLVMRuntimeType "interfaceMethodInfo") entries))
                 true llvm.PrivateLinkage) /\
       length entries = length (MethodSet (Program := exampleProgram) (Pointer typeT)) /\
       entries !! 0%nat =
         Some (llvm.ConstNamedStruct (getLLVMRuntimeType "interfaceMethodInfo")
                 [signature; llvm.ConstPtrToInt fn (uintptrType exampleCompiler)]) /\
       llvm.Name signature =
         "func " +:+ MethodSignature (Program := exampleProgram) (fst methodOfT) /\
       llvm.NamedFunction (mod_ c') (linkName (Program := exampleProgram) (snd methodOfT))
         = Some fn /\
       llvm.NamedFunction (mod_ c')
         (linkName (Program := exampleProgram) (snd methodOfT) +:+ "$invoke") = None /\
       (forall w, w ∈ interfaceInvokeWrappers c' -> wrapperFn w = snd methodOfT ->
                  w ∈ interfaceInvokeWrappers exampleCompiler)) /\
  (ssa.Params (snd methodOfS) <> [] /\
   singlePointerReceiver (H := exampleProgram) (snd methodOfS) = false /\
   llvm.NamedFunction (mod_ exampleCompiler) "(main.S).M$invoke" = None /\
   exists fn w c' recv,
     llvm.NamedFunction (mod_ exampleCompiler) "(main.S).M" = Some fn /\
     getInterfaceInvokeWrapper (H := exampleProgram) (snd methodOfS) exampleCompiler
       = Ok (w, c') /\
     llvm.Name w = "(main.S).M$invoke" /\
     llvm.NamedFunction (mod_ c') "(main.S).M$invoke" = Some w /\
     interfaceInvokeWrappers c' =
       interfaceInvokeWrappers exampleCompiler ++ [mkWrapper (snd methodOfS) w recv]) /\
  (exists w c' state u c'',
     getInterfaceInvokeWrapper (H := exampleProgram) (snd methodOfS) exampleCompiler
       = Ok (w, c') /\
     interfaceInvokeWrappers c' = [state] /\
     singlePointerReceiver (H := exampleProgram) (snd methodOfS) = false /\
     llvm.Name w = "(main.S).M$invoke" /\
     createInterfaceInvokeWrapper (H := exampleProgram) state c' = Ok (u, c'') /\
     fnAttrs c'' (llvm.Name (wrapper state)) = Some (llvm.InternalLinkage, true)).
Proof.
  pose proof (wrapper_elision (H := exampleProgram))
    as (Helided & Hgenerated & Hwide & Hcreated).
  split; [|split].
  - eexists _, _. split; [vm_compute; reflexivity|].
    split; [vm_compute; reflexivity|]. split; [reflexivity|].
    split; [vm_compute; reflexivity|]. split; [vm_compute; reflexivity|].
    eapply (Helided (Pointer typeT) exampleCompiler _ _ 0%nat (fst methodOfT) (snd methodOfT));
      try (vm_compute; reflexivity).
    apply NoDup_singleton.
  - split; [discriminate|]. split; [vm_compute; reflexivity|].
    split; [vm_compute; reflexivity|].
    assert (Hfn : llvm.NamedFunction (mod_ exampleCompiler) "(main.S).M" = Some _)
      by (vm_compute; reflexivity).
    edestruct (Hwide (snd methodOfS) exampleCompiler) as (w & c' & recv & Hw);
      [discriminate | vm_compute; reflexivity | vm_compute; reflexivity | exact Hfn |].
    eexists _, w, c', recv. split; [exact Hfn | exact Hw].
  - eexists _, _, _, _, _. split; [vm_compute; reflexivity|].
    split; [vm_compute; reflexivity|].
    assert (Hw : getInterfaceInvokeWrapper (H := exampleProgram) (snd methodOfS) exampleCompiler
                 = Ok _) by (vm_compute; reflexivity).
    destruct (Hgenerated _ _ _ _ Hw) as (Hsingle & Hname & _).
    { right. vm_compute. discriminate. }
    split; [exact Hsingle|]. split; [exact Hname|].
    match goal with
    | |- ?run = Ok (?u, ?c) /\ _ =>
        assert (Hrun : run = Ok (u, c)) by (vm_compute; reflexivity)
    end.
    split; [exact Hrun | exact (Hcreated _ _ _ _ Hrun)].
Defined.

(** ** Blocks *)

Definition addBlock (fn name : string) (c : Compiler) : Compiler :=
  setMod (llvm.updateFunction (fun d =>
            llvm.mkFunction (llvm.fnType d) (llvm.fnLinkage d) (llvm.fnUnnamedAddr d)
              (llvm.fnBlocks d ++ [llvm.mkBlock name []])) fn (mod_ c)) c.

Lemma AddBasicBlock_Ok fn name c bb c' :
  AddBasicBlock fn name c = Ok (bb, c') <->
  is_Some (llvm.functions (mod_ c) !! fn) /\
  bb = (fn, numBlocks (mod_ c) fn) /\ c' = addBlock fn name c.
Proof.
  unfold AddBasicBlock, addBlock, numBlocks. split.
  - intros Hc. destruct (llvm.functions (mod_ c) !! fn) as [d|]; [|discriminate].
    simplify_eq. simpl. eauto.
  - intros [[d Hd] [-> ->]]. by rewrite Hd.
Qed.

Lemma blockAt_Some_lt m bb b : blockAt m bb = Some b -> (snd bb < numBlocks m (fst bb))%nat.
Proof.
  unfold blockAt, numBlocks.
  destruct (llvm.functions m !! bb.1) as [d|]; simpl; [|discriminate].
  apply lookup_lt_Some.
Qed.

Lemma blockAt_addBlock_new fn name c :
  is_Some (llvm.functions (mod_ c) !! fn) ->
  blockAt (mod_ (addBlock fn name c)) (fn, numBlocks (mod_ c) fn) = Some (llvm.mkBlock name []).
Proof.
  intros [d Hd]. unfold blockAt, addBlock, numBlocks, llvm.updateFunction. simpl.
  rewrite lookup_alter_eq, Hd. simpl.
  rewrite lookup_app_r by lia. by rewrite Nat.sub_diag.
Qed.

Lemma blockAt_addBlock_old fn name c bb b :
  blockAt (mod_ c) bb = Some b -> blockAt (mod_ (addBlock fn name c)) bb = Some b.
Proof.
  unfold blockAt, addBlock, llvm.updateFunction. simpl.
  destruct (decide (fn = bb.1)) as [->|Hne].
  - rewrite lookup_alter_eq.
    destruct (llvm.functions (mod_ c) !! bb.1) as [d|]; simpl; [|discriminate].
    intros Hb. rewrite lookup_app_l; [done|]. by eapply lookup_lt_Some.
  - by rewrite lookup_alter_ne.
Qed.

Lemma numBlocks_addBlock fn name c :
  is_Some (llvm.functions (mod_ c) !! fn) ->
  numBlocks (mod_ (addBlock fn name c)) fn = S (numBlocks (mod_ c) fn).
Proof.
  intros [d Hd]. unfold addBlock, numBlocks, llvm.updateFunction. simpl.
  rewrite lookup_alter_eq, Hd. simpl. rewrite length_app. simpl. lia.
Qed.

Lemma functions_addBlock_is_Some fn name c fn' :
  is_Some (llvm.functions (mod_ c) !! fn') ->
  is_Some (llvm.functions (mod_ (addBlock fn name c)) !! fn').
Proof.
  unfold addBlock, llvm.updateFunction. simpl. by rewrite is_Some_alter.
Qed.

Lemma numBlocks_emitAt bb i c fn :
  numBlocks (mod_ (emitAt bb i c)) fn = numBlocks (mod_ c) fn.
Proof.
  unfold emitAt, numBlocks, appendInstr, llvm.updateFunction. simpl.
  rewrite lookup_alter. case_decide; [subst|done].
  destruct (llvm.functions (mod_ c) !! bb.1); simpl; [|done].
  by rewrite length_alter.
Qed.

Lemma blockInstrs_Some m bb b : blockAt m bb = Some b -> blockInstrs m bb = llvm.instrs b.
Proof. unfold blockInstrs. by intros ->. Qed.

(** ** Running *)

Lemma run_step rt params fuel m s id i s' :
  exec.fetch m s = Some (id, i) ->
  exec.execInstr rt params id i s = exec.Next s' ->
  exec.run rt params (S fuel) m s = exec.run rt params fuel m s'.
Proof. intros Hfetch Hexec. simpl. by rewrite Hfetch, Hexec. Qed.

Lemma run_finished rt params fuel m s :
  exec.fetch m s = None -> exec.run rt params (S fuel) m s = exec.Finished s.
Proof. intros Hfetch. simpl. by rewrite Hfetch. Qed.

Lemma lookup_app_0 {A : Type} (l k : list A) : (l ++ k) !! length l = k !! 0%nat.
Proof. rewrite lookup_app_r by lia. by rewrite Nat.sub_diag. Qed.

Lemma lookup_app_S {A : Type} (l k : list A) (j : nat) :
  (l ++ k) !! (j + length l)%nat = k !! j.
Proof. rewrite lookup_app_r by lia. f_equal. lia. Qed.

Lemma emit_step i t c v c' bb b :
  emit i t c = Ok (v, c') ->
  llvm.insertBlock (builder c) = Some bb ->
  blockAt (mod_ c) bb = Some b ->
  v = llvm.Inst (llvm.nextInst (builder c)) t /\
  builder c' = llvm.mkBuilder (Some bb) (S (llvm.nextInst (builder c))) /\
  blockAt (mod_ c') bb =
    Some (llvm.mkBlock (llvm.blockName b) (llvm.instrs b ++ [(llvm.nextInst (builder c), i)])) /\
  (forall bb', bb' <> bb -> blockAt (mod_ c') bb' = blockAt (mod_ c) bb') /\
  (forall fn, numBlocks (mod_ c') fn = numBlocks (mod_ c) fn) /\
  llvm.globals (mod_ c') = llvm.globals (mod_ c) /\
  uintptrType c' = uintptrType c /\ i8ptrType c' = i8ptrType c.
Proof.
  intros [bb0 (Hbb0 & _ & -> & ->)]%emit_Ok Hbb Hb.
  assert (bb0 = bb) as -> by congruence.
  split; [done|]. split; [done|]. split; [by apply blockAt_emitAt_eq|].
  split; [intros bb' Hne; by apply blockAt_emitAt_ne|].
  split; [intros fn; apply numBlocks_emitAt|]. done.
Qed.

Lemma AddBasicBlock_step fn name c bb c' :
  AddBasicBlock fn name c = Ok (bb, c') ->
  bb = (fn, numBlocks (mod_ c) fn) /\
  builder c' = builder c /\
  blockAt (mod_ c') bb = Some (llvm.mkBlock name []) /\
  (forall bb' b', blockAt (mod_ c) bb' = Some b' -> blockAt (mod_ c') bb' = Some b') /\
  numBlocks (mod_ c') fn = S (numBlocks (mod_ c) fn) /\
  llvm.globals (mod_ c') = llvm.globals (mod_ c) /\
  uintptrType c' = uintptrType c /\ i8ptrType c' = i8ptrType c.
Proof.
  intros (Hfn & -> & ->)%AddBasicBlock_Ok.
  split; [done|]. split; [done|]. split; [by apply blockAt_addBlock_new|].
  split; [intros bb' b'; apply blockAt_addBlock_old|].
  split; [by apply numBlocks_addBlock|]. done.
Qed.

Lemma SetInsertPointAtEnd_step bb c u c' :
  SetInsertPointAtEnd bb c = Ok (u, c') ->
  builder c' = llvm.mkBuilder (Some bb) (llvm.nextInst (builder c)) /\
  mod_ c' = mod_ c /\ uintptrType c' = uintptrType c /\ i8ptrType c' = i8ptrType c.
Proof. unfold SetInsertPointAtEnd, modify. intros Hc. injection Hc as _ <-. done. Qed.

Section typeassert_properties.
Context `{Program}.

Lemma getTypeCode_code typ c g c' :
  getTypeCode typ c = Ok (g, c') ->
  builder c' = builder c /\ llvm.functions (mod_ c') = llvm.functions (mod_ c) /\
  uintptrType c' = uintptrType c /\ i8ptrType c' = i8ptrType c.
Proof.
  unfold getTypeCode, NamedGlobal, AddGlobal, modifyMod, modify, lift, get.
  unfold mbind, M_bind, mret, M_ret, llvm.AddGlobal. intros Hc.
  repeat case_match; by simplify_eq.
Qed.

Lemma blockAt_functions m m' bb :
  llvm.functions m' = llvm.functions m -> blockAt m' bb = blockAt m bb.
Proof. unfold blockAt. by intros ->. Qed.

Lemma numBlocks_functions m m' fn :
  llvm.functions m' = llvm.functions m -> numBlocks m' fn = numBlocks m fn.
Proof. unfold numBlocks. by intros ->. Qed.

Lemma fieldType_config c c' t i :
  uintptrType c' = uintptrType c -> i8ptrType c' = i8ptrType c ->
  fieldType c' t i = fieldType c t i.
Proof. unfold fieldType, structElementTypes. by intros -> ->. Qed.

(** The code of a type assertion to a concrete type with a success flag:
    what goes to the end of the current block, the block [typeassert.ok] and
    the block [typeassert.next].  The first instruction has number [n]. *)
Definition typeAssertHead (c : Compiler) (n : nat) (itf placeholder : llvm.Value)
    (okBlock nextBlock : llvm.BasicBlock) : list (nat * llvm.Instr) :=
  [(n, llvm.ExtractValue itf 0);
   (S n, llvm.RuntimeCall "typeAssert"
           [llvm.Inst n (fieldType c (llvm.typeOf itf) 0); placeholder]);
   (S (S n), llvm.CondBr (llvm.Inst (S n) (llvm.IntType 1)) okBlock nextBlock)].

Definition typeAssertOk (c : Compiler) (n : nat) (itf : llvm.Value) (assertedType : llvm.Type_)
    (nextBlock : llvm.BasicBlock) : list (nat * llvm.Instr) :=
  [(3 + n, llvm.ExtractValue itf 1);
   (4 + n, llvm.PointerUnpack (llvm.Inst (3 + n) (fieldType c (llvm.typeOf itf) 1))
             [assertedType]);
   (5 + n, llvm.ExtractValue (llvm.Inst (4 + n) (llvm.StructType [assertedType])) 0);
   (6 + n, llvm.Br nextBlock)]%nat.

Definition typeAssertNext (n : nat) (assertedType : llvm.Type_)
    (prevBlock okBlock : llvm.BasicBlock) : list (nat * llvm.Instr) :=
  [(7 + n, llvm.PHI assertedType
             [(llvm.ConstNull assertedType, prevBlock);
              (llvm.Inst (5 + n) assertedType, okBlock)]);
   (8 + n, llvm.InsertValue
             (llvm.ConstStruct [llvm.Undef assertedType; llvm.Undef (llvm.IntType 1)])
             (llvm.Inst (7 + n) assertedType) 0);
   (9 + n, llvm.InsertValue
             (llvm.Inst (8 + n) (llvm.StructType [assertedType; llvm.IntType 1]))
             (llvm.Inst (S n) (llvm.IntType 1)) 1)]%nat.

Record typeAssertCode (frame : Frame) (expr : ssa.TypeAssert) (c : Compiler)
    (tuple : llvm.Value) (c' : Compiler)
    (itf : llvm.Value) (name : string) (prevBlock okBlock nextBlock : llvm.BasicBlock) : Prop :=
  mkTypeAssertCode {
    ta_itf : locals frame !! ssa.ValueName (ssa.X expr) = Some itf;
    ta_name : getTypeCodeName (ssa.AssertedType expr) = Ok name;
    ta_prevBlock : llvm.insertBlock (builder c) = Some prevBlock;
    ta_okBlock : okBlock = (llvmFn frame, numBlocks (mod_ c) (llvmFn frame));
    ta_nextBlock : nextBlock = (llvmFn frame, S (numBlocks (mod_ c) (llvmFn frame)));
    ta_fresh : prevBlock <> okBlock /\ prevBlock <> nextBlock;
    ta_head : exists t,
      blockInstrs (mod_ c') prevBlock =
        blockInstrs (mod_ c) prevBlock
        ++ typeAssertHead c (llvm.nextInst (builder c)) itf
             (llvm.Global ("type:" +:+ name) t) okBlock nextBlock;
    ta_ok :
      blockInstrs (mod_ c') okBlock =
        typeAssertOk c (llvm.nextInst (builder c)) itf
          (getLLVMType (ssa.AssertedType expr)) nextBlock;
    ta_next :
      blockInstrs (mod_ c') nextBlock =
        typeAssertNext (llvm.nextInst (builder c)) (getLLVMType (ssa.AssertedType expr))
          prevBlock okBlock;
    ta_tuple :
      tuple = llvm.Inst (9 + llvm.nextInst (builder c))
                (llvm.StructType [getLLVMType (ssa.AssertedType expr); llvm.IntType 1])
  }.

Lemma parseTypeAssert_code frame expr c tuple frame' c' :
  types.isInterface (types.Underlying (ssa.AssertedType expr)) = false ->
  ssa.CommaOk expr = true ->
  parseTypeAssert frame expr c = Ok ((tuple, frame'), c') ->
  exists itf name prevBlock okBlock nextBlock,
    typeAssertCode frame expr c tuple c' itf name prevBlock okBlock nextBlock.
Proof.
  unfold parseTypeAssert. intros Hconcrete Hcomma Hc.
  rewrite Hconcrete, Hcomma in Hc.
  apply bind_Ok in Hc as [itf [c0 [Hitf Hc]]].
  assert (locals frame !! ssa.ValueName (ssa.X expr) = Some itf /\ c0 = c) as [Hlocal ->].
  { unfold getValue in Hitf. destruct (locals frame !! _); [|discriminate].
    by apply mret_Ok in Hitf as [-> ->]. }
  (* extractvalue itf 0 *)
  apply bind_Ok in Hc as [actualTypeNum [c1 [H1 Hc]]].
  unfold CreateExtractValue in H1.
  apply bind_Ok in H1 as [? [? [[-> ->]%get_Ok H1]]].
  pose proof H1 as [prev (Hprev & [b Hb] & _ & _)]%emit_Ok.
  destruct (emit_step _ _ _ _ _ _ _ H1 Hprev Hb) as (-> & Hbld1 & Hb1 & Hoth1 & Hnum1 & _ & Hup1 & Hi81).
  (* the type code and the call of typeAssert *)
  apply bind_Ok in Hc as [commaOk [c3 [H3 Hc]]].
  apply bind_Ok in H3 as [g [c2 [H2 H3]]].
  destruct (getTypeCode_spec _ _ _ _ H2) as (name & t & Hname & -> & _ & _).
  destruct (getTypeCode_code _ _ _ _ H2) as (Hbld2 & Hfn2 & Hup2 & Hi82).
  unfold createRuntimeCall in H3.
  apply bind_Ok in H3 as [? [? [[-> ->]%get_Ok H3]]].
  rewrite decide_True in H3 by done.
  assert (Hprev2 : llvm.insertBlock (builder c2) = Some prev) by by rewrite Hbld2, Hbld1.
  assert (Hb2 : blockAt (mod_ c2) prev = Some _) by (rewrite (blockAt_functions _ _ _ Hfn2); exact Hb1).
  destruct (emit_step _ _ _ _ _ _ _ H3 Hprev2 Hb2) as (-> & Hbld3 & Hb3 & Hoth3 & Hnum3 & _ & Hup3 & Hi83).
  (* the two new blocks *)
  apply bind_Ok in Hc as [prevBlock [c3' [Hget Hc]]].
  assert (prevBlock = prev /\ c3' = c3) as [-> ->].
  { unfold GetInsertBlock in Hget. rewrite Hbld3 in Hget. simpl in Hget. by simplify_eq. }
  apply bind_Ok in Hc as [okBlock [c4 [H4 Hc]]].
  destruct (AddBasicBlock_step _ _ _ _ _ H4) as (Hok & Hbld4 & Hbok4 & Hold4 & Hnum4 & _ & Hup4 & Hi84).
  apply bind_Ok in Hc as [nextBlock [c5 [H5 Hc]]].
  destruct (AddBasicBlock_step _ _ _ _ _ H5) as (Hnext & Hbld5 & Hbnext5 & Hold5 & Hnum5 & _ & Hup5 & Hi85).
  assert (Hn3 : numBlocks (mod_ c3) (llvmFn frame) = numBlocks (mod_ c) (llvmFn frame)).
  { by rewrite Hnum3, (numBlocks_functions _ _ _ Hfn2), Hnum1. }
  rewrite Hnum4, Hn3 in Hnext. rewrite Hn3 in Hok.
  assert (Hlt : (snd prev < numBlocks (mod_ c) (fst prev))%nat) by by eapply blockAt_Some_lt.
  assert (Hne_ok : prev <> okBlock).
  { intros ->. subst. simpl in Hlt. lia. }
  assert (Hne_next : prev <> nextBlock).
  { intros ->. subst. simpl in Hlt. lia. }
  assert (Hne_on : okBlock <> nextBlock).
  { subst. intros [=]. lia. }
  (* the branch *)
  apply bind_Ok in Hc as [br [c6 [H6 Hc]]].
  unfold CreateCondBr in H6.
  assert (Hprev5 : llvm.insertBlock (builder c5) = Some prev) by by rewrite Hbld5, Hbld4, Hbld3.
  pose proof (Hold5 _ _ (Hold4 _ _ Hb3)) as Hb5.
  destruct (emit_step _ _ _ _ _ _ _ H6 Hprev5 Hb5) as (-> & Hbld6 & Hb6 & Hoth6 & Hnum6 & _ & Hup6 & Hi86).
  (* the block typeassert.ok *)
  apply bind_Ok in Hc as [u7 [c7 [H7 Hc]]].
  destruct (SetInsertPointAtEnd_step _ _ _ _ H7) as (Hbld7 & Hmod7 & Hup7 & Hi87).
  apply bind_Ok in Hc as [valueOk [c11 [Hok_code Hc]]].
  apply bind_Ok in Hok_code as [valuePtr [c8 [H8 Hok_code]]].
  unfold CreateExtractValue in H8.
  apply bind_Ok in H8 as [? [? [[-> ->]%get_Ok H8]]].
  assert (Hins7 : llvm.insertBlock (builder c7) = Some okBlock) by by rewrite Hbld7.
  assert (Hbok7 : blockAt (mod_ c7) okBlock = Some (llvm.mkBlock "typeassert.ok" [])).
  { rewrite Hmod7, Hoth6 by done. by apply Hold5. }
  destruct (emit_step _ _ _ _ _ _ _ H8 Hins7 Hbok7) as (-> & Hbld8 & Hb8 & Hoth8 & Hnum8 & _ & Hup8 & Hi88).
  apply bind_Ok in Hok_code as [unpacked [c10' [Hunpack Hok_code]]].
  unfold emitPointerUnpack in Hunpack.
  apply bind_Ok in Hunpack as [packed [c9 [H9 Hunpack]]].
  assert (Hins8 : llvm.insertBlock (builder c8) = Some okBlock) by by rewrite Hbld8.
  destruct (emit_step _ _ _ _ _ _ _ H9 Hins8 Hb8) as (-> & Hbld9 & Hb9 & Hoth9 & Hnum9 & _ & Hup9 & Hi89).
  unfold indexed in Hunpack. simpl in Hunpack.
  apply bind_Ok in Hunpack as [v10 [c10 [H10 Hunpack]]].
  apply bind_Ok in Hunpack as [? [? [[-> ->]%mret_Ok Hunpack]]].
  apply mret_Ok in Hunpack as [-> ->].
  assert (Hins9 : llvm.insertBlock (builder c9) = Some okBlock) by by rewrite Hbld9.
  destruct (emit_step _ _ _ _ _ _ _ H10 Hins9 Hb9) as (-> & Hbld10 & Hb10 & Hoth10 & Hnum10 & _ & Hup10 & Hi810).
  apply mret_Ok in Hok_code as [-> ->].
  apply bind_Ok in Hc as [br' [c12 [H12 Hc]]].
  unfold CreateBr in H12.
  assert (Hins10 : llvm.insertBlock (builder c10) = Some okBlock) by by rewrite Hbld10.
  destruct (emit_step _ _ _ _ _ _ _ H12 Hins10 Hb10) as (-> & Hbld12 & Hb12 & Hoth12 & Hnum12 & _ & Hup12 & Hi812).
  (* the block typeassert.next *)
  apply bind_Ok in Hc as [u13 [c13 [H13 Hc]]].
  destruct (SetInsertPointAtEnd_step _ _ _ _ H13) as (Hbld13 & Hmod13 & Hup13 & Hi813).
  apply bind_Ok in Hc as [phi [c14 [H14 Hc]]].
  unfold CreatePHI in H14.
  assert (Hins13 : llvm.insertBlock (builder c13) = Some nextBlock) by by rewrite Hbld13.
  assert (Hbnext13 : blockAt (mod_ c13) nextBlock = Some (llvm.mkBlock "typeassert.next" [])).
  { rewrite Hmod13, Hoth12, Hoth10, Hoth9, Hoth8, Hmod7, Hoth6 by done. exact Hbnext5. }
  destruct (emit_step _ _ _ _ _ _ _ H14 Hins13 Hbnext13) as (-> & Hbld14 & Hb14 & Hoth14 & Hnum14 & _ & Hup14 & Hi814).
  apply bind_Ok in Hc as [t15 [c15 [H15 Hc]]].
  unfold CreateInsertValue in H15.
  assert (Hins14 : llvm.insertBlock (builder c14) = Some nextBlock) by by rewrite Hbld14.
  destruct (emit_step _ _ _ _ _ _ _ H15 Hins14 Hb14) as (-> & Hbld15 & Hb15 & Hoth15 & Hnum15 & _ & Hup15 & Hi815).
  apply bind_Ok in Hc as [t16 [c16 [H16 Hc]]].
  unfold CreateInsertValue in H16.
  assert (Hins15 : llvm.insertBlock (builder c15) = Some nextBlock) by by rewrite Hbld15.
  destruct (emit_step _ _ _ _ _ _ _ H16 Hins15 Hb15) as (-> & Hbld16 & Hb16 & Hoth16 & Hnum16 & _ & Hup16 & Hi816).
  apply mret_Ok in Hc as [[= -> ->] ->].
  (* the numbers of the instructions *)
  assert (Hn2 : llvm.nextInst (builder c2) = S (llvm.nextInst (builder c))) by by rewrite Hbld2, Hbld1.
  assert (Hn5 : llvm.nextInst (builder c5) = S (S (llvm.nextInst (builder c))))
    by by rewrite Hbld5, Hbld4, Hbld3, Hn2.
  assert (Hn7 : llvm.nextInst (builder c7) = S (S (S (llvm.nextInst (builder c)))))
    by by rewrite Hbld7, Hbld6, Hn5.
  assert (Hn8 : llvm.nextInst (builder c8) = S (S (S (S (llvm.nextInst (builder c))))))
    by by rewrite Hbld8, Hn7.
  assert (Hn9 : llvm.nextInst (builder c9) = S (S (S (S (S (llvm.nextInst (builder c)))))))
    by by rewrite Hbld9, Hn8.
  assert (Hn10 : llvm.nextInst (builder c10) = S (S (S (S (S (S (llvm.nextInst (builder c))))))))
    by by rewrite Hbld10, Hn9.
  assert (Hn13 : llvm.nextInst (builder c13) = S (S (S (S (S (S (S (llvm.nextInst (builder c)))))))))
    by by rewrite Hbld13, Hbld12, Hn10.
  assert (Hn14 : llvm.nextInst (builder c14) = S (S (S (S (S (S (S (S (llvm.nextInst (builder c))))))))))
    by by rewrite Hbld14, Hn13.
  assert (Hn15 : llvm.nextInst (builder c15) = S (S (S (S (S (S (S (S (S (llvm.nextInst (builder c)))))))))))
    by by rewrite Hbld15, Hn14.
  exists itf, name, prev, okBlock, nextBlock.
  constructor; try done.
  - exists t.
    assert (Hfinal : blockAt (mod_ c16) prev = blockAt (mod_ c6) prev).
    { by rewrite Hoth16, Hoth15, Hoth14, Hmod13, Hoth12, Hoth10, Hoth9, Hoth8, Hmod7. }
    unfold blockInstrs. rewrite Hfinal, Hb6, Hb. simpl.
    rewrite Hn2, Hn5. unfold typeAssertHead. by rewrite <- !app_assoc.
  - assert (Hfinal : blockAt (mod_ c16) okBlock = blockAt (mod_ c12) okBlock).
    { by rewrite Hoth16, Hoth15, Hoth14, Hmod13. }
    unfold blockInstrs. rewrite Hfinal, Hb12. simpl.
    rewrite Hn7, Hn8, Hn9, Hn10. unfold typeAssertOk. simpl.
    rewrite (fieldType_config c c7); [done| |]; congruence.
  - unfold blockInstrs. rewrite Hb16. simpl.
    by rewrite Hn13, Hn14, Hn15, Hn9, Hn2.
  - simpl. by rewrite Hn15.
Qed.

Lemma fetch_at m s bb l (k : list (nat * llvm.Instr)) (j : nat) :
  exec.block s = bb ->
  blockInstrs m bb = l ++ k ->
  exec.pc s = (j + length l)%nat ->
  exec.fetch m s = k !! j.
Proof. intros <- Hinstrs Hpc. unfold exec.fetch. by rewrite Hinstrs, Hpc, lookup_app_S. Qed.

Lemma fetch_at_0 m s bb (k : list (nat * llvm.Instr)) (j : nat) :
  exec.block s = bb ->
  blockInstrs m bb = k ->
  exec.pc s = j ->
  exec.fetch m s = k !! j.
Proof. intros <- Hinstrs Hpc. unfold exec.fetch. by rewrite Hinstrs, Hpc. Qed.

(** C4: in the code of a type assertion to a concrete type with a success
    flag, the branch on the result of [typeAssert] ends the current block,
    and the extraction of the value slot and its unpacking are emitted after
    it, in the block [typeassert.ok].  When [typeAssert] answers false, the
    run goes from the branch to the block [typeassert.next] and stops there
    with the tuple (zero value of the asserted type, false), and none of the
    instructions it executed reads or unpacks the value slot. *)
Theorem typeAssert_branch_before_unboxing frame expr c tuple frame' c' :
  types.isInterface (types.Underlying (ssa.AssertedType expr)) = false ->
  ssa.CommaOk expr = true ->
  parseTypeAssert frame expr c = Ok ((tuple, frame'), c') ->
  exists itf name prevBlock okBlock nextBlock,
    typeAssertCode frame expr c tuple c' itf name prevBlock okBlock nextBlock /\
    forall rt params s,
      exec.block s = prevBlock ->
      exec.pc s = length (blockInstrs (mod_ c) prevBlock) ->
      rt "typeAssert"
         [exec.extractField (exec.eval params (exec.env s) itf) 0;
          exec.RGlobal ("type:" +:+ name)] = exec.RInt 0 ->
      exists s',
        exec.run rt params 7 (mod_ c') s = exec.Finished s' /\
        exec.eval params (exec.env s') tuple =
          exec.RStruct [exec.zero (getLLVMType (ssa.AssertedType expr)); exec.RInt 0] /\
        exec.block s' = nextBlock /\
        (exists t, exec.executed s' =
          exec.executed s
          ++ map snd (typeAssertHead c (llvm.nextInst (builder c)) itf
                        (llvm.Global ("type:" +:+ name) t) okBlock nextBlock)
          ++ map snd (typeAssertNext (llvm.nextInst (builder c))
                        (getLLVMType (ssa.AssertedType expr)) prevBlock okBlock)) /\
        (forall i, i ∈ drop (length (exec.executed s)) (exec.executed s') ->
                   i <> llvm.ExtractValue itf 1 /\
                   forall ptr ts, i <> llvm.PointerUnpack ptr ts).
Proof.
  intros Hconcrete Hcomma Hc.
  destruct (parseTypeAssert_code _ _ _ _ _ _ Hconcrete Hcomma Hc)
    as (itf & name & prevBlock & okBlock & nextBlock & Hcode).
  exists itf, name, prevBlock, okBlock, nextBlock. split; [exact Hcode|].
  destruct Hcode as [Hitf Hname Hprev Hok Hnext [Hne1 Hne2] [t Hhead] Hokc Hnextc ->].
  set (n := llvm.nextInst (builder c)) in *.
  set (T := getLLVMType (ssa.AssertedType expr)) in *.
  intros rt params s Hblock Hpc Hfail.
  set (tc := exec.extractField (exec.eval params (exec.env s) itf) 0) in *.
  (* extractvalue itf 0 *)
  erewrite run_step; cycle 1.
  { erewrite (fetch_at _ _ prevBlock _ _ 0%nat); cycle 1; [exact Hblock | exact Hhead | simpl; lia | reflexivity]. }
  { reflexivity. }
  (* the call of typeAssert *)
  erewrite run_step; cycle 1.
  { erewrite (fetch_at _ _ prevBlock _ _ 1%nat); cycle 1; [exact Hblock | exact Hhead | simpl; lia | reflexivity]. }
  { simpl. rewrite lookup_insert_eq. simpl. fold tc. rewrite Hfail. reflexivity. }
  (* the branch *)
  erewrite run_step; cycle 1.
  { erewrite (fetch_at _ _ prevBlock _ _ 2%nat); cycle 1; [exact Hblock | exact Hhead | simpl; lia | reflexivity]. }
  { simpl. rewrite lookup_insert_eq. reflexivity. }
  (* the phi *)
  erewrite run_step; cycle 1.
  { erewrite (fetch_at_0 _ _ nextBlock _ 0%nat); cycle 1; [reflexivity | exact Hnextc | reflexivity | reflexivity]. }
  { simpl. rewrite Hblock, decide_True by done. reflexivity. }
  (* the tuple *)
  erewrite run_step; cycle 1.
  { erewrite (fetch_at_0 _ _ nextBlock _ 1%nat); cycle 1; [reflexivity | exact Hnextc | reflexivity | reflexivity]. }
  { simpl. rewrite lookup_insert_eq. reflexivity. }
  erewrite run_step; cycle 1.
  { erewrite (fetch_at_0 _ _ nextBlock _ 2%nat); cycle 1; [reflexivity | exact Hnextc | reflexivity | reflexivity]. }
  { simpl. rewrite lookup_insert_eq.
    rewrite !(lookup_insert_ne (M := gmap nat)) by lia. rewrite lookup_insert_eq.
    reflexivity. }
  rewrite run_finished.
  2:{ erewrite (fetch_at_0 _ _ nextBlock _ 3%nat); cycle 1; [reflexivity | exact Hnextc | reflexivity | reflexivity]. }
  eexists. split; [reflexivity|]. split; [|split; [reflexivity|split]].
  - simpl. by rewrite lookup_insert_eq.
  - exists t. simpl. by rewrite <- !app_assoc.
  - simpl. rewrite <- !app_assoc. rewrite drop_app_length. simpl.
    intros i Hin.
    repeat (apply elem_of_cons in Hin as [->|Hin]; [by split|]).
    by apply elem_of_nil in Hin.
Qed.

End typeassert_properties.

Definition assertInt32 : ssa.TypeAssert :=
  ssa.mkTypeAssert (ssa.Register "a" (Interface [])) (Basic Int32) true.

Lemma typeAssert_branch_before_unboxing_witness :
  types.isInterface (types.Underlying (ssa.AssertedType assertInt32)) = false /\
  ssa.CommaOk assertInt32 = true /\
  exists tuple frame' c',
    parseTypeAssert (H := exampleProgram) exampleFrame assertInt32 exampleCompiler
      = Ok ((tuple, frame'), c') /\
    exists itf name prevBlock okBlock nextBlock,
      typeAssertCode (H := exampleProgram) exampleFrame assertInt32 exampleCompiler tuple c'
        itf name prevBlock okBlock nextBlock /\
      forall rt params s,
        exec.block s = prevBlock ->
        exec.pc s = length (blockInstrs (mod_ exampleCompiler) prevBlock) ->
        rt "typeAssert"
           [exec.extractField (exec.eval params (exec.env s) itf) 0;
            exec.RGlobal ("type:" +:+ name)] = exec.RInt 0 ->
        exists s',
          exec.run rt params 7 (mod_ c') s = exec.Finished s' /\
          exec.eval params (exec.env s') tuple =
            exec.RStruct [exec.zero (getLLVMType (Program := exampleProgram)
                                       (ssa.AssertedType assertInt32)); exec.RInt 0] /\
          exec.block s' = nextBlock /\
          (exists t, exec.executed s' =
            exec.executed s
            ++ map snd (typeAssertHead exampleCompiler (llvm.nextInst (builder exampleCompiler)) itf
                          (llvm.Global ("type:" +:+ name) t) okBlock nextBlock)
            ++ map snd (typeAssertNext (llvm.nextInst (builder exampleCompiler))
                          (getLLVMType (Program := exampleProgram) (ssa.AssertedType assertInt32))
                          prevBlock okBlock)) /\
          (forall i, i ∈ drop (length (exec.executed s)) (exec.executed s') ->
                     i <> llvm.ExtractValue itf 1 /\
                     forall ptr ts, i <> llvm.PointerUnpack ptr ts).
Proof.
  split; [reflexivity|]. split; [reflexivity|].
  eexists _, _, _. split; [vm_compute; reflexivity|].
  eapply (typeAssert_branch_before_unboxing (H := exampleProgram) exampleFrame assertInt32
            exampleCompiler); [reflexivity | reflexivity | vm_compute; reflexivity].
Defined.

(** ** Boxing and asserting back *)

Lemma NamedGlobal_Some m name v :
  llvm.NamedGlobal m name = Some v -> exists t, v = llvm.Global name t.
Proof.
  unfold llvm.NamedGlobal. destruct (llvm.globals m !! name); [|discriminate].
  intros [= <-]. by eexists.
Qed.

Lemma lowered_typeAssert (name name' : string) :
  exec.lowered "typeAssert"
    [exec.RGlobal ("typeInInterface:type:" +:+ name); exec.RGlobal ("type:" +:+ name')]
  = exec.RInt (if decide (name = name') then 1 else 0).
Proof.
  unfold exec.lowered. rewrite decide_True by done.
  destruct (decide (name = name')) as [->|Hne].
  - by rewrite decide_True.
  - rewrite decide_False; [done|].
    change ("typeInInterface:type:" +:+ name)
      with ("typeInInterface:" +:+ "type:" +:+ name).
    by intros ?%(inj (String.append _))%(inj (String.append _)).
Qed.

Section roundtrip_properties.
Context `{Program}.

(** C6, as amended: a value is boxed into an interface and the interface
    value is asserted, with a success flag, to a concrete type.  When the
    asserted type has the type identity (the mangled name) of the boxed type,
    the result is the boxed value and true; when its identity differs, the
    result is the zero value of the asserted type and false.  The type
    identity, not the source type, decides. *)
Theorem boxing_roundtrip val typ pos c itf c1 frame expr tuple frame' c2 name name' :
  parseMakeInterface val typ pos c = Ok (itf, c1) ->
  locals frame !! ssa.ValueName (ssa.X expr) = Some itf ->
  types.isInterface (types.Underlying (ssa.AssertedType expr)) = false ->
  ssa.CommaOk expr = true ->
  parseTypeAssert frame expr c1 = Ok ((tuple, frame'), c2) ->
  getTypeCodeName typ = Ok name ->
  getTypeCodeName (ssa.AssertedType expr) = Ok name' ->
  forall params s bb,
    llvm.insertBlock (builder c) = Some bb ->
    exec.block s = bb ->
    exec.pc s = length (blockInstrs (mod_ c) bb) ->
    exists s',
      exec.run exec.lowered params 15 (mod_ c2) s = exec.Finished s' /\
      exec.eval params (exec.env s') tuple =
        if decide (name = name')
        then exec.RStruct [exec.eval params (exec.env s) val; exec.RInt 1]
        else exec.RStruct [exec.zero (getLLVMType (ssa.AssertedType expr)); exec.RInt 0].
Proof.
  intros Hbox Hlocal Hconcrete Hcomma Hassert Hname Hname' params s bb Hbb Hblock Hpc.
  destruct (parseMakeInterface_boxes _ _ _ _ _ _ Hbox)
    as (name0 & descriptor & [[bb0 [Hbb0 Hboxing]] -> [Hnext1 Hins1] _] & Hboxed).
  assert (bb0 = bb) as -> by congruence.
  assert (name0 = name) as -> by (destruct Hboxed as [Hn _ _ _ _]; congruence).
  destruct (NamedGlobal_Some _ _ _ (boxed_descriptor _ _ _ _ Hboxed)) as [td ->].
  destruct (parseTypeAssert_code _ _ _ _ _ _ Hconcrete Hcomma Hassert)
    as (itf' & name0 & prevBlock & okBlock & nextBlock &
        [Hitf Hn0 Hprev Hok Hnextb [Hne1 Hne2] [t Hhead] Hokc Hnextc ->]).
  assert (itf' = llvm.Inst (S (S (S (llvm.nextInst (builder c))))) itfT) as -> by congruence.
  assert (name0 = name') as -> by congruence.
  assert (prevBlock = bb) as -> by congruence.
  assert (Hne3 : okBlock <> nextBlock) by (subst; intros [=]; lia).
  rewrite Hboxing, <- app_assoc in Hhead.
  rewrite Hnext1 in Hhead, Hokc, Hnextc. rewrite Hnext1.
  set (n := llvm.nextInst (builder c)) in *.
  set (T := getLLVMType (ssa.AssertedType expr)) in *.
  set (v := exec.eval params (exec.env s) val).
  set (dn := "typeInInterface:type:" +:+ name).
  (* the boxing *)
  erewrite run_step; cycle 1.
  { erewrite (fetch_at _ _ bb _ _ 0%nat); cycle 1;
      [exact Hblock | exact Hhead | simpl; lia | reflexivity]. }
  { reflexivity. }
  erewrite run_step; cycle 1.
  { erewrite (fetch_at _ _ bb _ _ 1%nat); cycle 1;
      [exact Hblock | exact Hhead | simpl; lia | reflexivity]. }
  { reflexivity. }
  erewrite run_step; cycle 1.
  { erewrite (fetch_at _ _ bb _ _ 2%nat); cycle 1;
      [exact Hblock | exact Hhead | simpl; lia | reflexivity]. }
  { simpl. rewrite lookup_insert_eq. reflexivity. }
  erewrite run_step; cycle 1.
  { erewrite (fetch_at _ _ bb _ _ 3%nat); cycle 1;
      [exact Hblock | exact Hhead | simpl; lia | reflexivity]. }
  { simpl. rewrite lookup_insert_eq.
    rewrite !(lookup_insert_ne (M := gmap nat)) by lia. rewrite lookup_insert_eq.
    reflexivity. }
  (* the type code and the call of typeAssert *)
  erewrite run_step; cycle 1.
  { erewrite (fetch_at _ _ bb _ _ 4%nat); cycle 1;
      [exact Hblock | exact Hhead | simpl; lia | reflexivity]. }
  { simpl. rewrite lookup_insert_eq. reflexivity. }
  erewrite run_step; cycle 1.
  { erewrite (fetch_at _ _ bb _ _ 5%nat); cycle 1;
      [exact Hblock | exact Hhead | simpl; lia | reflexivity]. }
  { simpl. rewrite lookup_insert_eq. simpl.
    fold dn. unfold dn. rewrite lowered_typeAssert. reflexivity. }
  destruct (decide (name = name')) as [Heq|Hneq].
  - (* the same identity: the block typeassert.ok *)
    erewrite run_step; cycle 1.
    { erewrite (fetch_at _ _ bb _ _ 6%nat); cycle 1;
        [exact Hblock | exact Hhead | simpl; lia | reflexivity]. }
    { simpl. rewrite lookup_insert_eq. reflexivity. }
    erewrite run_step; cycle 1.
    { erewrite (fetch_at_0 _ _ okBlock _ 0%nat); cycle 1;
        [reflexivity | exact Hokc | reflexivity | reflexivity]. }
    { simpl. rewrite !(lookup_insert_ne (M := gmap nat)) by lia.
      rewrite lookup_insert_eq. reflexivity. }
    erewrite run_step; cycle 1.
    { erewrite (fetch_at_0 _ _ okBlock _ 1%nat); cycle 1;
        [reflexivity | exact Hokc | reflexivity | reflexivity]. }
    { simpl. rewrite lookup_insert_eq. reflexivity. }
    erewrite run_step; cycle 1.
    { erewrite (fetch_at_0 _ _ okBlock _ 2%nat); cycle 1;
        [reflexivity | exact Hokc | reflexivity | reflexivity]. }
    { simpl. rewrite lookup_insert_eq. reflexivity. }
    erewrite run_step; cycle 1.
    { erewrite (fetch_at_0 _ _ okBlock _ 3%nat); cycle 1;
        [reflexivity | exact Hokc | reflexivity | reflexivity]. }
    { reflexivity. }
    erewrite run_step; cycle 1.
    { erewrite (fetch_at_0 _ _ nextBlock _ 0%nat); cycle 1;
        [reflexivity | exact Hnextc | reflexivity | reflexivity]. }
    { simpl. rewrite decide_False by done. simpl. rewrite decide_True by done.
      simpl. rewrite lookup_insert_eq. reflexivity. }
    erewrite run_step; cycle 1.
    { erewrite (fetch_at_0 _ _ nextBlock _ 1%nat); cycle 1;
        [reflexivity | exact Hnextc | reflexivity | reflexivity]. }
    { simpl. rewrite lookup_insert_eq. reflexivity. }
    erewrite run_step; cycle 1.
    { erewrite (fetch_at_0 _ _ nextBlock _ 2%nat); cycle 1;
        [reflexivity | exact Hnextc | reflexivity | reflexivity]. }
    { simpl. rewrite lookup_insert_eq.
      rewrite !(lookup_insert_ne (M := gmap nat)) by lia. rewrite lookup_insert_eq.
      reflexivity. }
    rewrite run_finished.
    2:{ erewrite (fetch_at_0 _ _ nextBlock _ 3%nat); cycle 1;
          [reflexivity | exact Hnextc | reflexivity | reflexivity]. }
    eexists. split; [reflexivity|]. simpl. by rewrite lookup_insert_eq.
  - (* another identity: straight to the block typeassert.next *)
    erewrite run_step; cycle 1.
    { erewrite (fetch_at _ _ bb _ _ 6%nat); cycle 1;
        [exact Hblock | exact Hhead | simpl; lia | reflexivity]. }
    { simpl. rewrite lookup_insert_eq. reflexivity. }
    erewrite run_step; cycle 1.
    { erewrite (fetch_at_0 _ _ nextBlock _ 0%nat); cycle 1;
        [reflexivity | exact Hnextc | reflexivity | reflexivity]. }
    { simpl. rewrite Hblock, decide_True by done. reflexivity. }
    erewrite run_step; cycle 1.
    { erewrite (fetch_at_0 _ _ nextBlock _ 1%nat); cycle 1;
        [reflexivity | exact Hnextc | reflexivity | reflexivity]. }
    { simpl. rewrite lookup_insert_eq. reflexivity. }
    erewrite run_step; cycle 1.
    { erewrite (fetch_at_0 _ _ nextBlock _ 2%nat); cycle 1;
        [reflexivity | exact Hnextc | reflexivity | reflexivity]. }
    { simpl. rewrite lookup_insert_eq.
      rewrite !(lookup_insert_ne (M := gmap nat)) by lia. rewrite lookup_insert_eq.
      reflexivity. }
    rewrite run_finished.
    2:{ erewrite (fetch_at_0 _ _ nextBlock _ 3%nat); cycle 1;
          [reflexivity | exact Hnextc | reflexivity | reflexivity]. }
    eexists. split; [reflexivity|]. simpl. by rewrite lookup_insert_eq.
Qed.

End roundtrip_properties.

(** A run of a boxing followed by an assertion, in [main.f]: parameter 3 of
    the function is boxed as a value of type [T], and the interface value,
    which the frame holds as [i], is asserted to [T']. *)
Definition boxedParam (t : llvm.Type_) : llvm.Value := llvm.Param "main.f" 3 t.

Definition frameWith (itf : llvm.Value) : Frame :=
  mkFrame "main.f" (<["i" := itf]> ∅) 0 ∅ None ∅ ∅ ∅ [].

Definition assertTo (T' : Type_) : ssa.TypeAssert :=
  ssa.mkTypeAssert (ssa.Register "i" (Interface [])) T' true.

Definition exampleParams (v : exec.RValue) : list exec.RValue :=
  [exec.RUndef; exec.RUndef; exec.RUndef; v].

Definition entryState : exec.State :=
  exec.mkState ∅ [] ("main.f", 0%nat) 0 ("main.f", 0%nat) [] [].

Lemma boxing_roundtrip_witness :
  exists itf c1 tuple frame' c2,
    parseMakeInterface (H := exampleProgram) (boxedParam (llvm.IntType 8)) (Basic Int8) 0
      exampleCompiler = Ok (itf, c1) /\
    locals (frameWith itf) !! ssa.ValueName (ssa.X (assertTo (Basic Int8))) = Some itf /\
    types.isInterface (types.Underlying (ssa.AssertedType (assertTo (Basic Int8)))) = false /\
    ssa.CommaOk (assertTo (Basic Int8)) = true /\
    parseTypeAssert (H := exampleProgram) (frameWith itf) (assertTo (Basic Int8)) c1
      = Ok ((tuple, frame'), c2) /\
    getTypeCodeName (Basic Int8) = Ok "basic:int8" /\
    getTypeCodeName (ssa.AssertedType (assertTo (Basic Int8))) = Ok "basic:int8" /\
    llvm.insertBlock (builder exampleCompiler) = Some ("main.f", 0%nat) /\
    exec.block entryState = ("main.f", 0%nat) /\
    exec.pc entryState = length (blockInstrs (mod_ exampleCompiler) ("main.f", 0%nat)) /\
    exists s',
      exec.run exec.lowered (exampleParams (exec.RInt 5)) 15 (mod_ c2) entryState
        = exec.Finished s' /\
      exec.eval (exampleParams (exec.RInt 5)) (exec.env s') tuple =
        if decide ("basic:int8" = "basic:int8")
        then exec.RStruct [exec.eval (exampleParams (exec.RInt 5)) (exec.env entryState)
                             (boxedParam (llvm.IntType 8)); exec.RInt 1]
        else exec.RStruct [exec.zero (getLLVMType (Program := exampleProgram)
                                        (ssa.AssertedType (assertTo (Basic Int8))));
                           exec.RInt 0].
Proof.
  eexists _, _, _, _, _.
  split; [vm_compute; reflexivity|].
  split; [vm_compute; reflexivity|].
  split; [reflexivity|]. split; [reflexivity|].
  split; [vm_compute; reflexivity|].
  split; [reflexivity|]. split; [reflexivity|]. split; [reflexivity|].
  split; [reflexivity|]. split; [reflexivity|].
  eapply (boxing_roundtrip (H := exampleProgram) (boxedParam (llvm.IntType 8)) (Basic Int8)
            0%nat exampleCompiler _ _ (frameWith _) (assertTo (Basic Int8)));
    first [reflexivity | vm_compute; reflexivity].
Defined.

Definition structA : Type_ := Struct [("a", Basic Int32)].
Definition structB : Type_ := Struct [("b", Basic Int32)].

(** C6 as stated fails: [struct{a int32}] and [struct{b int32}] are distinct
    types with one type identity, and a boxed [struct{a int32}] asserted to
    [struct{b int32}] gives the boxed value and true. *)
Lemma distinct_types_same_identity :
  structA <> structB /\
  exists itf c1 tuple frame' c2 s',
    parseMakeInterface (H := exampleProgram) (boxedParam (llvm.StructType [llvm.IntType 32]))
      structA 0 exampleCompiler = Ok (itf, c1) /\
    parseTypeAssert (H := exampleProgram) (frameWith itf) (assertTo structB) c1
      = Ok ((tuple, frame'), c2) /\
    exec.run exec.lowered (exampleParams (exec.RStruct [exec.RInt 5])) 15 (mod_ c2) entryState
      = exec.Finished s' /\
    exec.eval (exampleParams (exec.RStruct [exec.RInt 5])) (exec.env s') tuple
      = exec.RStruct [exec.RStruct [exec.RInt 5]; exec.RInt 1] /\
    exec.eval (exampleParams (exec.RStruct [exec.RInt 5])) (exec.env s') tuple
      <> exec.RStruct [exec.zero (getLLVMType (Program := exampleProgram) structB); exec.RInt 0].
Proof.
  split; [discriminate|].
  eexists _, _, _, _, _, _.
  split; [vm_compute; reflexivity|].
  split; [vm_compute; reflexivity|].
  split; [vm_compute; reflexivity|].
  split; [vm_compute; reflexivity|].
  vm_compute. discriminate.
Qed.

(** ** compiler/defer.go *)

(** A function body that registers three defers in order and then runs the
    deferred calls. *)
Definition deferThree (d1 d2 d3 : ssa.Defer) : M unit :=
  frame ← deferInitFunc exampleFrame;
  frame ← emitDefer frame d1;
  frame ← emitDefer frame d2;
  frame ← emitDefer frame d3;
  emitRunDefers (H := exampleProgram) frame.

(** A call of an interface method as an instruction of its own: the function
    pointer and the arguments that [getInvokeCall] gives, called. *)
Definition invokeNow (call : ssa.CallCommon) : M unit :=
  invoke ← getInvokeCall (H := exampleProgram) exampleFrame call;
  createCall (fst invoke) (snd invoke);;
  mret tt.

(** The same three calls made in the order in which deferred calls run. *)
Definition callThree (d1 d2 d3 : ssa.Defer) : M unit :=
  invokeNow (ssa.Call d3);;
  invokeNow (ssa.Call d2);;
  invokeNow (ssa.Call d1).

Definition methodM : types.Func := mkFunc "(main.I).M" (Signature None [] []).

(** [defer a.M()] and [defer b.M()], for two values of the interface type
    [main.I]. *)
Definition deferAM : ssa.Defer :=
  ssa.mkDefer (ssa.mkCall (ssa.Register "a" shapeI) (Some methodM) []) 1.
Definition deferBM : ssa.Defer :=
  ssa.mkDefer (ssa.mkCall (ssa.Register "b" shapeI) (Some methodM) []) 2.

(** At run time [a] holds a value of a type [X] and [b] a value of a type
    [Y]. *)
Definition typecodeX : exec.RValue := exec.RGlobal "typeInInterface:type:X".
Definition typecodeY : exec.RValue := exec.RGlobal "typeInInterface:type:Y".
Definition receiverA : exec.RValue := exec.RPacked [exec.RInt 1].
Definition receiverB : exec.RValue := exec.RPacked [exec.RInt 2].

Definition interfaceParams : list exec.RValue :=
  [exec.RStruct [typecodeX; receiverA]; exec.RStruct [typecodeY; receiverB];
   exec.RStruct [exec.RPacked [exec.RInt 9]; exec.RGlobal "main.f$1$withSignature"];
   exec.RInt 9].

(** The method [M] of [main.I] for a type code, as [interfaceMethod] gives
    it, called on a receiver. *)
Definition methodCall (typecode receiver : exec.RValue) : exec.RValue * list exec.RValue :=
  (exec.RRuntime "interfaceMethod"
     [typecode; exec.RGlobal "main.I$interface"; exec.RGlobal "func (main.I).M"],
   [receiver; exec.RUndef; exec.RUndef]).

(** The calls a function body makes when it is run from its entry, and the
    memory at the end. *)
Definition callsOf (body : M unit) : option (list (exec.RValue * list exec.RValue) * list exec.RValue) :=
  match body exampleCompiler with
  | Ok (_, c) =>
      match exec.run exec.lowered interfaceParams 200 (mod_ c) entryState with
      | exec.Finished s => Some (exec.calls s, exec.mem s)
      | _ => None
      end
  | Panic _ => None
  end.

(** C3: for the defers [a.M()], [b.M()], [a.M()] registered in this order the
    dispatcher visits the three frames last in, first out, and leaves the
    head of the chain (the first cell of the memory) null, but it looks the
    method of every frame up with the type code of [a], the interface value
    of the first registered defer: the second call it makes is the method of
    [X] on the receiver of [b], where the deferred call [b.M()] is the
    method of [Y]. *)
Theorem defer_invoke_typecode :
  exists memory memory',
    callsOf (deferThree deferAM deferBM deferAM) =
      Some ([methodCall typecodeX receiverA;
             methodCall typecodeX receiverB;
             methodCall typecodeX receiverA], memory) /\
    memory !! 0%nat = Some exec.RNull /\
    callsOf (callThree deferAM deferBM deferAM) =
      Some ([methodCall typecodeX receiverA;
             methodCall typecodeY receiverB;
             methodCall typecodeX receiverA], memory') /\
    methodCall typecodeX receiverB <> methodCall typecodeY receiverB.
Proof.
  eexists _, _. split; [vm_compute; reflexivity|].
  split; [reflexivity|]. split; [vm_compute; reflexivity|]. discriminate.
Qed.

(** The scenario of three defers of other kinds: [defer A()], [defer B(7)]
    and a deferred function literal that captures a variable.  The calls are
    made last in, first out, each with the arguments kept in its frame, and
    the head of the chain is null at the end. *)
Definition deferA : ssa.Defer := ssa.mkDefer (ssa.mkCall (ssa.Func fnA) None []) 1.
Definition deferB : ssa.Defer :=
  ssa.mkDefer (ssa.mkCall (ssa.Func fnB) None [ssa.Register "n" (Basic Int)]) 2.
Definition deferLit : ssa.Defer :=
  ssa.mkDefer (ssa.mkCall (ssa.MakeClosure "clo" fnLit [ssa.Register "x" (Basic Int)]) None []) 3.

Example defer_three_kinds :
  exists memory,
    callsOf (deferThree deferA deferB deferLit) =
      Some ([(exec.RFunction "main.f$1", [exec.RPacked [exec.RInt 9]; exec.RUndef]);
             (exec.RFunction "main.B", [exec.RInt 7; exec.RUndef; exec.RUndef]);
             (exec.RFunction "main.A", [exec.RUndef; exec.RUndef])], memory) /\
    memory !! 0%nat = Some exec.RNull.
Proof. eexists. split; [vm_compute; reflexivity | reflexivity]. Qed.

(** ** More on the type identity *)

(** The first two characters of a string. *)
Definition prefix2 (s : string) : option (Ascii.ascii * Ascii.ascii) :=
  match s with
  | String.String a (String.String b _) => Some (a, b)
  | _ => None
  end.

Lemma tag_prefix_free (u u' : Type_) (r r' : string) :
  isNamed u = false -> isNamed u' = false ->
  (forall vs, u <> Tuple vs) -> (forall vs, u' <> Tuple vs) ->
  constructorTag u +:+ r = constructorTag u' +:+ r' ->
  constructorTag u = constructorTag u'.
Proof.
  intros Hn Hn' Ht Ht' Heq.
  apply (f_equal prefix2) in Heq.
  destruct u; try discriminate Hn; try (by destruct (Ht vars));
  destruct u'; try discriminate Hn'; try (by destruct (Ht' vars));
  first [reflexivity | discriminate Heq].
Qed.

Lemma FormatInt_first (n : Z) (r r' : string) :
  FormatInt n +:+ r <> "~" +:+ r'.
Proof.
  unfold FormatInt, NilZero.string_of_int, NilZero.string_of_uint.
  destruct (Z.to_int n) as [d|d]; destruct d; discriminate.
Qed.

Lemma mangleWith_starts (name : string) (u : Type_) (s : string) :
  mangleWith name u = Ok s ->
  isNamed u = false /\ (forall vs, u <> Tuple vs) /\
  exists rest, s = constructorTag u +:+ name +:+ rest /\
               mangleWith "" u = Ok (constructorTag u +:+ rest).
Proof.
  destruct u; simpl; intros Hs;
    repeat match goal with
    | H : (if ?b then _ else _) = Ok _ |- _ => destruct b; [discriminate H|]
    | H : rbind ?r _ = Ok _ |- _ =>
        let a := fresh "a" in let Ha := fresh "Ha" in
        apply rbind_Ok in H as [a [Ha H]]; rewrite ?Ha; simpl
    end;
    try discriminate; injection Hs as <-;
    (split; [reflexivity|]); (split; [discriminate|]); eexists; split; reflexivity.
Qed.

Lemma getTypeCodeName_first (t : Type_) (s r : string) :
  getTypeCodeName t = Ok s -> s <> "~" +:+ r.
Proof.
  rewrite getTypeCodeName_unfold. intros Hs.
  apply mangleWith_starts in Hs as (Hn & Ht & rest & -> & _).
  destruct (Underlying t); try discriminate Hn; try (by destruct (Ht vars)); discriminate.
Qed.

Lemma unnamed_rest (u : Type_) (s : string) :
  mangleWith "" u = Ok s ->
  exists rest, s = constructorTag u +:+ rest /\ forall r, rest <> "~" +:+ r.
Proof.
  destruct u; simpl; intros Hs;
    repeat match goal with
    | H : (if ?b then _ else _) = Ok _ |- _ => destruct b; [discriminate H|]
    | H : rbind ?r _ = Ok _ |- _ =>
        let a := fresh "a" in let Ha := fresh "Ha" in
        apply rbind_Ok in H as [a [Ha H]]
    end;
    try discriminate; injection Hs as <-; eexists; (split; [reflexivity|]); intros r;
    try discriminate.
  - apply FormatInt_first.
  - destruct kind; try discriminate Ha; injection Ha as <-; discriminate.
  - eapply getTypeCodeName_first, Ha.
  - eapply getTypeCodeName_first, Ha.
  - eapply getTypeCodeName_first, Ha.
Qed.

Lemma nameOf_unnamed (t : Type_) :
  isNamed t = false ->
  match t with Named named _ => "~" +:+ named +:+ ":" | _ => "" end = "".
Proof. by destruct t. Qed.

(** X1: two types that get the same identity have underlying types of the
    same kind (both arrays, both structs, ...): the leading tags of the
    mangler are not prefixes of one another. *)
Theorem identity_determines_kind (t t' : Type_) (s : string) :
  getTypeCodeName t = Ok s -> getTypeCodeName t' = Ok s ->
  constructorTag (Underlying t) = constructorTag (Underlying t').
Proof.
  rewrite !getTypeCodeName_unfold. intros Hs Hs'.
  apply mangleWith_starts in Hs as (Hn & Ht & rest & -> & _).
  apply mangleWith_starts in Hs' as (Hn' & Ht' & rest' & Heq & _).
  by eapply tag_prefix_free.
Qed.

Definition reader : Type_ := Named "io.Reader" (Interface [("Read", Signature None [] [])]).

Lemma identity_determines_kind_witness :
  getTypeCodeName reader = Ok "interface:~io.Reader:{func:{}{}}" /\
  getTypeCodeName (Named "io.Reader" (Interface [("Close", Signature None [] [])]))
    = Ok "interface:~io.Reader:{func:{}{}}" /\
  constructorTag (Underlying reader) = "interface:".
Proof.
  split; [reflexivity|]. split; [reflexivity|].
  apply (identity_determines_kind reader
           (Named "io.Reader" (Interface [("Close", Signature None [] [])]))
           "interface:~io.Reader:{func:{}{}}"); reflexivity.
Defined.

(** X2: a named type and a type that is not named never get the same
    identity: after the leading tag, the identity of a named type goes on
    with [~], and the one of any other type does not. *)
Theorem named_unnamed_distinct (name : string) (u t' : Type_) (s s' : string) :
  isNamed t' = false ->
  getTypeCodeName (Named name u) = Ok s -> getTypeCodeName t' = Ok s' ->
  s <> s'.
Proof.
  intros Hunnamed Hs Hs' ->.
  rewrite getTypeCodeName_unfold in Hs, Hs'.
  rewrite (nameOf_unnamed t' Hunnamed) in Hs'.
  assert (Hu : Underlying t' = t') by (by destruct t').
  rewrite Hu in Hs'.
  apply mangleWith_starts in Hs as (Hn & Ht & rest & Heq & _).
  pose proof Hs' as Hs''.
  apply mangleWith_starts in Hs'' as (Hn' & Ht' & _).
  apply unnamed_rest in Hs' as (rest' & -> & Hrest').
  pose proof (tag_prefix_free _ _ _ _ Hn' Hn Ht' Ht Heq) as Htag.
  rewrite Htag in Heq. apply (inj (String.append _)) in Heq.
  rewrite !append_assoc in Heq. by apply Hrest' in Heq.
Qed.

Lemma named_unnamed_distinct_witness :
  isNamed (Pointer reader) = false /\
  getTypeCodeName (Named "pkg.P" (Pointer reader))
    = Ok "pointer:~pkg.P:interface:~io.Reader:{func:{}{}}" /\
  getTypeCodeName (Pointer reader) = Ok "pointer:interface:~io.Reader:{func:{}{}}" /\
  "pointer:~pkg.P:interface:~io.Reader:{func:{}{}}" <>
  "pointer:interface:~io.Reader:{func:{}{}}".
Proof.
  split; [reflexivity|]. split; [reflexivity|]. split; [reflexivity|].
  apply (named_unnamed_distinct "pkg.P" (Pointer reader) (Pointer reader)); reflexivity.
Defined.

(** A type without the names of its struct fields and interface methods and
    without the receivers of its signatures. *)
Fixpoint eraseNames (t : Type_) : Type_ :=
  match t with
  | Array len elem => Array len (eraseNames elem)
  | Basic kind => Basic kind
  | Chan elem => Chan (eraseNames elem)
  | Interface methods => Interface (map (fun m => ("", eraseNames (snd m))) methods)
  | Map key elem => Map (eraseNames key) (eraseNames elem)
  | Pointer elem => Pointer (eraseNames elem)
  | Signature _ params results => Signature None (map eraseNames params) (map eraseNames results)
  | Slice elem => Slice (eraseNames elem)
  | Struct fields => Struct (map (fun f => ("", eraseNames (snd f))) fields)
  | Tuple vars => Tuple (map eraseNames vars)
  | Named name underlying => Named name (eraseNames underlying)
  end.

(** Induction on types that reaches the types inside fields, methods,
    parameters and results. *)
Section Type_nested_ind.
Variable P : Type_ -> Prop.
Hypothesis HArray : forall len elem, P elem -> P (Array len elem).
Hypothesis HBasic : forall kind, P (Basic kind).
Hypothesis HChan : forall elem, P elem -> P (Chan elem).
Hypothesis HInterface : forall methods, Forall (fun m => P (snd m)) methods -> P (Interface methods).
Hypothesis HMap : forall key elem, P key -> P elem -> P (Map key elem).
Hypothesis HPointer : forall elem, P elem -> P (Pointer elem).
Hypothesis HSignature : forall recv params results,
  Forall P params -> Forall P results -> P (Signature recv params results).
Hypothesis HSlice : forall elem, P elem -> P (Slice elem).
Hypothesis HStruct : forall fields, Forall (fun f => P (snd f)) fields -> P (Struct fields).
Hypothesis HTuple : forall vars, Forall P vars -> P (Tuple vars).
Hypothesis HNamed : forall name underlying, P underlying -> P (Named name underlying).

Fixpoint Type_nested_ind (t : Type_) : P t :=
  let members := fix members (l : list (string * Type_)) : Forall (fun m => P (snd m)) l :=
    match l with
    | [] => @List.Forall_nil _ _
    | m :: rest => @List.Forall_cons _ _ m rest (Type_nested_ind (snd m)) (members rest)
    end in
  let all := fix all (l : list Type_) : Forall P l :=
    match l with
    | [] => @List.Forall_nil _ _
    | x :: rest => @List.Forall_cons _ _ x rest (Type_nested_ind x) (all rest)
    end in
  match t with
  | Array len elem => HArray len elem (Type_nested_ind elem)
  | Basic kind => HBasic kind
  | Chan elem => HChan elem (Type_nested_ind elem)
  | Interface methods => HInterface methods (members methods)
  | Map key elem => HMap key elem (Type_nested_ind key) (Type_nested_ind elem)
  | Pointer elem => HPointer elem (Type_nested_ind elem)
  | Signature recv params results => HSignature recv params results (all params) (all results)
  | Slice elem => HSlice elem (Type_nested_ind elem)
  | Struct fields => HStruct fields (members fields)
  | Tuple vars => HTuple vars (all vars)
  | Named name underlying => HNamed name underlying (Type_nested_ind underlying)
  end.
End Type_nested_ind.

Lemma Underlying_eraseNames (t : Type_) : Underlying (eraseNames t) = eraseNames (Underlying t).
Proof. induction t; simpl; auto. Qed.

Lemma sequence_map_Ok {A B : Type} (f g : A -> result B) (l : list A) (bs : list B) :
  Forall (fun a => forall b, f a = Ok b -> g a = Ok b) l ->
  sequence (map f l) = Ok bs -> sequence (map g l) = Ok bs.
Proof.
  intros Hall. revert bs. induction Hall as [|a l Ha _ IH]; intros bs; simpl; [done|].
  destruct (f a) as [b|] eqn:Hb; [|discriminate].
  rewrite (Ha b eq_refl). intros [bs' [Hbs' ?]]%rbind_Ok.
  by rewrite (IH bs' Hbs').
Qed.

Lemma mangleWith_rename (name name' : string) (u : Type_) (s : string) :
  mangleWith name u = Ok s ->
  exists rest, s = constructorTag u +:+ name +:+ rest /\
               mangleWith name' u = Ok (constructorTag u +:+ name' +:+ rest).
Proof.
  intros Hs. apply mangleWith_starts in Hs as (_ & _ & rest & -> & Hs).
  apply (mangleWith_tag name') in Hs as (rest' & Heq & Hs).
  apply (inj (String.append _)) in Heq as <-. by exists rest.
Qed.

Lemma constructorTag_eraseNames (t : Type_) :
  constructorTag (eraseNames t) = constructorTag t.
Proof. by destruct t. Qed.

Definition nameSegment (t : Type_) : string :=
  match t with Named named _ => "~" +:+ named +:+ ":" | _ => "" end.

Lemma nameSegment_eraseNames (t : Type_) : nameSegment (eraseNames t) = nameSegment t.
Proof. by destruct t. Qed.

Lemma isCgoUnion_erased (fields : list (string * Type_)) :
  isCgoUnion (map (fun f => ("", eraseNames (snd f))) fields) = false.
Proof.
  unfold isCgoUnion. apply andb_false_iff. right.
  destruct fields as [|f rest]; [done|]. cbn [map fst]. by apply bool_decide_eq_false.
Qed.

Lemma getTypeCodeName_eraseNames (t : Type_) :
  forall s, getTypeCodeName t = Ok s -> getTypeCodeName (eraseNames t) = Ok s.
Proof.
  induction t using Type_nested_ind; intros s Hs.
  - (* Array *)
    change (rbind (getTypeCodeName t) (fun e =>
              Ok ("array:" +:+ "" +:+ FormatInt len +:+ ":" +:+ e)) = Ok s) in Hs.
    apply rbind_Ok in Hs as [e [He Hs]].
    change (rbind (getTypeCodeName (eraseNames t)) (fun e =>
              Ok ("array:" +:+ "" +:+ FormatInt len +:+ ":" +:+ e)) = Ok s).
    by rewrite (IHt e He).
  - exact Hs.
  - change (rbind (getTypeCodeName t) (fun e => Ok ("chan:" +:+ "" +:+ e)) = Ok s) in Hs.
    apply rbind_Ok in Hs as [e [He Hs]].
    change (rbind (getTypeCodeName (eraseNames t)) (fun e => Ok ("chan:" +:+ "" +:+ e)) = Ok s).
    by rewrite (IHt e He).
  - change (rbind (sequence (map (fun m => getTypeCodeName (snd m)) methods)) (fun ms =>
              Ok ("interface:" +:+ "" +:+ "{" +:+ Join ms "," +:+ "}")) = Ok s) in Hs.
    apply rbind_Ok in Hs as [ms [Hms Hs]].
    change (rbind (sequence (map (fun m => getTypeCodeName (snd m))
                     (map (fun m => ("", eraseNames (snd m))) methods))) (fun ms =>
              Ok ("interface:" +:+ "" +:+ "{" +:+ Join ms "," +:+ "}")) = Ok s).
    rewrite map_map. simpl.
    by rewrite (sequence_map_Ok _ (fun m => getTypeCodeName (eraseNames (snd m))) _ _ H Hms).
  - change (rbind (getTypeCodeName t1) (fun keyType =>
            rbind (getTypeCodeName t2) (fun elemType =>
              Ok ("map:" +:+ "" +:+ "{" +:+ keyType +:+ "," +:+ elemType +:+ "}"))) = Ok s) in Hs.
    apply rbind_Ok in Hs as [k [Hk Hs]]. apply rbind_Ok in Hs as [e [He Hs]].
    change (rbind (getTypeCodeName (eraseNames t1)) (fun keyType =>
            rbind (getTypeCodeName (eraseNames t2)) (fun elemType =>
              Ok ("map:" +:+ "" +:+ "{" +:+ keyType +:+ "," +:+ elemType +:+ "}"))) = Ok s).
    by rewrite (IHt1 k Hk), (IHt2 e He).
  - change (rbind (getTypeCodeName t) (fun e => Ok ("pointer:" +:+ "" +:+ e)) = Ok s) in Hs.
    apply rbind_Ok in Hs as [e [He Hs]].
    change (rbind (getTypeCodeName (eraseNames t)) (fun e => Ok ("pointer:" +:+ "" +:+ e)) = Ok s).
    by rewrite (IHt e He).
  - change (rbind (sequence (map getTypeCodeName params)) (fun ps =>
            rbind (sequence (map getTypeCodeName results)) (fun rs =>
              Ok ("func:" +:+ "" +:+ "{" +:+ Join ps "," +:+ "}{" +:+ Join rs "," +:+ "}")))
            = Ok s) in Hs.
    apply rbind_Ok in Hs as [ps [Hps Hs]]. apply rbind_Ok in Hs as [rs [Hrs Hs]].
    change (rbind (sequence (map getTypeCodeName (map eraseNames params))) (fun ps =>
            rbind (sequence (map getTypeCodeName (map eraseNames results))) (fun rs =>
              Ok ("func:" +:+ "" +:+ "{" +:+ Join ps "," +:+ "}{" +:+ Join rs "," +:+ "}")))
            = Ok s).
    rewrite !map_map.
    rewrite (sequence_map_Ok _ (fun p => getTypeCodeName (eraseNames p)) _ _ H Hps).
    by rewrite (sequence_map_Ok _ (fun p => getTypeCodeName (eraseNames p)) _ _ H0 Hrs).
  - change (rbind (getTypeCodeName t) (fun e => Ok ("slice:" +:+ "" +:+ e)) = Ok s) in Hs.
    apply rbind_Ok in Hs as [e [He Hs]].
    change (rbind (getTypeCodeName (eraseNames t)) (fun e => Ok ("slice:" +:+ "" +:+ e)) = Ok s).
    by rewrite (IHt e He).
  - rewrite getTypeCodeName_Struct in Hs.
    destruct (isCgoUnion fields); [discriminate|].
    apply rbind_Ok in Hs as [es [Hes Hs]].
    change (getTypeCodeName (Struct (map (fun f => ("", eraseNames (snd f))) fields)) = Ok s).
    rewrite getTypeCodeName_Struct, isCgoUnion_erased, map_map. simpl.
    by rewrite (sequence_map_Ok _ (fun f => getTypeCodeName (eraseNames (snd f))) _ _ H Hes).
  - discriminate Hs.
  - (* Named *)
    rewrite getTypeCodeName_unfold in Hs. cbn [Underlying] in Hs.
    rewrite getTypeCodeName_unfold. cbn [eraseNames Underlying].
    rewrite Underlying_eraseNames.
    apply (mangleWith_rename _ (nameSegment t)) in Hs as (rest & -> & Hu).
    fold (nameSegment t) in IHt.
    assert (Ht : getTypeCodeName t = Ok (constructorTag (Underlying t) +:+ nameSegment t +:+ rest)).
    { by rewrite getTypeCodeName_unfold. }
    apply IHt in Ht. rewrite getTypeCodeName_unfold, Underlying_eraseNames in Ht.
    fold (nameSegment (eraseNames t)) in Ht. rewrite nameSegment_eraseNames in Ht.
    apply (mangleWith_rename _ ("~" +:+ name +:+ ":")) in Ht as (rest' & Heq & ->).
    rewrite constructorTag_eraseNames in Heq |- *.
    apply (inj (String.append _)) in Heq. apply (inj (String.append _)) in Heq.
    by rewrite Heq.
Qed.

(** X3: the identity of a type does not depend on the names of struct
    fields, on the names of interface methods or on the receivers of
    signatures, at any depth: two types that are equal once these are erased
    get the same identity. *)
Theorem identity_ignores_names (t t' : Type_) (s s' : string) :
  eraseNames t = eraseNames t' ->
  getTypeCodeName t = Ok s -> getTypeCodeName t' = Ok s' ->
  s = s'.
Proof.
  intros Herased Hs%getTypeCodeName_eraseNames Hs'%getTypeCodeName_eraseNames.
  rewrite Herased, Hs' in Hs. by injection Hs.
Qed.

Definition sliceOfPairs (first second : string) : Type_ :=
  Slice (Struct [(first, Basic Int32);
                 (second, Interface [("Get", Signature (Some (Basic Int)) [Basic Int8] [])])]).

Lemma identity_ignores_names_witness :
  eraseNames (sliceOfPairs "x" "y") = eraseNames (sliceOfPairs "C union" "z") /\
  getTypeCodeName (sliceOfPairs "x" "y")
    = Ok "slice:struct:{basic:int32,interface:{func:{basic:int8}{}}}" /\
  getTypeCodeName (sliceOfPairs "C union" "z")
    = Ok "slice:struct:{basic:int32,interface:{func:{basic:int8}{}}}" /\
  "slice:struct:{basic:int32,interface:{func:{basic:int8}{}}}" =
  "slice:struct:{basic:int32,interface:{func:{basic:int8}{}}}".
Proof.
  split; [reflexivity|]. split; [reflexivity|]. split; [reflexivity|].
  apply (identity_ignores_names (sliceOfPairs "x" "y") (sliceOfPairs "C union" "z"));
    reflexivity.
Defined.

(** ** Edge cases of type assertions *)

Section edge_properties.
Context `{Program}.

Lemma getInterfaceMethodSet_empty typ c :
  Underlying typ = Interface [] ->
  llvm.NamedGlobal (mod_ c) (String_ typ +:+ "$interface") = None ->
  getInterfaceMethodSet typ c = Panic "index out of range".
Proof.
  intros Hu Hnone. unfold getInterfaceMethodSet. unfold_M. by rewrite Hnone, Hu.
Qed.

(** X4: a type assertion to a named interface type without methods whose
    method set has not been emitted yet makes the compiler panic:
    [getInterfaceMethodSet] takes the type of the first method signature of
    an empty list. *)
Theorem typeAssert_empty_interface_panics frame expr c itf bb :
  locals frame !! ssa.ValueName (ssa.X expr) = Some itf ->
  llvm.insertBlock (builder c) = Some bb ->
  is_Some (blockAt (mod_ c) bb) ->
  isNamed (ssa.AssertedType expr) = true ->
  Underlying (ssa.AssertedType expr) = Interface [] ->
  llvm.NamedGlobal (mod_ c) (String_ (ssa.AssertedType expr) +:+ "$interface") = None ->
  parseTypeAssert frame expr c = Panic "index out of range".
Proof.
  intros Hitf Hbb Hblock Hnamed Hu Hnone.
  unfold parseTypeAssert, getValue. rewrite Hitf.
  unfold CreateExtractValue.
  unfold mbind at 1, M_bind at 1. unfold mret at 1, M_ret at 1.
  unfold mbind at 1, M_bind at 1.
  unfold mbind at 1, M_bind at 1. unfold get at 1.
  rewrite (emit_eq _ _ _ _ Hbb Hblock).
  rewrite Hu, Hnamed. cbn [isInterface].
  unfold mbind at 1, M_bind at 1.
  unfold mbind at 1, M_bind at 1.
  by rewrite getInterfaceMethodSet_empty.
Qed.

End edge_properties.

Definition assertAny : ssa.TypeAssert :=
  ssa.mkTypeAssert (ssa.Register "a" shapeI) (Named "main.Any" (Interface [])) true.

Lemma typeAssert_empty_interface_panics_witness :
  parseTypeAssert (H := exampleProgram) exampleFrame assertAny exampleCompiler
    = Panic "index out of range".
Proof.
  eapply (typeAssert_empty_interface_panics (H := exampleProgram) exampleFrame assertAny
           exampleCompiler _ ("main.f", 0%nat)); try reflexivity.
  vm_compute. by eexists.
Defined.

(** ** The callback numbers of defers *)

(** The callback table of a frame after a defer instruction: the callee gets
    the next number when it has none yet. *)
Definition registered (frame : Frame) (instr : ssa.Defer) : Frame :=
  let call := ssa.Call instr in
  match ssa.Method call with
  | Some method =>
      match deferInvokeFuncs frame !! FullName method with
      | Some _ => frame
      | None => setDeferInvoke (FullName method) call frame
      end
  | None =>
      match ssa.CallValue call with
      | ssa.Func callee =>
          match deferFuncs frame !! ssa.Name callee with
          | Some _ => frame
          | None => setDeferFunc callee frame
          end
      | ssa.MakeClosure _ fn bindings =>
          match deferClosureFuncs frame !! ssa.Name fn with
          | Some _ => frame
          | None => setDeferClosure fn bindings frame
          end
      | _ => frame
      end
  end.

Lemma emitDefer_registered frame instr c frame' c' :
  emitDefer frame instr c = Ok (frame', c') -> frame' = registered frame instr.
Proof.
  unfold emitDefer, registered. intros Hc.
  destruct (deferPtr frame) as [ptr|]; [|discriminate].
  apply bind_Ok in Hc as [next [c1 [_ Hc]]].
  apply bind_Ok in Hc as [c2 [c3 [_ Hc]]].
  apply bind_Ok in Hc as [collected [c4 [Hcollected Hc]]].
  assert (Hframe : match collected with
                   | Some (fr, _, _) => fr = registered frame instr
                   | None => frame = registered frame instr
                   end).
  { unfold registered. clear Hc.
    destruct (ssa.Method (ssa.Call instr)) as [method|].
    - apply bind_Ok in Hcollected as [itf [c5 [_ Hc]]].
      apply bind_Ok in Hc as [recv [c6 [_ Hc]]].
      apply bind_Ok in Hc as [args [c7 [_ Hc]]].
      apply mret_Ok in Hc as [-> _].
      by destruct (deferInvokeFuncs frame !! FullName method).
    - destruct (ssa.CallValue (ssa.Call instr)) as [n t|callee|n fn bindings].
      + apply bind_Ok in Hcollected as [u [c5 [_ Hc]]].
        by apply mret_Ok in Hc as [-> _].
      + apply bind_Ok in Hcollected as [params [c5 [_ Hc]]].
        apply mret_Ok in Hc as [-> _].
        by destruct (deferFuncs frame !! ssa.Name callee).
      + apply bind_Ok in Hcollected as [closure [c5 [_ Hc]]].
        apply bind_Ok in Hc as [context [c6 [_ Hc]]].
        apply bind_Ok in Hc as [params [c7 [_ Hc]]].
        apply mret_Ok in Hc as [-> _].
        by destruct (deferClosureFuncs frame !! ssa.Name fn). }
  unfold registered in Hframe.
  destruct collected as [[[fr values] valueTypes]|].
  - apply bind_Ok in Hc as [deferFrame [c5 [_ Hc]]].
    apply bind_Ok in Hc as [alloca [c6 [_ Hc]]].
    apply bind_Ok in Hc as [u1 [c7 [_ Hc]]].
    apply bind_Ok in Hc as [u2 [c8 [_ Hc]]].
    apply bind_Ok in Hc as [cast [c9 [_ Hc]]].
    apply bind_Ok in Hc as [u3 [c10 [_ Hc]]].
    apply mret_Ok in Hc as [-> _]. exact Hframe.
  - apply mret_Ok in Hc as [-> _]. exact Hframe.
Qed.

(** The callback numbers of a frame are sound: every number that one of the
    three maps gives is the position, in [allDeferFuncs], of a callback of
    the kind of the map and of the callee the key names. *)
Definition callbacksSound (frame : Frame) : Prop :=
  (forall name i, deferFuncs frame !! name = Some i ->
     exists f, allDeferFuncs frame !! i = Some (FunctionCallback f) /\ ssa.Name f = name) /\
  (forall name i, deferInvokeFuncs frame !! name = Some i ->
     exists call method,
       allDeferFuncs frame !! i = Some (InvokeCallback call) /\
       ssa.Method call = Some method /\ FullName method = name) /\
  (forall name i, deferClosureFuncs frame !! name = Some i ->
     exists fn bindings,
       allDeferFuncs frame !! i = Some (ClosureCallback fn bindings) /\ ssa.Name fn = name).

(** The callee of a defer instruction has a callback number. *)
Definition calleeRegistered (frame : Frame) (instr : ssa.Defer) : Prop :=
  match ssa.Method (ssa.Call instr), ssa.CallValue (ssa.Call instr) with
  | Some method, _ => is_Some (deferInvokeFuncs frame !! FullName method)
  | None, ssa.Func callee => is_Some (deferFuncs frame !! ssa.Name callee)
  | None, ssa.MakeClosure _ fn _ => is_Some (deferClosureFuncs frame !! ssa.Name fn)
  | None, ssa.Register _ _ => True
  end.

Lemma lookup_snoc_Some {A : Type} (l : list A) (x y : A) (i : nat) :
  l !! i = Some y -> (l ++ [x]) !! i = Some y.
Proof. apply lookup_app_l_Some. Qed.

Lemma lookup_snoc_length {A : Type} (l : list A) (x : A) :
  (l ++ [x]) !! length l = Some x.
Proof. by rewrite lookup_app_r, Nat.sub_diag. Qed.

Lemma registered_sound frame instr :
  callbacksSound frame ->
  callbacksSound (registered frame instr) /\
  allDeferFuncs frame `prefix_of` allDeferFuncs (registered frame instr) /\
  (length (allDeferFuncs (registered frame instr)) <= S (length (allDeferFuncs frame)))%nat /\
  calleeRegistered (registered frame instr) instr /\
  (forall name i, deferFuncs frame !! name = Some i ->
                  deferFuncs (registered frame instr) !! name = Some i) /\
  (forall name i, deferInvokeFuncs frame !! name = Some i ->
                  deferInvokeFuncs (registered frame instr) !! name = Some i) /\
  (forall name i, deferClosureFuncs frame !! name = Some i ->
                  deferClosureFuncs (registered frame instr) !! name = Some i).
Proof.
  intros (Hfuncs & Hinvokes & Hclosures).
  unfold registered, calleeRegistered.
  destruct (ssa.Method (ssa.Call instr)) as [method|] eqn:Hmethod.
  - destruct (deferInvokeFuncs frame !! FullName method) as [i|] eqn:Hi.
    { rewrite Hi. repeat split; try done; try lia. }
    unfold callbacksSound. simpl. rewrite lookup_insert_eq, length_app. simpl.
    split; [split; [|split]|].
    + intros name i Hname. destruct (Hfuncs name i Hname) as (f & Hf & ?).
      exists f. split; [by apply lookup_snoc_Some | done].
    + intros name i Hname. destruct (decide (name = FullName method)) as [->|Hne].
      * rewrite lookup_insert_eq in Hname. injection Hname as <-.
        exists (ssa.Call instr), method. by rewrite lookup_snoc_length.
      * rewrite lookup_insert_ne in Hname by done.
        destruct (Hinvokes name i Hname) as (call & m & Hcall & ?).
        exists call, m. split; [by apply lookup_snoc_Some | done].
    + intros name i Hname. destruct (Hclosures name i Hname) as (fn & bs & Hfn & ?).
      exists fn, bs. split; [by apply lookup_snoc_Some | done].
    + split; [by apply prefix_app_r|]. split; [lia|]. split; [done|].
      split; [done|]. split; [|done].
      intros name i Hname. rewrite lookup_insert_ne; [done|]. intros <-. congruence.
  - destruct (ssa.CallValue (ssa.Call instr)) as [n t|callee|n fn bindings] eqn:Hvalue.
    + repeat split; try done; lia.
    + destruct (deferFuncs frame !! ssa.Name callee) as [i|] eqn:Hi.
      { rewrite Hi. repeat split; try done; try lia. }
      unfold callbacksSound. simpl. rewrite lookup_insert_eq, length_app. simpl.
      split; [split; [|split]|].
      * intros name i Hname. destruct (decide (name = ssa.Name callee)) as [->|Hne].
        -- rewrite lookup_insert_eq in Hname. injection Hname as <-.
           exists callee. by rewrite lookup_snoc_length.
        -- rewrite lookup_insert_ne in Hname by done.
           destruct (Hfuncs name i Hname) as (f & Hf & ?).
           exists f. split; [by apply lookup_snoc_Some | done].
      * intros name i Hname. destruct (Hinvokes name i Hname) as (call & m & Hcall & ?).
        exists call, m. split; [by apply lookup_snoc_Some | done].
      * intros name i Hname. destruct (Hclosures name i Hname) as (f & bs & Hf & ?).
        exists f, bs. split; [by apply lookup_snoc_Some | done].
      * split; [by apply prefix_app_r|]. split; [lia|]. split; [done|].
        split; [|done].
        intros name i Hname. rewrite lookup_insert_ne; [done|]. intros <-. congruence.
    + destruct (deferClosureFuncs frame !! ssa.Name fn) as [i|] eqn:Hi.
      { rewrite Hi. repeat split; try done; try lia. }
      unfold callbacksSound. simpl. rewrite lookup_insert_eq, length_app. simpl.
      split; [split; [|split]|].
      * intros name i Hname. destruct (Hfuncs name i Hname) as (f & Hf & ?).
        exists f. split; [by apply lookup_snoc_Some | done].
      * intros name i Hname. destruct (Hinvokes name i Hname) as (call & m & Hcall & ?).
        exists call, m. split; [by apply lookup_snoc_Some | done].
      * intros name i Hname. destruct (decide (name = ssa.Name fn)) as [->|Hne].
        -- rewrite lookup_insert_eq in Hname. injection Hname as <-.
           exists fn, bindings. by rewrite lookup_snoc_length.
        -- rewrite lookup_insert_ne in Hname by done.
           destruct (Hclosures name i Hname) as (f & bs & Hf & ?).
           exists f, bs. split; [by apply lookup_snoc_Some | done].
      * split; [by apply prefix_app_r|]. split; [lia|]. split; [done|].
        split; [done|]. split; [done|].
        intros name i Hname. rewrite lookup_insert_ne; [done|]. intros <-. congruence.
Qed.

Lemma deferInitFunc_sound frame c frame' c' :
  deferInitFunc frame c = Ok (frame', c') -> callbacksSound frame'.
Proof.
  unfold deferInitFunc. intros Hc.
  apply bind_Ok in Hc as [ptr [c1 [_ Hc]]].
  apply bind_Ok in Hc as [u [c2 [_ Hc]]].
  apply mret_Ok in Hc as [-> _].
  by repeat split; intros name i; simpl; rewrite lookup_empty.
Qed.

(** The numbers that the maps of [frame] give are given by [frame'] as
    well. *)
Definition numbersKept (frame frame' : Frame) : Prop :=
  (forall name i, deferFuncs frame !! name = Some i -> deferFuncs frame' !! name = Some i) /\
  (forall name i, deferInvokeFuncs frame !! name = Some i ->
                  deferInvokeFuncs frame' !! name = Some i) /\
  (forall name i, deferClosureFuncs frame !! name = Some i ->
                  deferClosureFuncs frame' !! name = Some i).

Lemma calleeRegistered_kept frame frame' instr :
  numbersKept frame frame' -> calleeRegistered frame instr -> calleeRegistered frame' instr.
Proof.
  intros (Hfuncs & Hinvokes & Hclosures). unfold calleeRegistered.
  destruct (ssa.Method (ssa.Call instr)) as [method|].
  - intros [i Hi]. exists i. by apply Hinvokes.
  - destruct (ssa.CallValue (ssa.Call instr)); [done| |].
    + intros [i Hi]. exists i. by apply Hfuncs.
    + intros [i Hi]. exists i. by apply Hclosures.
Qed.

Lemma emitDefer_sound frame instr c frame' c' :
  emitDefer frame instr c = Ok (frame', c') ->
  callbacksSound frame ->
  callbacksSound frame' /\
  allDeferFuncs frame `prefix_of` allDeferFuncs frame' /\
  (length (allDeferFuncs frame') <= S (length (allDeferFuncs frame)))%nat /\
  calleeRegistered frame' instr /\
  numbersKept frame frame'.
Proof.
  intros ->%emitDefer_registered Hsound.
  destruct (registered_sound frame instr Hsound) as (? & ? & ? & ? & ?). done.
Qed.

Lemma foldM_emitDefer_sound (instrs : list ssa.Defer) :
  forall frame c frame' c',
    foldM emitDefer instrs frame c = Ok (frame', c') ->
    callbacksSound frame ->
    callbacksSound frame' /\
    allDeferFuncs frame `prefix_of` allDeferFuncs frame' /\
    (length (allDeferFuncs frame') <= length (allDeferFuncs frame) + length instrs)%nat /\
    Forall (calleeRegistered frame') instrs /\
    numbersKept frame frame'.
Proof.
  induction instrs as [|instr instrs IH]; intros frame c frame' c' Hc Hsound; simpl in Hc.
  - apply mret_Ok in Hc as [-> _]. split; [done|]. split; [done|].
    split; [simpl; lia|]. split; [constructor|]. by repeat split.
  - apply bind_Ok in Hc as [frame1 [c1 [H1 Hc]]].
    destruct (emitDefer_sound _ _ _ _ _ H1 Hsound) as (Hs1 & Hp1 & Hl1 & Hr1 & Hk1).
    destruct (IH _ _ _ _ Hc Hs1) as (Hs2 & Hp2 & Hl2 & Hr2 & Hk2).
    split; [done|]. split; [by etrans|]. split; [simpl; lia|].
    split.
    + constructor; [by eapply calleeRegistered_kept | done].
    + destruct Hk1 as (? & ? & ?), Hk2 as (? & ? & ?). repeat split; eauto.
Qed.

(** X5: the callback numbers of the defers of a function are sound.  After
    [deferInitFunc] and any sequence of [emitDefer], every number that the
    frame keeps for a function, an interface method or a closure is the
    position in [allDeferFuncs] of a callback of that kind for that callee;
    the callee of every defer instruction compiled has a number; and
    [allDeferFuncs] only grows at its end, by at most one callback for each
    defer instruction, so that a number, once given, keeps its meaning. *)
Theorem defer_callbacks_sound (instrs : list ssa.Defer) frame0 c0 frame c frame' c' :
  deferInitFunc frame0 c0 = Ok (frame, c) ->
  foldM emitDefer instrs frame c = Ok (frame', c') ->
  callbacksSound frame' /\
  allDeferFuncs frame0 `prefix_of` allDeferFuncs frame' /\
  (length (allDeferFuncs frame') <= length (allDeferFuncs frame0) + length instrs)%nat /\
  Forall (calleeRegistered frame') instrs.
Proof.
  intros Hinit Hc.
  pose proof (deferInitFunc_sound _ _ _ _ Hinit) as Hsound.
  destruct (foldM_emitDefer_sound _ _ _ _ _ Hc Hsound) as (Hs & Hp & Hl & Hr & _).
  assert (Hall : allDeferFuncs frame = allDeferFuncs frame0).
  { unfold deferInitFunc in Hinit.
    apply bind_Ok in Hinit as [ptr [c1 [_ Hinit]]].
    apply bind_Ok in Hinit as [u [c2 [_ Hinit]]].
    by apply mret_Ok in Hinit as [-> _]. }
  rewrite Hall in Hp, Hl. done.
Qed.

Lemma defer_callbacks_sound_witness :
  exists frame c frame' c',
    deferInitFunc exampleFrame exampleCompiler = Ok (frame, c) /\
    foldM emitDefer [deferA; deferB; deferA; deferLit] frame c = Ok (frame', c') /\
    callbacksSound frame' /\
    allDeferFuncs exampleFrame `prefix_of` allDeferFuncs frame' /\
    (length (allDeferFuncs frame') <= length (allDeferFuncs exampleFrame) + 4)%nat /\
    Forall (calleeRegistered frame') [deferA; deferB; deferA; deferLit].
Proof.
  eexists _, _, _, _. split; [vm_compute; reflexivity|]. split; [vm_compute; reflexivity|].
  eapply (defer_callbacks_sound [deferA; deferB; deferA; deferLit] exampleFrame exampleCompiler);
    vm_compute; reflexivity.
Defined.

(** ** Defers that are not compiled *)

(** X6: a defer of a call that is neither a call of an interface method, nor
    of a function, nor of a function literal with free variables (the call of
    a function value held in a variable) is not compiled: an error is
    reported at the position of the instruction, the only instruction emitted
    is the load of the head of the list of defer frames, and the frame
    registers no callback. *)
Theorem emitDefer_unsupported frame instr c ptr name t bb :
  deferPtr frame = Some ptr ->
  ssa.Method (ssa.Call instr) = None ->
  ssa.CallValue (ssa.Call instr) = ssa.Register name t ->
  llvm.insertBlock (builder c) = Some bb ->
  is_Some (blockAt (mod_ c) bb) ->
  exists c',
    emitDefer frame instr c = Ok (frame, c') /\
    diagnostics c' =
      diagnostics c ++ [(ssa.DeferPos instr, "todo: defer on uncommon function call type")] /\
    blockInstrs (mod_ c') bb =
      blockInstrs (mod_ c) bb ++ [(llvm.nextInst (builder c), llvm.Load ptr)] /\
    (forall bb', bb' <> bb -> blockInstrs (mod_ c') bb' = blockInstrs (mod_ c) bb').
Proof.
  intros Hptr Hmethod Hvalue Hbb Hblock.
  unfold emitDefer. rewrite Hptr, Hmethod, Hvalue.
  unfold CreateLoad.
  rewrite (bind_eq _ _ _ _ _ (emit_eq _ _ _ _ Hbb Hblock)).
  unfold addError, modify, get, mbind, M_bind, mret, M_ret. simpl.
  eexists. split; [reflexivity|]. split; [reflexivity|]. split.
  - by apply blockInstrs_emitAt_eq.
  - intros bb' Hne. by apply blockInstrs_emitAt_ne.
Qed.

Definition deferVariable : ssa.Defer :=
  ssa.mkDefer (ssa.mkCall (ssa.Register "clo" (Signature None [] [])) None []) 5.

(** The frame and the compiler of [main.f] once [deferInitFunc] has run. *)
Definition deferReady : Frame * Compiler :=
  match deferInitFunc exampleFrame exampleCompiler with
  | Ok r => r
  | Panic _ => (exampleFrame, exampleCompiler)
  end.

Lemma emitDefer_unsupported_witness :
  exists c',
    emitDefer (fst deferReady) deferVariable (snd deferReady) = Ok (fst deferReady, c') /\
    diagnostics c' =
      diagnostics (snd deferReady)
      ++ [(ssa.DeferPos deferVariable, "todo: defer on uncommon function call type")] /\
    blockInstrs (mod_ c') ("main.f", 0%nat) =
      blockInstrs (mod_ (snd deferReady)) ("main.f", 0%nat)
      ++ [(llvm.nextInst (builder (snd deferReady)),
           llvm.Load (llvm.Inst 0 (llvm.PointerType deferType 0)))] /\
    (forall bb', bb' <> ("main.f", 0%nat) ->
       blockInstrs (mod_ c') bb' = blockInstrs (mod_ (snd deferReady)) bb').
Proof.
  apply (emitDefer_unsupported (fst deferReady) deferVariable (snd deferReady)
           (llvm.Inst 0 (llvm.PointerType deferType 0)) "clo" (Signature None [] [])
           ("main.f", 0%nat)); try reflexivity.
  vm_compute. by eexists.
Defined.

(** ** Function values *)

Section funcvalue_properties.
Context `{Program}.

Lemma funcImplementation_switch c : funcImplementation c = funcValueSwitch.
Proof. unfold funcImplementation. by rewrite orb_true_r. Qed.

Lemma getFuncSignature_spec sig c g c' :
  getFuncSignature sig c = Ok (g, c') ->
  exists name,
    getTypeCodeName (SigType sig) = Ok name /\
    llvm.Name g = "reflect/types.type:" +:+ name /\
    is_Some (llvm.globals (mod_ c') !! ("reflect/types.type:" +:+ name)) /\
    builder c' = builder c /\ uintptrType c' = uintptrType c /\
    llvm.functions (mod_ c') = llvm.functions (mod_ c) /\
    (forall k, k <> "reflect/types.type:" +:+ name ->
               llvm.globals (mod_ c') !! k = llvm.globals (mod_ c) !! k) /\
    (is_Some (llvm.globals (mod_ c) !! ("reflect/types.type:" +:+ name)) -> c' = c).
Proof.
  unfold getFuncSignature. intros Hc.
  apply bind_Ok in Hc as [name [c1 [Hname Hc]]].
  unfold lift in Hname. destruct (getTypeCodeName (SigType sig)) as [n|]; [|discriminate].
  injection Hname as -> <-. exists name. split; [done|].
  revert Hc. unfold_M. unfold_llvm. intros Hc.
  destruct (llvm.globals (mod_ c) !! ("reflect/types.type:" +:+ name)) as [d|] eqn:Hd.
  - simplify_eq. simpl. rewrite Hd. by repeat split.
  - simplify_eq. simpl.
    split; [done|]. split; [rewrite !is_Some_alter, lookup_insert_eq; by eexists|].
    split; [done|]. split; [done|]. split; [done|]. split.
    + intros k Hk. rewrite !lookup_alter_ne, lookup_insert_ne; congruence.
    + by intros [? ?].
Qed.

Fixpoint lastChar (s : string) : option Ascii.ascii :=
  match s with
  | EmptyString => None
  | String.String x EmptyString => Some x
  | String.String _ rest => lastChar rest
  end.

Lemma lastChar_append (a s : string) :
  s <> "" -> lastChar (a +:+ s) = lastChar s.
Proof.
  intros Hs. induction a as [|y a IH]; [reflexivity|].
  change (lastChar (String.String y (a +:+ s)) = lastChar s).
  rewrite <- IH. cbn [lastChar].
  destruct (a +:+ s) eqn:Heq; [|reflexivity].
  apply (f_equal String.length) in Heq. rewrite length_append in Heq.
  destruct s; [done|]. simpl in Heq. lia.
Qed.

Lemma signature_name_last (sig : Sig) (name : string) :
  getTypeCodeName (SigType sig) = Ok name -> exists r, name = r +:+ "}".
Proof.
  unfold SigType. rewrite getTypeCodeName_unfold. cbn [Underlying mangleWith]. intros Hs.
  apply rbind_Ok in Hs as [ps [_ Hs]]. apply rbind_Ok in Hs as [rs [_ Hs]].
  injection Hs as <-. eexists. rewrite <- !append_assoc. reflexivity.
Qed.

Lemma withSignature_fresh (fn : string) (sig : Sig) (name : string) :
  getTypeCodeName (SigType sig) = Ok name ->
  fn +:+ "$withSignature" <> "reflect/types.type:" +:+ name.
Proof.
  intros [r ->]%signature_name_last Heq.
  apply (f_equal lastChar) in Heq.
  rewrite <- (append_assoc "reflect/types.type:" r "}") in Heq.
  rewrite !lastChar_append in Heq by discriminate. vm_compute in Heq. discriminate Heq.
Qed.

Lemma internalConstant_spec (t : llvm.Type_) (n : string) (init : llvm.Value) c g c' :
  (g ← AddGlobal t n;
   modifyMod (llvm.SetInitializer g init);;
   modifyMod (llvm.SetGlobalConstant g true);;
   modifyMod (llvm.SetLinkage g llvm.InternalLinkage);;
   mret g) c = Ok (g, c') ->
  g = llvm.Global n t /\
  builder c' = builder c /\
  llvm.functions (mod_ c') = llvm.functions (mod_ c) /\
  llvm.globals (mod_ c') !! n = Some (llvm.mkGlobal t (Some init) true llvm.InternalLinkage) /\
  (forall k, k <> n -> llvm.globals (mod_ c') !! k = llvm.globals (mod_ c) !! k).
Proof.
  unfold_M. unfold_llvm. intros Hc. simplify_eq. simpl.
  split; [done|]. split; [done|]. split; [done|].
  split; [by rewrite !lookup_alter_eq, lookup_insert_eq|].
  intros k Hk. by rewrite !lookup_alter_ne, lookup_insert_ne.
Qed.

Definition withSignatureType : llvm.Type_ := getLLVMRuntimeType "funcValueWithSignature".
Definition funcValueType : llvm.Type_ := getLLVMRuntimeType "funcValue".

(** X7: whatever the target, a function value is built in the switch
    implementation: [createFuncValue] emits two [insertvalue] instructions
    that put the context in field 0 and, in field 1, the address of the
    global [<function>$withSignature].  When the module does not have this
    global yet it is created as an internal constant initialized with the
    address of the function and the global [reflect/types.type:<identity of
    the signature>] of its signature. *)
Theorem createFuncValue_descriptor funcPtr context sig c v c' :
  createFuncValue funcPtr context sig c = Ok (v, c') ->
  llvm.NamedGlobal (mod_ c) (llvm.Name funcPtr +:+ "$withSignature") = None ->
  exists name sigGlobal bb,
    getTypeCodeName (SigType sig) = Ok name /\
    llvm.Name sigGlobal = "reflect/types.type:" +:+ name /\
    is_Some (llvm.globals (mod_ c') !! ("reflect/types.type:" +:+ name)) /\
    llvm.globals (mod_ c') !! (llvm.Name funcPtr +:+ "$withSignature") =
      Some (llvm.mkGlobal withSignatureType
              (Some (llvm.ConstNamedStruct withSignatureType
                       [llvm.ConstPtrToInt funcPtr (uintptrType c); sigGlobal]))
              true llvm.InternalLinkage) /\
    llvm.insertBlock (builder c) = Some bb /\
    blockInstrs (mod_ c') bb =
      blockInstrs (mod_ c) bb ++
      [(llvm.nextInst (builder c),
        llvm.InsertValue (llvm.Undef funcValueType) context 0);
       (S (llvm.nextInst (builder c)),
        llvm.InsertValue (llvm.Inst (llvm.nextInst (builder c)) funcValueType)
          (llvm.ConstPtrToInt
             (llvm.Global (llvm.Name funcPtr +:+ "$withSignature") withSignatureType)
             (uintptrType c)) 1)] /\
    v = llvm.Inst (S (llvm.nextInst (builder c))) funcValueType.
Proof.
  unfold createFuncValue. intros Hc Hnone.
  apply bind_Ok in Hc as [c0 [c0' [Hget Hc]]]. apply get_Ok in Hget as [-> ->].
  rewrite funcImplementation_switch in Hc.
  apply bind_Ok in Hc as [scalar [c3 [Hscalar Hc]]].
  apply bind_Ok in Hscalar as [sigGlobal [c1 [Hsig Hscalar]]].
  destruct (getFuncSignature_spec _ _ _ _ Hsig)
    as (name & Hname & Hsigname & Hsigglobal & Hbuilder & Huintptr & Hfuncs & Hother & _).
  pose proof (withSignature_fresh (llvm.Name funcPtr) sig name Hname) as Hfresh.
  apply bind_Ok in Hscalar as [found [c2 [Hfound Hscalar]]].
  assert (c2 = c1 /\ found = None) as [-> ->].
  { revert Hfound. unfold_M. unfold llvm.NamedGlobal in *. intros Hfound.
    rewrite (Hother _ Hfresh) in Hfound.
    destruct (llvm.globals (mod_ c) !! (llvm.Name funcPtr +:+ "$withSignature"));
      [discriminate | by simplify_eq]. }
  apply bind_Ok in Hscalar as [g [c4 [Hg Hscalar]]].
  apply mret_Ok in Hscalar as [-> ->].
  apply bind_Ok in Hc as [fvt [c5 [Hfvt Hc]]].
  unfold getFuncType in Hfvt. rewrite funcImplementation_switch in Hfvt.
  unfold lift in Hfvt. injection Hfvt as <- <-.
  apply bind_Ok in Hc as [v1 [c6 [H1 Hc]]].
  apply bind_Ok in Hc as [v2 [c7 [H2 Hc]]].
  apply mret_Ok in Hc as [-> ->].
  apply internalConstant_spec in Hg as (-> & Hbuilder4 & Hfuncs4 & Hglobal4 & Hother4).
  apply emit_Ok in H1 as (bb & Hbb & Hblock & -> & ->).
  apply emit_Ok in H2 as (bb' & Hbb' & Hblock' & -> & ->).
  assert (bb' = bb) as -> by (unfold emitAt in Hbb'; simpl in Hbb'; congruence).
  exists name, (sigGlobal), bb.
  split; [done|]. split; [done|].
  split.
  { change (is_Some (llvm.globals (mod_ c4) !! ("reflect/types.type:" +:+ name))).
    rewrite Hother4 by done. exact Hsigglobal. }
  split; [exact Hglobal4|].
  split; [congruence|]. split.
  - rewrite blockInstrs_emitAt_eq by done.
    rewrite blockInstrs_emitAt_eq by done.
    rewrite <- app_assoc. cbn [app]. unfold emitAt at 1. cbn [builder setBuilder llvm.nextInst].
    rewrite Hbuilder4, Hbuilder.
    f_equal. unfold blockInstrs, blockAt. by rewrite Hfuncs4, Hfuncs.
  - unfold emitAt. cbn [builder setBuilder llvm.nextInst]. by rewrite Hbuilder4, Hbuilder.
Qed.

End funcvalue_properties.

Definition functionA : llvm.Value := llvm.Function "main.A" exampleFnType.

Lemma createFuncValue_descriptor_witness :
  exists v c',
    createFuncValue (H := exampleProgram) functionA (llvm.Undef i8ptr) (mkSig None [] [])
      exampleCompiler = Ok (v, c') /\
    llvm.NamedGlobal (mod_ exampleCompiler) (llvm.Name functionA +:+ "$withSignature") = None /\
    exists name sigGlobal bb,
      getTypeCodeName (SigType (mkSig None [] [])) = Ok name /\
      llvm.Name sigGlobal = "reflect/types.type:" +:+ name /\
      is_Some (llvm.globals (mod_ c') !! ("reflect/types.type:" +:+ name)) /\
      llvm.globals (mod_ c') !! (llvm.Name functionA +:+ "$withSignature") =
        Some (llvm.mkGlobal withSignatureType
                (Some (llvm.ConstNamedStruct withSignatureType
                         [llvm.ConstPtrToInt functionA (uintptrType exampleCompiler);
                          sigGlobal]))
                true llvm.InternalLinkage) /\
      llvm.insertBlock (builder exampleCompiler) = Some bb /\
      blockInstrs (mod_ c') bb =
        blockInstrs (mod_ exampleCompiler) bb ++
        [(llvm.nextInst (builder exampleCompiler),
          llvm.InsertValue (llvm.Undef funcValueType) (llvm.Undef i8ptr) 0);
         (S (llvm.nextInst (builder exampleCompiler)),
          llvm.InsertValue (llvm.Inst (llvm.nextInst (builder exampleCompiler)) funcValueType)
            (llvm.ConstPtrToInt
               (llvm.Global (llvm.Name functionA +:+ "$withSignature") withSignatureType)
               (uintptrType exampleCompiler)) 1)] /\
      v = llvm.Inst (S (llvm.nextInst (builder exampleCompiler))) funcValueType.
Proof.
  eexists _, _. split; [vm_compute; reflexivity|]. split; [reflexivity|].
  apply (createFuncValue_descriptor (H := exampleProgram) functionA (llvm.Undef i8ptr)
           (mkSig None [] []) exampleCompiler); [vm_compute; reflexivity | reflexivity].
Defined.

(** ** Making and decoding function values *)

Section funcvalue_runs.
Context `{Program}.

Lemma getFuncSignature_global sig c g c' name :
  getFuncSignature sig c = Ok (g, c') ->
  getTypeCodeName (SigType sig) = Ok name ->
  exists t, g = llvm.Global ("reflect/types.type:" +:+ name) t.
Proof.
  unfold getFuncSignature. intros Hc Hname.
  apply bind_Ok in Hc as [name' [c1 [Hname' Hc]]].
  unfold lift in Hname'. rewrite Hname in Hname'. injection Hname' as <- <-.
  revert Hc. unfold_M. unfold_llvm. intros Hc.
  destruct (llvm.globals (mod_ c) !! ("reflect/types.type:" +:+ name)); simplify_eq;
    by eexists.
Qed.

Lemma blockInstrs_functions m m' bb :
  llvm.functions m' = llvm.functions m -> blockInstrs m' bb = blockInstrs m bb.
Proof. intros Hf. unfold blockInstrs, blockAt. by rewrite Hf. Qed.

Lemma getRawFuncType_config c c' sig :
  i8ptrType c' = i8ptrType c -> funcPtrAddrSpace c' = funcPtrAddrSpace c ->
  getRawFuncType c' sig = getRawFuncType c sig.
Proof. unfold getRawFuncType. by intros -> ->. Qed.

Lemma createFuncValue_config funcPtr context sig c v c' :
  createFuncValue funcPtr context sig c = Ok (v, c') ->
  i8ptrType c' = i8ptrType c /\ funcPtrAddrSpace c' = funcPtrAddrSpace c.
Proof.
  unfold createFuncValue. intros Hc.
  apply bind_Ok in Hc as [c0 [c0' [Hget Hc]]]. apply get_Ok in Hget as [-> ->].
  rewrite funcImplementation_switch in Hc.
  apply bind_Ok in Hc as [scalar [c3 [Hscalar Hc]]].
  apply bind_Ok in Hscalar as [sigGlobal [c1 [Hsig Hscalar]]].
  assert (H1 : i8ptrType c1 = i8ptrType c /\ funcPtrAddrSpace c1 = funcPtrAddrSpace c).
  { revert Hsig. unfold getFuncSignature. unfold_M. unfold_llvm. intros Hsig.
    repeat case_match; by simplify_eq. }
  apply bind_Ok in Hscalar as [found [c2 [Hfound Hscalar]]].
  assert (c2 = c1) as -> by (revert Hfound; unfold_M; intros; by simplify_eq).
  apply bind_Ok in Hscalar as [g [c4 [Hg Hscalar]]].
  apply mret_Ok in Hscalar as [-> ->].
  assert (H4 : i8ptrType c4 = i8ptrType c1 /\ funcPtrAddrSpace c4 = funcPtrAddrSpace c1).
  { revert Hg. unfold_M. unfold_llvm. intros Hg. repeat case_match; by simplify_eq. }
  apply bind_Ok in Hc as [fvt [c5 [Hfvt Hc]]].
  unfold getFuncType in Hfvt. rewrite funcImplementation_switch in Hfvt.
  unfold lift in Hfvt. injection Hfvt as <- <-.
  apply bind_Ok in Hc as [v1 [c6 [Hv1 Hc]]].
  apply bind_Ok in Hc as [v2 [c7 [Hv2 Hc]]].
  apply mret_Ok in Hc as [-> ->].
  apply emit_Ok in Hv1 as (bb & _ & _ & -> & ->).
  apply emit_Ok in Hv2 as (bb' & _ & _ & -> & ->).
  unfold emitAt. simpl. destruct H1, H4. split; congruence.
Qed.

(** The code of [createFuncValue]. *)
Lemma createFuncValue_code funcPtr context sig c v c' :
  createFuncValue funcPtr context sig c = Ok (v, c') ->
  exists name t bb,
    getTypeCodeName (SigType sig) = Ok name /\
    llvm.insertBlock (builder c) = Some bb /\
    is_Some (blockAt (mod_ c') bb) /\
    builder c' = llvm.mkBuilder (Some bb) (S (S (llvm.nextInst (builder c)))) /\
    blockInstrs (mod_ c') bb =
      blockInstrs (mod_ c) bb ++
      [(llvm.nextInst (builder c),
        llvm.InsertValue (llvm.Undef funcValueType) context 0);
       (S (llvm.nextInst (builder c)),
        llvm.InsertValue (llvm.Inst (llvm.nextInst (builder c)) funcValueType)
          (llvm.ConstPtrToInt
             (llvm.Global (llvm.Name funcPtr +:+ "$withSignature") t) (uintptrType c)) 1)] /\
    v = llvm.Inst (S (llvm.nextInst (builder c))) funcValueType.
Proof.
  unfold createFuncValue. intros Hc.
  apply bind_Ok in Hc as [c0 [c0' [Hget Hc]]]. apply get_Ok in Hget as [-> ->].
  rewrite funcImplementation_switch in Hc.
  apply bind_Ok in Hc as [scalar [c3 [Hscalar Hc]]].
  apply bind_Ok in Hscalar as [sigGlobal [c1 [Hsig Hscalar]]].
  destruct (getFuncSignature_spec _ _ _ _ Hsig)
    as (name & Hname & _ & _ & Hbuilder & _ & Hfuncs & _ & _).
  apply bind_Ok in Hscalar as [found [c2 [Hfound Hscalar]]].
  assert (c2 = c1) as -> by (revert Hfound; unfold_M; intros; by simplify_eq).
  apply bind_Ok in Hscalar as [g [c4 [Hg Hscalar]]].
  apply mret_Ok in Hscalar as [-> ->].
  assert (Hg' : (exists t, g = llvm.Global (llvm.Name funcPtr +:+ "$withSignature") t) /\
                builder c4 = builder c1 /\
                llvm.functions (mod_ c4) = llvm.functions (mod_ c1)).
  { destruct found as [g0|].
    - apply mret_Ok in Hg as [-> ->]. split; [|done].
      revert Hfound. unfold_M. unfold llvm.NamedGlobal. intros Hfound.
      destruct (llvm.globals (mod_ c1) !! _); simplify_eq. by eexists.
    - apply internalConstant_spec in Hg as (-> & ? & ? & _). split; [by eexists | done]. }
  destruct Hg' as ([t ->] & Hbuilder4 & Hfuncs4).
  apply bind_Ok in Hc as [fvt [c5 [Hfvt Hc]]].
  unfold getFuncType in Hfvt. rewrite funcImplementation_switch in Hfvt.
  unfold lift in Hfvt. injection Hfvt as <- <-.
  apply bind_Ok in Hc as [v1 [c6 [H1 Hc]]].
  apply bind_Ok in Hc as [v2 [c7 [H2 Hc]]].
  apply mret_Ok in Hc as [-> ->].
  apply emit_Ok in H1 as (bb & Hbb & Hblock & -> & ->).
  apply emit_Ok in H2 as (bb' & Hbb' & Hblock' & -> & ->).
  assert (bb' = bb) as -> by (unfold emitAt in Hbb'; simpl in Hbb'; congruence).
  exists name, t, bb.
  split; [done|]. split; [congruence|].
  split; [by apply is_Some_blockAt_emitAt|].
  split.
  { unfold emitAt. cbn [builder setBuilder llvm.nextInst]. by rewrite Hbuilder4, Hbuilder. }
  split.
  - rewrite blockInstrs_emitAt_eq by done.
    rewrite blockInstrs_emitAt_eq by done.
    rewrite <- app_assoc. cbn [app]. unfold emitAt at 1. cbn [builder setBuilder llvm.nextInst].
    rewrite Hbuilder4, Hbuilder.
    f_equal. unfold blockInstrs, blockAt. by rewrite Hfuncs4, Hfuncs.
  - unfold emitAt. cbn [builder setBuilder llvm.nextInst]. by rewrite Hbuilder4, Hbuilder.
Qed.

(** The code of [decodeFuncValue]. *)
Lemma decodeFuncValue_code funcValue sig c funcPtr context c' bb name :
  decodeFuncValue funcValue sig c = Ok ((funcPtr, context), c') ->
  llvm.insertBlock (builder c) = Some bb ->
  getTypeCodeName (SigType sig) = Ok name ->
  exists t t',
    blockInstrs (mod_ c') bb =
      blockInstrs (mod_ c) bb ++
      [(llvm.nextInst (builder c), llvm.ExtractValue funcValue 0);
       (S (llvm.nextInst (builder c)),
        llvm.RuntimeCall "getFuncPtr"
          [funcValue; llvm.Global ("reflect/types.type:" +:+ name) t]);
       (S (S (llvm.nextInst (builder c))),
        llvm.IntToPtr (llvm.Inst (S (llvm.nextInst (builder c))) t') (getRawFuncType c sig))] /\
    context = llvm.Inst (llvm.nextInst (builder c))
                (fieldType c (llvm.typeOf funcValue) 0) /\
    funcPtr = llvm.Inst (S (S (llvm.nextInst (builder c)))) (getRawFuncType c sig).
Proof.
  unfold decodeFuncValue. intros Hc Hbb Hname.
  apply bind_Ok in Hc as [ctx [c1 [Hctx Hc]]].
  unfold CreateExtractValue in Hctx.
  apply bind_Ok in Hctx as [c0 [c0' [Hget Hctx]]]. apply get_Ok in Hget as [-> ->].
  apply emit_Ok in Hctx as (bb0 & Hbb0 & Hblock & -> & ->).
  assert (bb0 = bb) as -> by congruence.
  apply bind_Ok in Hc as [c0 [c0' [Hget Hc]]]. apply get_Ok in Hget as [-> ->].
  rewrite funcImplementation_switch in Hc.
  apply bind_Ok in Hc as [fp [c4 [Hfp Hc]]].
  apply mret_Ok in Hc as [[= <- <-] ->].
  apply bind_Ok in Hfp as [sigGlobal [c2 [Hsig Hfp]]].
  destruct (getFuncSignature_global _ _ _ _ _ Hsig Hname) as [t ->].
  destruct (getFuncSignature_spec _ _ _ _ Hsig)
    as (name' & _ & _ & _ & Hbuilder & _ & Hfuncs & _ & _).
  apply bind_Ok in Hfp as [raw [c3 [Hraw Hfp]]].
  unfold createRuntimeCall in Hraw.
  apply bind_Ok in Hraw as [c0 [c0' [Hget Hraw]]]. apply get_Ok in Hget as [-> ->].
  apply emit_Ok in Hraw as (bb1 & Hbb1 & Hblock1 & -> & ->).
  assert (bb1 = bb) as ->.
  { rewrite Hbuilder in Hbb1. unfold emitAt in Hbb1. simpl in Hbb1. congruence. }
  unfold CreateIntToPtr in Hfp.
  apply emit_Ok in Hfp as (bb2 & Hbb2 & Hblock2 & -> & ->).
  assert (bb2 = bb) as -> by (unfold emitAt in Hbb2; simpl in Hbb2; congruence).
  eexists t, _. split; [|split].
  - rewrite blockInstrs_emitAt_eq by done.
    rewrite blockInstrs_emitAt_eq by done.
    rewrite (blockInstrs_functions _ _ _ Hfuncs).
    rewrite blockInstrs_emitAt_eq by done.
    rewrite <- !app_assoc. cbn [app].
    unfold emitAt at 1. cbn [builder setBuilder llvm.nextInst].
    rewrite Hbuilder. unfold emitAt at 1. cbn [builder setBuilder llvm.nextInst].
    unfold emitAt at 1. cbn [uintptrType i8ptrType funcPtrAddrSpace setBuilder setMod].
    reflexivity.
  - reflexivity.
  - unfold emitAt at 1. cbn [builder setBuilder llvm.nextInst].
    rewrite Hbuilder. unfold emitAt at 1. cbn [builder setBuilder llvm.nextInst].
    reflexivity.
Qed.

(** A function value is made and then decoded. *)
Definition funcValueRoundTrip (funcPtr context : llvm.Value) (sig : Sig) : M (llvm.Value * llvm.Value) :=
  funcValue ← createFuncValue funcPtr context sig;
  decodeFuncValue funcValue sig.

(** X8: making a function value and decoding it gives the context back, and
    the function pointer it gives is what [getFuncPtr] answers for the
    function value (the pair of the context and the address of
    [<function>$withSignature]) and the global of the same signature: the
    five instructions emitted run to their end, whatever the runtime
    answers, and call nothing else. *)
Theorem funcValue_roundtrip funcPtr context sig c funcPtr' context' c' bb
    (rt : string -> list exec.RValue -> exec.RValue) (params : list exec.RValue)
    (s : exec.State) :
  funcValueRoundTrip funcPtr context sig c = Ok ((funcPtr', context'), c') ->
  llvm.insertBlock (builder c) = Some bb ->
  exec.block s = bb ->
  exec.pc s = length (blockInstrs (mod_ c) bb) ->
  exists name s',
    getTypeCodeName (SigType sig) = Ok name /\
    exec.run rt params 6 (mod_ c') s = exec.Finished s' /\
    exec.eval params (exec.env s') context' = exec.eval params (exec.env s) context /\
    exec.eval params (exec.env s') funcPtr' =
      rt "getFuncPtr"
         [exec.RStruct [exec.eval params (exec.env s) context;
                        exec.RGlobal (llvm.Name funcPtr +:+ "$withSignature")];
          exec.RGlobal ("reflect/types.type:" +:+ name)] /\
    llvm.typeOf funcPtr' = getRawFuncType c sig /\
    exec.calls s' = exec.calls s /\ exec.mem s' = exec.mem s.
Proof.
  unfold funcValueRoundTrip. intros Hc Hbb Hblock Hpc.
  apply bind_Ok in Hc as [fv [c1 [Hfv Hc]]].
  destruct (createFuncValue_code _ _ _ _ _ _ Hfv)
    as (name & t & bb0 & Hname & Hbb0 & Hblock1 & Hbuilder1 & Hcode1 & ->).
  assert (bb0 = bb) as -> by congruence.
  assert (Hbb1 : llvm.insertBlock (builder c1) = Some bb) by by rewrite Hbuilder1.
  destruct (decodeFuncValue_code _ _ _ _ _ _ _ _ Hc Hbb1 Hname)
    as (t1 & t2 & Hcode2 & -> & ->).
  rewrite Hcode1, Hbuilder1, <- app_assoc in Hcode2. cbn [app llvm.nextInst] in Hcode2.
  destruct (createFuncValue_config _ _ _ _ _ _ Hfv) as [Hi8 Haddr].
  rewrite Hbuilder1, (getRawFuncType_config _ _ _ Hi8 Haddr). cbn [llvm.nextInst].
  rewrite (getRawFuncType_config _ _ _ Hi8 Haddr) in Hcode2.
  set (n := llvm.nextInst (builder c)) in *.
  exists name.
  erewrite run_step; cycle 1.
  { erewrite (fetch_at _ _ bb _ _ 0%nat); cycle 1;
      [exact Hblock | exact Hcode2 | simpl; lia | reflexivity]. }
  { reflexivity. }
  erewrite run_step; cycle 1.
  { erewrite (fetch_at _ _ bb _ _ 1%nat); cycle 1;
      [exact Hblock | exact Hcode2 | simpl; lia | reflexivity]. }
  { simpl. rewrite lookup_insert_eq. reflexivity. }
  erewrite run_step; cycle 1.
  { erewrite (fetch_at _ _ bb _ _ 2%nat); cycle 1;
      [exact Hblock | exact Hcode2 | simpl; lia | reflexivity]. }
  { simpl. rewrite lookup_insert_eq. reflexivity. }
  erewrite run_step; cycle 1.
  { erewrite (fetch_at _ _ bb _ _ 3%nat); cycle 1;
      [exact Hblock | exact Hcode2 | simpl; lia | reflexivity]. }
  { simpl. rewrite !(lookup_insert_ne (M := gmap nat)) by lia.
    rewrite lookup_insert_eq. reflexivity. }
  erewrite run_step; cycle 1.
  { erewrite (fetch_at _ _ bb _ _ 4%nat); cycle 1;
      [exact Hblock | exact Hcode2 | simpl; lia | reflexivity]. }
  { simpl. rewrite lookup_insert_eq. reflexivity. }
  rewrite run_finished.
  2:{ erewrite (fetch_at _ _ bb _ _ 5%nat); cycle 1;
        [exact Hblock | exact Hcode2 | simpl; lia | reflexivity]. }
  eexists. split; [done|]. split; [reflexivity|]. simpl.
  split.
  { rewrite !(lookup_insert_ne (M := gmap nat)) by lia. by rewrite lookup_insert_eq. }
  split; [by rewrite lookup_insert_eq|].
  done.
Qed.
End funcvalue_runs.

Lemma funcValue_roundtrip_witness :
  exists funcPtr' context' c',
    funcValueRoundTrip (H := exampleProgram) functionA (llvm.Param "main.f" 3 i8ptr)
      (mkSig None [] []) exampleCompiler = Ok ((funcPtr', context'), c') /\
    llvm.insertBlock (builder exampleCompiler) = Some ("main.f", 0%nat) /\
    exec.block entryState = ("main.f", 0%nat) /\
    exec.pc entryState = length (blockInstrs (mod_ exampleCompiler) ("main.f", 0%nat)) /\
    exists name s',
      getTypeCodeName (SigType (mkSig None [] [])) = Ok name /\
      exec.run exec.lowered (exampleParams (exec.RInt 5)) 6 (mod_ c') entryState
        = exec.Finished s' /\
      exec.eval (exampleParams (exec.RInt 5)) (exec.env s') context' =
        exec.eval (exampleParams (exec.RInt 5)) (exec.env entryState)
          (llvm.Param "main.f" 3 i8ptr) /\
      exec.eval (exampleParams (exec.RInt 5)) (exec.env s') funcPtr' =
        exec.lowered "getFuncPtr"
          [exec.RStruct [exec.eval (exampleParams (exec.RInt 5)) (exec.env entryState)
                           (llvm.Param "main.f" 3 i8ptr);
                         exec.RGlobal (llvm.Name functionA +:+ "$withSignature")];
           exec.RGlobal ("reflect/types.type:" +:+ name)] /\
      llvm.typeOf funcPtr' = getRawFuncType (H := exampleProgram) exampleCompiler (mkSig None [] []) /\
      exec.calls s' = exec.calls entryState /\ exec.mem s' = exec.mem entryState.
Proof.
  eexists _, _, _. split; [vm_compute; reflexivity|].
  split; [reflexivity|]. split; [reflexivity|]. split; [reflexivity|].
  eapply (funcValue_roundtrip (H := exampleProgram) functionA (llvm.Param "main.f" 3 i8ptr)
            (mkSig None [] []) exampleCompiler); first [reflexivity | vm_compute; reflexivity].
Defined.

(** ** Calls of interface methods *)

Section invoke_properties.
Context `{Program}.

Lemma getMethodSignature_global method c g c' :
  getMethodSignature method c = Ok (g, c') ->
  exists t, g = llvm.Global ("func " +:+ MethodSignature method) t.
Proof.
  unfold getMethodSignature. unfold_M. unfold_llvm. intros Hc.
  repeat case_match; simplify_eq; by eexists.
Qed.

Lemma forM_getValue frame (l : list ssa.Value) c vs c' :
  forM l (fun arg => getValue frame arg) c = Ok (vs, c') ->
  c' = c /\
  Forall2 (fun arg v => locals frame !! ssa.ValueName arg = Some v) l vs.
Proof.
  revert c vs. induction l as [|a l IH]; intros c vs Hc; simpl in Hc.
  - apply mret_Ok in Hc as [-> ->]. by split.
  - apply bind_Ok in Hc as [v [c1 [Hv Hc]]].
    apply bind_Ok in Hc as [vs' [c2 [Hvs Hc]]].
    apply mret_Ok in Hc as [-> ->].
    unfold getValue in Hv.
    destruct (locals frame !! ssa.ValueName a) as [x|] eqn:Hx; [|discriminate].
    apply mret_Ok in Hv as [-> ->].
    destruct (IH _ _ Hvs) as [-> Hall]. split; [done|]. by constructor.
Qed.

Lemma blockInstrs_extends c c' bb :
  extends c c' -> is_Some (blockAt (mod_ c) bb) ->
  blockInstrs (mod_ c') bb = blockInstrs (mod_ c) bb.
Proof.
  intros Hext [b Hb]. unfold blockInstrs.
  by rewrite (blockAt_extends _ _ _ _ Hext Hb), Hb.
Qed.

(** The code of [getInvokeCall]. *)
Lemma getInvokeCall_code frame instr c fn args c' bb :
  getInvokeCall frame instr c = Ok ((fn, args), c') ->
  llvm.insertBlock (builder c) = Some bb ->
  exists itf method sig argvals t1 t2 t3 t4 t5,
    locals frame !! ssa.ValueName (ssa.CallValue instr) = Some itf /\
    ssa.Method instr = Some method /\
    asSignature (FuncType method) = Some sig /\
    Forall2 (fun arg v => locals frame !! ssa.ValueName arg = Some v) (ssa.Args instr) argvals /\
    blockInstrs (mod_ c') bb =
      blockInstrs (mod_ c) bb ++
      [(llvm.nextInst (builder c), llvm.ExtractValue itf 0);
       (S (llvm.nextInst (builder c)),
        llvm.RuntimeCall "interfaceMethod"
          [llvm.Inst (llvm.nextInst (builder c)) t1;
           llvm.ConstGEP
             (llvm.Global (String_ (ssa.ValueType (ssa.CallValue instr)) +:+ "$interface") t2)
             [zero32; zero32];
           llvm.Global ("func " +:+ MethodSignature method) t3]);
       (S (S (llvm.nextInst (builder c))),
        llvm.IntToPtr (llvm.Inst (S (llvm.nextInst (builder c))) t4) (getRawFuncType c sig));
       (S (S (S (llvm.nextInst (builder c)))), llvm.ExtractValue itf 1)] /\
    fn = llvm.Inst (S (S (llvm.nextInst (builder c)))) (getRawFuncType c sig) /\
    args = [llvm.Inst (S (S (S (llvm.nextInst (builder c))))) t5] ++ argvals
           ++ [llvm.Undef (i8ptrType c)] ++ [llvm.Undef (i8ptrType c)].
Proof.
  unfold getInvokeCall. intros Hc Hbb.
  apply bind_Ok in Hc as [itf [c0 [Hitf Hc]]].
  unfold getValue in Hitf.
  destruct (locals frame !! ssa.ValueName (ssa.CallValue instr)) as [x|] eqn:Hx;
    [|discriminate].
  apply mret_Ok in Hitf as [-> ->].
  destruct (ssa.Method instr) as [method|] eqn:Hmethod; [|discriminate].
  destruct (asSignature (FuncType method)) as [sig|] eqn:Hsig; [|discriminate].
  apply bind_Ok in Hc as [c0 [c0' [Hget Hc]]]. apply get_Ok in Hget as [-> ->].
  apply bind_Ok in Hc as [typecode [c1 [Htypecode Hc]]].
  unfold CreateExtractValue in Htypecode.
  apply bind_Ok in Htypecode as [c0 [c0' [Hget Htypecode]]]. apply get_Ok in Hget as [-> ->].
  apply emit_Ok in Htypecode as (bb0 & Hbb0 & Hblock & -> & ->).
  assert (bb0 = bb) as -> by congruence.
  destruct (isNamed (ssa.ValueType (ssa.CallValue instr))); [|discriminate].
  apply bind_Ok in Hc as [methodSet [c2 [Hset Hc]]].
  destruct (getInterfaceMethodSet_returns _ _ _ _ Hset) as (g & [t2 ->]%NamedGlobal_Some & ->).
  apply getInterfaceMethodSet_spec in Hset as [Hext2 _].
  apply bind_Ok in Hc as [signature [c3 [Hsignature Hc]]].
  destruct (getMethodSignature_global _ _ _ _ Hsignature) as [t3 ->].
  apply getMethodSignature_extends in Hsignature as Hext3.
  apply bind_Ok in Hc as [raw [c4 [Hraw Hc]]].
  unfold createRuntimeCall in Hraw.
  apply bind_Ok in Hraw as [c0 [c0' [Hget Hraw]]]. apply get_Ok in Hget as [-> ->].
  apply emit_Ok in Hraw as (bb1 & Hbb1 & Hblock1 & -> & ->).
  pose proof (extends_trans _ _ _ Hext2 Hext3) as Hext.
  assert (Hblock0 : is_Some (blockAt (mod_ (emitAt bb (llvm.ExtractValue x 0) c)) bb))
    by by apply is_Some_blockAt_emitAt.
  assert (bb1 = bb) as ->.
  { rewrite (ext_builder _ _ Hext) in Hbb1. unfold emitAt in Hbb1. simpl in Hbb1. congruence. }
  apply bind_Ok in Hc as [fnCast [c5 [Hcast Hc]]].
  unfold CreateIntToPtr in Hcast.
  apply emit_Ok in Hcast as (bb2 & Hbb2 & Hblock2 & -> & ->).
  assert (bb2 = bb) as -> by (unfold emitAt in Hbb2; simpl in Hbb2; congruence).
  apply bind_Ok in Hc as [receiver [c6 [Hreceiver Hc]]].
  unfold CreateExtractValue in Hreceiver.
  apply bind_Ok in Hreceiver as [c0 [c0' [Hget Hreceiver]]]. apply get_Ok in Hget as [-> ->].
  apply emit_Ok in Hreceiver as (bb3 & Hbb3 & Hblock3 & -> & ->).
  assert (bb3 = bb) as -> by (unfold emitAt in Hbb3; simpl in Hbb3; congruence).
  apply bind_Ok in Hc as [argvals [c7 [Hargs Hc]]].
  apply forM_getValue in Hargs as [-> Hargs].
  apply mret_Ok in Hc as [[= -> ->] ->].
  eexists x, method, sig, argvals, _, t2, t3, _, _.
  split; [done|]. split; [done|]. split; [done|]. split; [exact Hargs|].
  assert (Hnext : forall bb0 i c0,
            llvm.nextInst (builder (emitAt bb0 i c0)) = S (llvm.nextInst (builder c0)))
    by reflexivity.
  split; [|split].
  - rewrite blockInstrs_emitAt_eq by done.
    rewrite blockInstrs_emitAt_eq by done.
    rewrite blockInstrs_emitAt_eq by done.
    rewrite (blockInstrs_extends _ _ _ Hext Hblock0).
    rewrite blockInstrs_emitAt_eq by done.
    rewrite <- !app_assoc. cbn [app].
    repeat (rewrite Hnext || rewrite (ext_builder _ _ Hext)).
    reflexivity.
  - repeat (rewrite Hnext || rewrite (ext_builder _ _ Hext)). reflexivity.
  - repeat (rewrite Hnext || rewrite (ext_builder _ _ Hext)). reflexivity.
Qed.

(** A value that the instructions numbered [n] and up do not define: a
    parameter, a simple constant, a global or the result of an earlier
    instruction. *)
Definition availableAt (n : nat) (v : llvm.Value) : Prop :=
  match v with
  | llvm.Inst id _ => (id < n)%nat
  | llvm.Param _ _ _ | llvm.Global _ _ | llvm.Function _ _ | llvm.Undef _
  | llvm.ConstNull _ | llvm.ConstPointerNull _ | llvm.ConstInt _ _ => True
  | _ => False
  end.

Lemma eval_availableAt params (n : nat) (v : llvm.Value) (env env' : gmap nat exec.RValue) :
  availableAt n v ->
  (forall id, (id < n)%nat -> env' !! id = env !! id) ->
  exec.eval params env' v = exec.eval params env v.
Proof.
  intros Hv Henv. destruct v; try done. simpl in *. by rewrite Henv.
Qed.

(** X9: the call of an interface method dispatches on the interface value
    it is made on.  [getInvokeCall] emits four instructions that run to
    their end and call nothing; the function pointer it returns is what
    [interfaceMethod] answers for the type code of that interface value, the
    method set of its interface type and the signature of the method; the
    arguments it returns are the value slot of that same interface value,
    the arguments of the call, and two undefined pointers (the context and
    the parent handle). *)
Theorem invoke_dispatch frame instr c fn args c' bb
    (rt : string -> list exec.RValue -> exec.RValue) (params : list exec.RValue)
    (s : exec.State) :
  getInvokeCall frame instr c = Ok ((fn, args), c') ->
  llvm.insertBlock (builder c) = Some bb ->
  exec.block s = bb ->
  exec.pc s = length (blockInstrs (mod_ c) bb) ->
  (forall itf, locals frame !! ssa.ValueName (ssa.CallValue instr) = Some itf ->
               availableAt (llvm.nextInst (builder c)) itf) ->
  exists itf method argvals receiver s',
    locals frame !! ssa.ValueName (ssa.CallValue instr) = Some itf /\
    ssa.Method instr = Some method /\
    Forall2 (fun arg v => locals frame !! ssa.ValueName arg = Some v) (ssa.Args instr) argvals /\
    exec.run rt params 5 (mod_ c') s = exec.Finished s' /\
    exec.eval params (exec.env s') fn =
      rt "interfaceMethod"
         [exec.extractField (exec.eval params (exec.env s) itf) 0;
          exec.RGlobal (String_ (ssa.ValueType (ssa.CallValue instr)) +:+ "$interface");
          exec.RGlobal ("func " +:+ MethodSignature method)] /\
    args = [receiver] ++ argvals ++ [llvm.Undef (i8ptrType c); llvm.Undef (i8ptrType c)] /\
    exec.eval params (exec.env s') receiver =
      exec.extractField (exec.eval params (exec.env s) itf) 1 /\
    exec.calls s' = exec.calls s /\ exec.mem s' = exec.mem s.
Proof.
  intros Hc Hbb Hblock Hpc Havailable.
  destruct (getInvokeCall_code _ _ _ _ _ _ _ Hc Hbb)
    as (itf & method & sig & argvals & t1 & t2 & t3 & t4 & t5 &
        Hitf & Hmethod & Hsig & Hargs & Hcode & -> & ->).
  specialize (Havailable itf Hitf).
  set (n := llvm.nextInst (builder c)) in *.
  eexists itf, method, argvals, _.
  erewrite run_step; cycle 1.
  { erewrite (fetch_at _ _ bb _ _ 0%nat); cycle 1;
      [exact Hblock | exact Hcode | simpl; lia | reflexivity]. }
  { reflexivity. }
  erewrite run_step; cycle 1.
  { erewrite (fetch_at _ _ bb _ _ 1%nat); cycle 1;
      [exact Hblock | exact Hcode | simpl; lia | reflexivity]. }
  { simpl. rewrite lookup_insert_eq. reflexivity. }
  erewrite run_step; cycle 1.
  { erewrite (fetch_at _ _ bb _ _ 2%nat); cycle 1;
      [exact Hblock | exact Hcode | simpl; lia | reflexivity]. }
  { simpl. rewrite lookup_insert_eq. reflexivity. }
  erewrite run_step; cycle 1.
  { erewrite (fetch_at _ _ bb _ _ 3%nat); cycle 1;
      [exact Hblock | exact Hcode | simpl; lia | reflexivity]. }
  { cbn [exec.execInstr exec.setReg exec.env].
    erewrite (eval_availableAt params n itf (exec.env s)); [reflexivity | exact Havailable |].
    intros id Hid. by rewrite !(lookup_insert_ne (M := gmap nat)) by lia. }
  rewrite run_finished.
  2:{ erewrite (fetch_at _ _ bb _ _ 4%nat); cycle 1;
        [exact Hblock | exact Hcode | simpl; lia | reflexivity]. }
  eexists. split; [done|]. split; [done|]. split; [done|]. split; [reflexivity|].
  simpl. split.
  { rewrite !(lookup_insert_ne (M := gmap nat)) by lia. by rewrite lookup_insert_eq. }
  split; [reflexivity|]. split; [simpl; by rewrite lookup_insert_eq | done].
Qed.
End invoke_properties.

(** The call [b.M()] on a value of the interface type [main.I]. *)
Definition callOnB : ssa.CallCommon :=
  ssa.mkCall (ssa.Register "b" (Named "main.I" (Interface [("M", Signature None [] [])])))
             (Some (mkFunc "(main.I).M" (Signature None [] []))) [].

Lemma invoke_dispatch_witness :
  exists fn args c',
    getInvokeCall (H := exampleProgram) exampleFrame callOnB exampleCompiler
      = Ok ((fn, args), c') /\
    llvm.insertBlock (builder exampleCompiler) = Some ("main.f", 0%nat) /\
    exec.block entryState = ("main.f", 0%nat) /\
    exec.pc entryState = length (blockInstrs (mod_ exampleCompiler) ("main.f", 0%nat)) /\
    (forall itf, locals exampleFrame !! ssa.ValueName (ssa.CallValue callOnB) = Some itf ->
                 availableAt (llvm.nextInst (builder exampleCompiler)) itf) /\
    exists itf method argvals receiver s',
      locals exampleFrame !! ssa.ValueName (ssa.CallValue callOnB) = Some itf /\
      ssa.Method callOnB = Some method /\
      Forall2 (fun arg v => locals exampleFrame !! ssa.ValueName arg = Some v)
              (ssa.Args callOnB) argvals /\
      exec.run exec.lowered (exampleParams (exec.RInt 5)) 5 (mod_ c') entryState
        = exec.Finished s' /\
      exec.eval (exampleParams (exec.RInt 5)) (exec.env s') fn =
        exec.lowered "interfaceMethod"
           [exec.extractField
              (exec.eval (exampleParams (exec.RInt 5)) (exec.env entryState) itf) 0;
            exec.RGlobal (String_ (ssa.ValueType (ssa.CallValue callOnB)) +:+ "$interface");
            exec.RGlobal ("func " +:+ MethodSignature (Program := exampleProgram) method)] /\
      args = [receiver] ++ argvals
             ++ [llvm.Undef (i8ptrType exampleCompiler); llvm.Undef (i8ptrType exampleCompiler)] /\
      exec.eval (exampleParams (exec.RInt 5)) (exec.env s') receiver =
        exec.extractField
          (exec.eval (exampleParams (exec.RInt 5)) (exec.env entryState) itf) 1 /\
      exec.calls s' = exec.calls entryState /\ exec.mem s' = exec.mem entryState.
Proof.
  assert (Havailable : forall itf,
            locals exampleFrame !! ssa.ValueName (ssa.CallValue callOnB) = Some itf ->
            availableAt (llvm.nextInst (builder exampleCompiler)) itf).
  { intros itf Hitf. vm_compute in Hitf. by injection Hitf as <-. }
  eexists _, _, _. split; [vm_compute; reflexivity|].
  split; [reflexivity|]. split; [reflexivity|]. split; [reflexivity|].
  split; [exact Havailable|].
  eapply (invoke_dispatch (H := exampleProgram) exampleFrame callOnB exampleCompiler);
    first [exact Havailable | reflexivity | vm_compute; reflexivity].
Defined.
